(** * rust-chord: sampler worklet, frame buffer and A/V sync

    A shallow embedding of the JavaScript front end of rust-chord:

    - the [SamplerProcessor] audio worklet, in its two versions:
      worklet-processor-code.js (the string [workletProcessorCode] that
      audio/context.js loads), whose [rustProcessor] is a JavaScript object,
      and frontend/src/audio/sampler-worklet.js, whose [rustProcessor] comes
      from the WebAssembly module;
    - the frame buffer of [VideoDecoderManager] (the video decoder module);
    - the synchronisation functions of frontend/src/video/sync.js;
    - the MIDI message handlers and the note names of audio/midi.js;
    - the time display of ui/transport.js, the loop region and the peaks of
      ui/waveform.js, the canvas size of video/renderer.js, the key
      handlers of utils/keyboard.js and the level meter of ui/meters.js;
    - the transport handlers and the animation callback of main.js, with
      the messages they post to the worklet.

    Numbers.  JavaScript numbers are modelled by exact rationals ([Q]):
    [Math.floor] is [Qfloor], [Math.abs] is [Qabs].  [NaN] and the
    infinities are outside [Q]; the one place where the code starts from
    [Infinity] (the running minimum of [getFrameAtTime]) uses [option Q],
    and the one place where a typed array can receive [undefined] (a read
    at a negative index) uses the [NaN] constructor of [sample].  Every
    concrete input below uses values that binary64 represents exactly, or
    comparisons whose outcome is the same in binary64 (module [Binary64]
    evaluates them on primitive floats).

    Effects.  Every method takes the object it mutates ([this]) and returns
    the mutated object.  [port.postMessage] appends to the [port] field;
    [frame.close()] and [videoDecoder.seek(t)] append to the ghost logs
    [closeLog] and [seekLog], so that "is released" and "a seek is issued"
    can be stated.  [console.log/warn/error] have no effect on the state and
    are left out. *)

From Stdlib Require Import QArith Qround Qabs Qminmax ZArith List Bool Lia Lqa.
From Stdlib Require PrimFloat.
From Stdlib Require Ascii String Decimal DecimalString DecimalZ.
Import ListNotations.

Local Open Scope Q_scope.

(** ** JavaScript helpers *)

(** An element of a [Float32Array]: a number, or [NaN] (what storing
    [undefined] produces). *)
Inductive sample : Type :=
| Amp (q : Q)
| NaN.

Definition silence : sample := Amp 0.

(** [a < b] on numbers, as a boolean. *)
Definition Qltb (a b : Q) : bool := negb (Qle_bool b a).

(** [Math.max(a, b)] on numbers. *)
Definition Math_max (a b : Q) : Q := if Qle_bool a b then b else a.

(** [Math.min(a, b)] on numbers. *)
Definition Math_min (a b : Q) : Q := if Qle_bool a b then a else b.

(** [Math.floor(x)], an integer. *)
Definition Math_floor (x : Q) : Z := Qfloor x.

(** The numbers [m / 2^k] with [|m| < 2^53] and [k <= 1074].  Binary64
    holds each of them, and its operations round correctly: a sum, product
    or quotient of binary64 numbers whose exact value is one of these
    numbers is computed without error, so that the exact operation of this
    file is there the operation of the code. *)
Definition binary64_exact (x : Q) : Prop :=
  exists (m : Z) (k : nat),
    (Z.abs m < 2 ^ 53)%Z /\ (k <= 1074)%nat
    /\ x == inject_Z m / inject_Z (2 ^ Z.of_nat k).

(** [outputs] of [process]: outputs, each a list of channels, each a
    [Float32Array]. *)
Definition Channel := list sample.
Definition Outputs := list (list Channel).

(** The nested loops "Fill outputs with silence": every element of every
    channel of every output is set to 0. *)
Definition fill_silence (outputs : Outputs) : Outputs :=
  map (map (map (fun _ => silence))) outputs.

(** [typed[i]] for an integer [i]: [undefined] (stored as [NaN]) outside the
    array. *)
Definition typed_get (a : Channel) (i : Z) : sample :=
  if (i <? 0)%Z then NaN else nth (Z.to_nat i) a NaN.

(** Every sample of every channel of every output is 0. *)
Definition all_silent (outputs : Outputs) : Prop :=
  Forall (Forall (Forall (fun v => v = silence))) outputs.

(** The lengths of the channels of every output. *)
Definition shape (outputs : Outputs) : list (list nat) :=
  map (map (@length sample)) outputs.

(** Messages posted on the worklet's port, by their [type]: [initialized],
    [sampleLoaded], [error] with its message, and [levels].  The [peak] and
    [rms] of a [levels] message are computed from the first channel of the
    block; the model carries that channel in their place. *)
Inductive Message : Type :=
| MsgInitialized
| MsgSampleLoaded
| MsgError (message : nat)
| MsgLevels (block : Channel).

(** The message text 'Failed to load sample'. *)
Definition err_load_failed : nat := 1%nat.

(** A JavaScript completion: the call returned a value or threw. *)
Inductive Completion (A : Type) : Type :=
| Return (a : A)
| Throw.
Arguments Return {A} a.
Arguments Throw {A}.

(** ** The render callback, shared by both worklet files

    [process(inputs, outputs, parameters)] has the same text in
    sampler-worklet.js and in worklet-processor-code.js; the two differ in
    what [this.rustProcessor.process] is.  The section takes the worklet
    object and that inner call as parameters. *)

(** What a call that can mutate the worklet and the output arrays leaves
    behind: the object, the arrays, and how the call completed. *)
Record Outcome (W : Type) : Type := mkOutcome {
  after : W;
  written : Outputs;
  completion : Completion bool
}.
Arguments mkOutcome {W} _ _ _.
Arguments after {W} _.
Arguments written {W} _.
Arguments completion {W} _.

Module Boundary.

Section RenderBoundary.

Variable W : Type.
(** [this.initialized] and whether [this.rustProcessor] is non-null. *)
Variable initialized : W -> bool.
Variable has_rustProcessor : W -> bool.
(** [this.rustProcessor.process(inputs, outputs, parameters)]. *)
Variable rust_process : W -> Outputs -> Outcome W.
(** [this.port.postMessage(m)]. *)
Variable postMessage : Message -> W -> W.

(** The body of the [try] block.  [random] is the value [Math.random()]
    returns.  [outputs[0][0]] throws a TypeError when [outputs[0]] is
    [undefined]; a missing channel only makes [output] undefined. *)
Definition process_try (this : W) (outputs : Outputs) (random : Q) : Outcome W :=
  let r := rust_process this outputs in
  match completion r with
  | Throw => r
  | Return result =>
      if Qltb random (5 # 100) then
        match nth_error (written r) 0 with
        | None => mkOutcome (after r) (written r) Throw
        | Some output0 =>
            match nth_error output0 0 with
            | None => r
            | Some output =>
                mkOutcome (postMessage (MsgLevels output) (after r))
                          (written r) (Return result)
            end
        end
      else r
  end.

(** [process(inputs, outputs, parameters)]. *)
Definition process (this : W) (outputs : Outputs) (random : Q) : Outcome W :=
  if negb (initialized this) || negb (has_rustProcessor this) then
    mkOutcome this (fill_silence outputs) (Return true)
  else
    let r := process_try this outputs random in
    match completion r with
    | Return _ => r
    | Throw => mkOutcome (after r) (written r) (Return true)
    end.

End RenderBoundary.

Arguments process_try {W} _ _ _ _ _.
Arguments process {W} _ _ _ _ _ _ _.

End Boundary.

(** What the claim "converted to one silent block plus an error event" asks
    of the outcome [r] of [process] on [this]: the block is silent, an error
    message is among the messages posted during the call, and the callback
    returned [true]. *)
Definition fault_converted {W : Type} (port : W -> list Message) (this : W)
    (r : Outcome W) : Prop :=
  all_silent (written r)
  /\ (exists m, In (MsgError m) (skipn (length (port this)) (port (after r))))
  /\ completion r = Return true.

(** ** The worklet of worklet-processor-code.js *)

Module JsWorklet.

(** The fields of the [SamplerProcessor] object.  [rustProcessor] is either
    [null] or the object literal built by [initializeWasm], whose methods
    close over [this]; the flag records which. *)
Record SamplerProcessor : Type := mkSP {
  initialized : bool;
  rustProcessor : bool;
  sampleBuffer : option Channel;
  sampleRate : Q;
  isPlaying : bool;
  playbackPosition : Q;
  port : list Message
}.

Definition set_sampleBuffer (b : option Channel) (this : SamplerProcessor) :=
  mkSP (initialized this) (rustProcessor this) b (sampleRate this)
       (isPlaying this) (playbackPosition this) (port this).
Definition set_sampleRate (r : Q) (this : SamplerProcessor) :=
  mkSP (initialized this) (rustProcessor this) (sampleBuffer this) r
       (isPlaying this) (playbackPosition this) (port this).
Definition set_isPlaying (b : bool) (this : SamplerProcessor) :=
  mkSP (initialized this) (rustProcessor this) (sampleBuffer this)
       (sampleRate this) b (playbackPosition this) (port this).
Definition set_playbackPosition (p : Q) (this : SamplerProcessor) :=
  mkSP (initialized this) (rustProcessor this) (sampleBuffer this)
       (sampleRate this) (isPlaying this) p (port this).
Definition postMessage (m : Message) (this : SamplerProcessor) :=
  mkSP (initialized this) (rustProcessor this) (sampleBuffer this)
       (sampleRate this) (isPlaying this) (playbackPosition this)
       (port this ++ [m]).

(** The object after [constructor()]. The four sampler fields do not exist
    yet; they are given the values [initializeWasm] assigns. *)
Definition constructor : SamplerProcessor :=
  mkSP false false None 0 false 0 [].

(** [initializeWasm()]: nothing in its [try] block throws. *)
Definition initializeWasm (this : SamplerProcessor) : SamplerProcessor :=
  postMessage MsgInitialized
    (mkSP true true None 0 false 0 (port this)).

(** [rustProcessor.load_sample_data(leftChannel, sampleRate)]. *)
Definition load_sample_data (leftChannel : Channel) (rate : Q)
    (this : SamplerProcessor) : SamplerProcessor :=
  set_playbackPosition 0 (set_sampleRate rate (set_sampleBuffer (Some leftChannel) this)).

(** [rustProcessor.set_playback_state(isPlaying)]. *)
Definition set_playback_state (playing : bool) (this : SamplerProcessor)
    : SamplerProcessor :=
  let this := set_isPlaying playing this in
  if negb playing then set_playbackPosition 0 this else this.

(** [rustProcessor.seek(time)].  The product is the exact one; the code
    floors the binary64 product, which is the same number where
    [binary64_exact] holds of it. *)
Definition rust_seek (time : Q) (this : SamplerProcessor) : SamplerProcessor :=
  match sampleBuffer this with
  | Some buf =>
      if Qeq_bool (sampleRate this) 0 then this
      else
        let p := inject_Z (Math_floor (time * sampleRate this)) in
        set_playbackPosition
          (Math_max 0 (Math_min p (inject_Z (Z.of_nat (length buf)) - 1))) this
  | None => this
  end.

(** One iteration of the loop "Fill the output buffer with sample data";
    [deviceRate] is the global [sampleRate] of the worklet scope and [buf] is
    [this.sampleBuffer], which the loop never assigns.  Returns the object
    and the value stored in [output[i]].  The sum is the exact one; the
    code adds in binary64, which gives the same number where
    [binary64_exact] holds of the step and of the sum. *)
Definition render_sample (deviceRate : Q) (buf : Channel)
    (this : SamplerProcessor) : SamplerProcessor * sample :=
  let sampleIndex := Math_floor (playbackPosition this) in
  if (Z.of_nat (length buf) <=? sampleIndex)%Z then
    (set_isPlaying false (set_playbackPosition 0 this), silence)
  else
    (set_playbackPosition
       (playbackPosition this + sampleRate this / deviceRate) this,
     typed_get buf sampleIndex).

(** The loop itself, over the elements of [output] from index 0 up. *)
Fixpoint render_block (deviceRate : Q) (buf : Channel)
    (this : SamplerProcessor) (output : Channel)
    : SamplerProcessor * Channel :=
  match output with
  | [] => (this, [])
  | _ :: rest =>
      let '(this1, v) := render_sample deviceRate buf this in
      let '(this2, rest') := render_block deviceRate buf this1 rest in
      (this2, v :: rest')
  end.

(** "Copy to second channel": [outputRight[i] = output[i]] for
    [i < output.length]; a store past the end of a typed array is ignored. *)
Definition copy_channel (output outputRight : Channel) : Channel :=
  firstn (length outputRight) output ++ skipn (length output) outputRight.

(** [rustProcessor.process(inputs, outputs)]. *)
Definition rustProcessor_process (deviceRate : Q) (this : SamplerProcessor)
    (outputs : Outputs) : Outcome SamplerProcessor :=
  match sampleBuffer this, isPlaying this, outputs with
  | Some buf, true, (output :: channels) :: others =>
      let '(this', output') := render_block deviceRate buf this output in
      let channels' :=
        match channels with
        | outputRight :: more => copy_channel output' outputRight :: more
        | [] => []
        end in
      mkOutcome this' ((output' :: channels') :: others) (Return true)
  | _, _, _ => mkOutcome this (fill_silence outputs) (Return true)
  end.

(** The [audioData] of a [loadSample] message. *)
Record AudioData : Type := mkAudioData {
  left : Channel;
  right : option Channel;
  audioSampleRate : Q
}.

(** [loadSample(audioData)].  The call [this.rustProcessor.load_sample_data]
    throws when [rustProcessor] is null; the [catch] block posts the error. *)
Definition loadSample (audioData : AudioData) (this : SamplerProcessor)
    : SamplerProcessor :=
  if negb (initialized this) then this
  else if rustProcessor this then
    postMessage MsgSampleLoaded
      (load_sample_data (left audioData) (audioSampleRate audioData) this)
  else postMessage (MsgError err_load_failed) this.

(** [setPlaybackState(isPlaying, resetPosition = false)].  The two
    assignments come before the call that throws when [rustProcessor] is
    null; the [catch] block only logs. *)
Definition setPlaybackState (playing resetPosition : bool)
    (this : SamplerProcessor) : SamplerProcessor :=
  if negb (initialized this) then this
  else
    let this := set_isPlaying playing this in
    let this := if resetPosition then set_playbackPosition 0 this else this in
    if rustProcessor this then set_playback_state playing this else this.

(** [seek(time)]: the same two assignments as [rustProcessor.seek], written
    out again in the method. *)
Definition seek (time : Q) (this : SamplerProcessor) : SamplerProcessor :=
  if negb (initialized this) then this else rust_seek time this.

(** [setLoopPoints], [triggerEnvelope], [releaseEnvelope],
    [setEnvelopeParameters] and [setEffectParameter] only log
    ("Implementation will be added when the Rust processor supports ..."). *)
Definition setLoopPoints (startTime endTime : Q) (enabled : bool)
    (this : SamplerProcessor) : SamplerProcessor := this.
Definition triggerEnvelope (this : SamplerProcessor) : SamplerProcessor := this.
Definition releaseEnvelope (this : SamplerProcessor) : SamplerProcessor := this.
Definition setEnvelopeParameters (attack decay hold sustain release : Q)
    (this : SamplerProcessor) : SamplerProcessor := this.
Definition setEffectParameter (effectType paramName : nat) (value : Q)
    (this : SamplerProcessor) : SamplerProcessor := this.

(** The messages [handleMessage] receives, by their [type]; [CmdUnknown] is
    any other type, which is only logged. *)
Inductive Command : Type :=
| CmdInit
| CmdLoadSample (audioData : AudioData)
| CmdSetPlaybackState (playing resetPosition : bool)
| CmdSeek (time : Q)
| CmdSetLoopPoints (startTime endTime : Q) (enabled : bool)
| CmdTriggerEnvelope
| CmdReleaseEnvelope
| CmdSetEnvelopeParameters (attack decay hold sustain release : Q)
| CmdSetEffectParameter (effectType paramName : nat) (value : Q)
| CmdUnknown.

(** [handleMessage(event)]. *)
Definition handleMessage (c : Command) (this : SamplerProcessor)
    : SamplerProcessor :=
  match c with
  | CmdInit => initializeWasm this
  | CmdLoadSample a => loadSample a this
  | CmdSetPlaybackState p r => setPlaybackState p r this
  | CmdSeek t => seek t this
  | CmdSetLoopPoints s e en => setLoopPoints s e en this
  | CmdTriggerEnvelope => triggerEnvelope this
  | CmdReleaseEnvelope => releaseEnvelope this
  | CmdSetEnvelopeParameters a d h s r => setEnvelopeParameters a d h s r this
  | CmdSetEffectParameter e n v => setEffectParameter e n v this
  | CmdUnknown => this
  end.

(** The worklet after a list of messages, oldest first. *)
Definition handleMessages (cs : list Command) (this : SamplerProcessor)
    : SamplerProcessor :=
  fold_left (fun w c => handleMessage c w) cs this.

(** [initialized] and [rustProcessor] are set together. *)
Definition wired (this : SamplerProcessor) : Prop :=
  initialized this = rustProcessor this.

(** What the claim "the load is rejected" asks of [loadSample]: the sample,
    its rate and the position are as before, an error message is among the
    messages the call posted, and [sampleLoaded] is not. *)
Definition load_rejected (audioData : AudioData) (this : SamplerProcessor) : Prop :=
  let this' := loadSample audioData this in
  let posted := skipn (length (port this)) (port this') in
  sampleBuffer this' = sampleBuffer this
  /\ sampleRate this' = sampleRate this
  /\ playbackPosition this' = playbackPosition this
  /\ (exists m, In (MsgError m) posted)
  /\ ~ In MsgSampleLoaded posted.

(** [process(inputs, outputs, parameters)] of this worklet. *)
Definition process (deviceRate : Q) (this : SamplerProcessor)
    (outputs : Outputs) (random : Q) : Outcome SamplerProcessor :=
  Boundary.process initialized rustProcessor (rustProcessor_process deviceRate)
                   postMessage this outputs random.

(** The loop's test "we've reached the end of the sample". *)
Definition at_end (buf : Channel) (this : SamplerProcessor) : bool :=
  (Z.of_nat (length buf) <=? Math_floor (playbackPosition this))%Z.

(** The object when the loop is about to write [output[i]]. *)
Definition state_before (deviceRate : Q) (buf : Channel)
    (this : SamplerProcessor) (output : Channel) (i : nat) : SamplerProcessor :=
  fst (render_block deviceRate buf this (firstn i output)).

(** What the claim asks of one block played from [this] into [output]: if
    the position reaches the end of the buffer at some frame [i], the
    transport is stopped and every frame from [i] on is silent; and before
    and after every frame the position is in [0, sampleLength). *)
Definition stops_and_silences (deviceRate : Q) (buf : Channel)
    (this : SamplerProcessor) (output : Channel) : Prop :=
  let r := render_block deviceRate buf this output in
  (forall i, (i < length output)%nat ->
     at_end buf (state_before deviceRate buf this output i) = true ->
     isPlaying (fst r) = false
     /\ forall j, (i <= j < length output)%nat -> nth j (snd r) NaN = silence)
  /\ (forall i, (i <= length output)%nat ->
        let p := playbackPosition (state_before deviceRate buf this output i) in
        0 <= p /\ p < inject_Z (Z.of_nat (length buf))).

(** What happens to a worklet: a message arrives, or a block is rendered. *)
Inductive Event : Type :=
| Msg (c : Command)
| Render (outputs : Outputs) (random : Q).

Definition react (deviceRate : Q) (this : SamplerProcessor) (e : Event)
    : SamplerProcessor :=
  match e with
  | Msg c => handleMessage c this
  | Render outputs random => after (process deviceRate this outputs random)
  end.

Definition reactions (deviceRate : Q) (es : list Event) (this : SamplerProcessor)
    : SamplerProcessor :=
  fold_left (react deviceRate) es this.

(** The length of the loaded sample, 0 when there is none. *)
Definition sampleLength (this : SamplerProcessor) : Q :=
  match sampleBuffer this with
  | Some buf => inject_Z (Z.of_nat (length buf))
  | None => 0
  end.

(** The range the position stays in while the loaded rate is not negative:
    it is not negative, and it is below the sample length plus one step
    unless it is 0. *)
Definition position_in_range (deviceRate : Q) (this : SamplerProcessor) : Prop :=
  0 <= sampleRate this ->
  0 <= playbackPosition this
  /\ (0 < playbackPosition this ->
      playbackPosition this < sampleLength this + sampleRate this / deviceRate).

(** A worklet that holds a two-sample buffer at 44100 Hz. *)
Definition two_sample_holder : SamplerProcessor :=
  handleMessages
    [CmdInit; CmdLoadSample (mkAudioData [Amp 1; Amp (1 # 2)] None 44100)]
    constructor.

(** The same worklet once playback is started, and a block of 128 frames. *)
Definition two_sample_player : SamplerProcessor :=
  handleMessages
    [CmdInit;
     CmdLoadSample (mkAudioData [Amp 1; Amp (1 # 2)] None 44100);
     CmdSetPlaybackState true false]
    constructor.

Definition block128 : Channel := repeat silence 128.

End JsWorklet.

(** ** A worklet at half the device rate *)

Module PlaybackExamples.

Import JsWorklet.

(** A worklet that plays a two-sample buffer recorded at 22050 Hz: on a
    device at 44100 Hz the step is 1/2. *)
Definition half_rate_player : SamplerProcessor :=
  handleMessages
    [CmdInit;
     CmdLoadSample (mkAudioData [Amp 1; Amp (1 # 2)] None 22050);
     CmdSetPlaybackState true false]
    constructor.

End PlaybackExamples.

(** ** Envelope commands on the worklet

    [triggerEnvelope], [releaseEnvelope] and [setEnvelopeParameters] are
    methods of both worklet files with the same text: a guard on
    [this.initialized], then a [console.log] ("Implementation will be
    added when the Rust processor supports envelopes"). *)

Module EnvelopeCommands.

Import JsWorklet.

(** The message is one of the three envelope commands. *)
Definition is_envelope_command (c : Command) : bool :=
  match c with
  | CmdTriggerEnvelope | CmdReleaseEnvelope
  | CmdSetEnvelopeParameters _ _ _ _ _ => true
  | _ => false
  end.

Definition is_envelope_event (e : Event) : bool :=
  match e with
  | Msg c => is_envelope_command c
  | Render _ _ => false
  end.

(** The arrays that the render callbacks of a run of events leave, oldest
    first. *)
Fixpoint rendered (deviceRate : Q) (es : list Event) (this : SamplerProcessor)
    : list Outputs :=
  match es with
  | [] => []
  | Msg c :: rest => rendered deviceRate rest (handleMessage c this)
  | Render outputs random :: rest =>
      let r := process deviceRate this outputs random in
      written r :: rendered deviceRate rest (after r)
  end.

(** The frames of one mono block of [n] frames rendered by [this], with a
    draw of [Math.random()] that posts no level report. *)
Definition rendered_frames (deviceRate : Q) (n : nat) (this : SamplerProcessor)
    : Channel :=
  match written (process deviceRate this [[repeat silence n]] 1) with
  | (output :: _) :: _ => output
  | _ => []
  end.

(** What the claim asks of a release command, read on the rendered frames:
    the level of the envelope is the factor between the sample and the
    frame, so once [releaseTime] ([releaseFrames] frames) has passed since
    the command the level is 0 and the [n] frames rendered next are
    silent. *)
Definition release_ramps_to_zero (deviceRate : Q) (releaseFrames n : nat)
    (this : SamplerProcessor) : Prop :=
  let released := handleMessage CmdReleaseEnvelope this in
  let later := after (process deviceRate released [[repeat silence releaseFrames]] 1) in
  Forall (fun v => v = silence) (rendered_frames deviceRate n later).

(** A worklet on a device at 44100 Hz that plays a sample of eight frames
    at full scale, with an attack time of four frames and a release time
    of two frames, two frames after it was triggered: half way through the
    attack. *)
Definition full_scale_player : SamplerProcessor :=
  reactions 44100
    [Msg CmdInit;
     Msg (CmdLoadSample (mkAudioData (repeat (Amp 1) 8) None 44100));
     Msg (CmdSetEnvelopeParameters (4 # 44100) 0 0 1 (2 # 44100));
     Msg (CmdSetPlaybackState true false);
     Msg CmdTriggerEnvelope;
     Render [[repeat silence 2]] 1]
    constructor.

End EnvelopeCommands.

(** ** The worklet of sampler-worklet.js

    Here [rustProcessor] is what the WebAssembly module's
    [create_processor()] returns.  The Rust crate is not part of the
    JavaScript front end, so the processor's state [R] and its [process]
    method are parameters. *)

Module WasmWorklet.

Section Wasm.

Variable R : Type.
(** [rustProcessor.process(inputs, outputs, parameters)]: the processor and
    the arrays as the call leaves them, and its completion. *)
Variable wasm_process : R -> Outputs -> R * Outputs * Completion bool.

Record SamplerProcessor : Type := mkSP {
  initialized : bool;
  rustProcessor : option R;
  port : list Message
}.

Definition postMessage (m : Message) (this : SamplerProcessor) :=
  mkSP (initialized this) (rustProcessor this) (port this ++ [m]).

Definition has_rustProcessor (this : SamplerProcessor) : bool :=
  match rustProcessor this with Some _ => true | None => false end.

(** The inner call, on the worklet object.  It is only reached when
    [rustProcessor] is non-null. *)
Definition rust_process (this : SamplerProcessor) (outputs : Outputs)
    : Outcome SamplerProcessor :=
  match rustProcessor this with
  | Some r =>
      let '(r', outputs', c) := wasm_process r outputs in
      mkOutcome (mkSP (initialized this) (Some r') (port this)) outputs' c
  | None => mkOutcome this outputs Throw
  end.

(** [process(inputs, outputs, parameters)] of this worklet. *)
Definition process (this : SamplerProcessor) (outputs : Outputs) (random : Q)
    : Outcome SamplerProcessor :=
  Boundary.process initialized has_rustProcessor rust_process postMessage
                   this outputs random.

(** [triggerEnvelope()] and [releaseEnvelope()] of this file: the guard on
    [this.initialized], then a log; [rustProcessor] is not called. *)
Definition triggerEnvelope (this : SamplerProcessor) : SamplerProcessor := this.
Definition releaseEnvelope (this : SamplerProcessor) : SamplerProcessor := this.

End Wasm.

Arguments mkSP {R} _ _ _.
Arguments initialized {R} _.
Arguments rustProcessor {R} _.
Arguments port {R} _.
Arguments triggerEnvelope {R} _.
Arguments releaseEnvelope {R} _.

(** A WebAssembly processor without state whose [process] stores 1 in every
    sample and then throws. *)
Definition faulty_process (r : unit) (outputs : Outputs)
    : unit * Outputs * Completion bool :=
  (r, map (map (map (fun _ => Amp 1))) outputs, Throw).

(** A WebAssembly processor without state whose [process] leaves the
    samples as they are and returns [false]. *)
Definition refusing_process (r : unit) (outputs : Outputs)
    : unit * Outputs * Completion bool :=
  (r, outputs, Return false).

End WasmWorklet.

(** ** The frame buffer of decoder.js *)

Module Decoder.

(** The frame object built by [captureFrame].  [imageData] stands for the
    captured pixels. *)
Record Frame : Type := mkFrame {
  timestamp : Q;
  frameDuration : Q;
  width : Q;
  height : Q;
  imageData : nat
}.

(** The fields of [VideoDecoderManager] the buffer and [seek] use.
    [videoElementTime] is [videoElement.currentTime]; [closeLog] and
    [seekLog] are ghost fields listing, in order, the frames whose [close()]
    was called and the arguments of the calls of [seek]. *)
Record VideoDecoderManager : Type := mkVDM {
  frameBuffer : list Frame;
  maxBufferSize : nat;
  isDecoding : bool;
  currentTime : Q;
  duration : Q;
  videoElementTime : Q;
  closeLog : list Frame;
  seekLog : list Q
}.

(** The object after [constructor()]. *)
Definition constructor : VideoDecoderManager :=
  mkVDM [] 30 false 0 0 0 [] [].

(** The loop "Remove oldest frames if buffer is full":
    [while (frameBuffer.length > maxBufferSize) { shift(); close(); }]. *)
Fixpoint evict (maxSize : nat) (buffer : list Frame) (closed : list Frame)
    : list Frame * list Frame :=
  match buffer with
  | [] => ([], closed)
  | oldestFrame :: rest =>
      if (maxSize <? length buffer)%nat
      then evict maxSize rest (closed ++ [oldestFrame])
      else (buffer, closed)
  end.

(** [addFrameToBuffer(frame)]. *)
Definition addFrameToBuffer (frame : Frame) (this : VideoDecoderManager)
    : VideoDecoderManager :=
  let '(buffer, closed) :=
    evict (maxBufferSize this) (frameBuffer this ++ [frame]) (closeLog this) in
  mkVDM buffer (maxBufferSize this) (isDecoding this) (currentTime this)
        (duration this) (videoElementTime this) closed (seekLog this).

(** [clearFrameBuffer()]. *)
Definition clearFrameBuffer (this : VideoDecoderManager) : VideoDecoderManager :=
  mkVDM [] (maxBufferSize this) (isDecoding this) (currentTime this)
        (duration this) (videoElementTime this)
        (closeLog this ++ frameBuffer this) (seekLog this).

(** [diff < closestDiff], where [None] is the initial [Infinity]. *)
Definition closer (diff : Q) (closestDiff : option Q) : bool :=
  match closestDiff with
  | None => true
  | Some c => Qltb diff c
  end.

(** One iteration of the loop of [getFrameAtTime] on the pair
    [(closestFrame, closestDiff)]. *)
Definition closest_step (timeUs : Q) (acc : option Frame * option Q)
    (frame : Frame) : option Frame * option Q :=
  let diff := Qabs (timestamp frame - timeUs) in
  if closer diff (snd acc) then (Some frame, Some diff) else acc.

(** [getFrameAtTime(time)]; [null] is [None]. *)
Definition getFrameAtTime (time : Q) (this : VideoDecoderManager) : option Frame :=
  let timeUs := time * 1000000 in
  fst (fold_left (closest_step timeUs) (frameBuffer this) (None, None)).

(** [seek(time)]. *)
Definition seek (time : Q) (this : VideoDecoderManager) : VideoDecoderManager :=
  let clampedTime := Math_max 0 (Math_min time (duration this)) in
  let this :=
    mkVDM (frameBuffer this) (maxBufferSize this) (isDecoding this)
          (currentTime this) (duration this) clampedTime
          (closeLog this) (seekLog this ++ [time]) in
  clearFrameBuffer this.

(** [handleTimeUpdate()]. *)
Definition handleTimeUpdate (this : VideoDecoderManager) : VideoDecoderManager :=
  mkVDM (frameBuffer this) (maxBufferSize this) (isDecoding this)
        (videoElementTime this) (duration this) (videoElementTime this)
        (closeLog this) (seekLog this).

(** [resetState()], on the modelled fields. *)
Definition resetState (this : VideoDecoderManager) : VideoDecoderManager :=
  let this := clearFrameBuffer this in
  mkVDM (frameBuffer this) (maxBufferSize this) false 0 0
        (videoElementTime this) (closeLog this) (seekLog this).

(** The calls that touch the frame buffer, and a run of them. *)
Inductive Call : Type :=
| AddFrame (frame : Frame)
| Clear
| Seek (time : Q)
| TimeUpdate
| ResetState.

Definition call (this : VideoDecoderManager) (c : Call) : VideoDecoderManager :=
  match c with
  | AddFrame f => addFrameToBuffer f this
  | Clear => clearFrameBuffer this
  | Seek t => seek t this
  | TimeUpdate => handleTimeUpdate this
  | ResetState => resetState this
  end.

Definition run (calls : list Call) (this : VideoDecoderManager)
    : VideoDecoderManager :=
  fold_left call calls this.

(** What the loop of [getFrameAtTime] has established after the frames
    [seen]: nothing yet, or a frame of [seen], its distance to [timeUs], and
    that no frame of [seen] is nearer. *)
Definition nearest_so_far (timeUs : Q) (seen : list Frame)
    (acc : option Frame * option Q) : Prop :=
  match acc with
  | (None, None) => seen = []
  | (Some f, Some d) =>
      d = Qabs (timestamp f - timeUs)
      /\ In f seen
      /\ forall g, In g seen -> d <= Qabs (timestamp g - timeUs)
  | _ => False
  end.

(** Frame number [n] of a 30 frames per second capture, for the examples. *)
Definition numbered (n : nat) : Frame :=
  mkFrame (inject_Z (Z.of_nat n) * 1000000 / 30) (1000000 / 30) 640 480 n.

(** Two frames one second apart, for the examples. *)
Definition frame_at_0s : Frame := mkFrame 0 (1000000 / 30) 640 480 0.
Definition frame_at_1s : Frame := mkFrame 1000000 (1000000 / 30) 640 480 1.

End Decoder.

(** ** sync.js *)

Module Sync.

Import Decoder.

(** The module-level [config] object. *)
Record Config : Type := mkConfig {
  maxTimeDifference : Q;
  syncCheckInterval : Q;
  debug : bool
}.

Definition default_config : Config := mkConfig (1 # 10) 100 false.

(** [syncAudioVideo(videoDecoder, audioTime)].  [videoDecoder] is [None]
    when it is null.  [now] is what [performance.now()] returns and
    [lastSyncTime] the module variable; the result is the decoder after the
    call and the new [lastSyncTime]. *)
Definition syncAudioVideo (config : Config) (videoDecoder : option VideoDecoderManager)
    (audioTime : Q) (now lastSyncTime : Q)
    : option VideoDecoderManager * Q :=
  match videoDecoder with
  | None => (None, lastSyncTime)
  | Some vd =>
      let videoTime := currentTime vd in
      let timeDiff := Qabs (audioTime - videoTime) in
      let vd := if Qltb (maxTimeDifference config) timeDiff
                then seek audioTime vd else vd in
      (Some vd, now)
  end.

(** The object [calculateSyncMetrics] returns. *)
Record SyncMetrics : Type := mkMetrics {
  timeDifference : Q;
  inSync : bool;
  syncQuality : Q
}.

(** [calculateSyncMetrics(videoDecoder, audioTime)].  The quotient is the
    JavaScript one as long as [maxTimeDifference] is not 0. *)
Definition calculateSyncMetrics (config : Config)
    (videoDecoder : option VideoDecoderManager) (audioTime : Q) : SyncMetrics :=
  match videoDecoder with
  | None => mkMetrics 0 true 100
  | Some vd =>
      let videoTime := currentTime vd in
      let timeDiff := audioTime - videoTime in
      let inSync := Qle_bool (Qabs timeDiff) (maxTimeDifference config) in
      let syncQuality :=
        Math_max 0 (100 - (Qabs timeDiff / maxTimeDifference config) * 100) in
      mkMetrics timeDiff inSync syncQuality
  end.

(** The drift formulas in the words of the spec (section 4.5, step 3), for
    comparison with [calculateSyncMetrics]:
    [syncQuality = max(0, 100 - (drift / maxTimeDifference) * 100)] and
    [inSync = drift <= maxTimeDifference]. *)
Definition spec_syncQuality (drift maxTimeDifference : Q) : Q :=
  Qmax 0 (100 - (drift / maxTimeDifference) * 100).

Definition spec_inSync (drift maxTimeDifference : Q) : Prop :=
  drift <= maxTimeDifference.

(** A decoder of a 20 s video that is decoding and whose [currentTime] is
    [t], with an empty buffer. *)
Definition decoder_at (t : Q) : VideoDecoderManager :=
  mkVDM [] 30 true t 20 t [] [].

End Sync.

(** ** More of decoder.js and sync.js *)

Module DecoderMore.

Import Decoder.

(** The frames a list of calls has pushed, in order. *)
Definition added_frames (calls : list Call) : list Frame :=
  flat_map (fun c => match c with AddFrame f => [f] | _ => [] end) calls.

(** [captureFrame()], the closure of [captureFrames()], once: nothing when
    not decoding; otherwise the frame shown by the video element is stamped
    with [videoElement.currentTime] in microseconds and pushed.  [pixels],
    [videoWidth], [videoHeight] and [frameRate] are what the canvas and the
    metadata give; the [onFrameDecoded] callback, [handleVideoFrame], does
    nothing. *)
Definition captureFrame (pixels : nat) (videoWidth videoHeight frameRate : Q)
    (this : VideoDecoderManager) : VideoDecoderManager :=
  if negb (isDecoding this) then this
  else
    let frame :=
      mkFrame (videoElementTime this * 1000000) (1000000 / frameRate)
              videoWidth videoHeight pixels in
    addFrameToBuffer frame this.

End DecoderMore.

Module SyncMore.

Import Decoder Sync.

(** [renderFrameForTime(videoDecoder, renderer, audioTime)].  The renderer
    is the list of the frames passed to [renderer.renderFrame], oldest first
    ([None] when it is null); [lastRenderedFrameTime] is the module variable.
    The result is the returned boolean, the renderer and the variable. *)
Definition renderFrameForTime (videoDecoder : option VideoDecoderManager)
    (renderer : option (list Frame)) (audioTime : Q)
    (lastRenderedFrameTime : Q) : bool * option (list Frame) * Q :=
  match videoDecoder, renderer with
  | Some vd, Some shown =>
      match getFrameAtTime audioTime vd with
      | None => (false, renderer, lastRenderedFrameTime)
      | Some frame =>
          let frameTime := timestamp frame / 1000000 in
          let isNewFrame := negb (Qeq_bool frameTime lastRenderedFrameTime) in
          if isNewFrame
          then (true, Some (shown ++ [frame]), frameTime)
          else (false, renderer, lastRenderedFrameTime)
      end
  | _, _ => (false, renderer, lastRenderedFrameTime)
  end.

(** The module variable [syncIntervalId] together with the browser's
    timers: the intervals that are running, each with the identifier
    [setInterval] returned (a positive integer, never reused) and the decoder
    it was started for, and the next identifier. *)
Record Timers : Type := mkTimers {
  syncIntervalId : option nat;
  running : list (nat * nat);
  nextId : nat
}.

(** The state when the module is loaded. *)
Definition no_timers : Timers := mkTimers None [] 1.

(** [clearInterval(id)]. *)
Definition clearInterval (id : nat) (running : list (nat * nat)) : list (nat * nat) :=
  filter (fun t => negb (Nat.eqb (fst t) id)) running.

(** [stopContinuousSync()]. *)
Definition stopContinuousSync (t : Timers) : Timers :=
  match syncIntervalId t with
  | Some id => mkTimers None (clearInterval id (running t)) (nextId t)
  | None => t
  end.

(** [startContinuousSync(videoDecoder, getAudioTime)]; [decoder] names the
    decoder the interval's callback closes over. *)
Definition startContinuousSync (decoder : nat) (t : Timers) : Timers :=
  let t := match syncIntervalId t with
           | Some _ => stopContinuousSync t
           | None => t
           end in
  mkTimers (Some (nextId t)) ((nextId t, decoder) :: running t) (S (nextId t)).

(** Calls of the two functions. *)
Inductive TimerCall : Type :=
| Start (decoder : nat)
| Stop.

Definition timer_call (t : Timers) (c : TimerCall) : Timers :=
  match c with
  | Start d => startContinuousSync d t
  | Stop => stopContinuousSync t
  end.

(** The decoder of the last [Start] that no [Stop] follows. *)
Fixpoint last_started (calls : list TimerCall) (current : option nat) : option nat :=
  match calls with
  | [] => current
  | Start d :: rest => last_started rest (Some d)
  | Stop :: rest => last_started rest None
  end.

(** What holds between the module variable and the browser's timers: the
    only interval running is the one [syncIntervalId] names, and it belongs
    to the decoder [current] of the last start. *)
Definition one_timer (t : Timers) (current : option nat) : Prop :=
  match syncIntervalId t, current with
  | Some id, Some d => running t = [(id, d)]
  | None, None => running t = []
  | _, _ => False
  end.

End SyncMore.

(** ** JavaScript strings and integers

    Strings are [string]s (the code only builds and reads ASCII text).  A
    run of decimal digits is a [Decimal.uint], most significant digit
    first. *)

Module JsString.

Import Ascii String Decimal.
Local Open Scope string_scope.

(** The digit a character stands for, as the digit's constructor. *)
Definition digit_of (c : ascii) : option (uint -> uint) :=
  match c with
  | "0" => Some D0 | "1" => Some D1 | "2" => Some D2 | "3" => Some D3
  | "4" => Some D4 | "5" => Some D5 | "6" => Some D6 | "7" => Some D7
  | "8" => Some D8 | "9" => Some D9
  | _ => None
  end%char.

(** The longest run of digits a string starts with, and what follows. *)
Fixpoint take_digits (s : string) : uint * string :=
  match s with
  | EmptyString => (Nil, EmptyString)
  | String c r =>
      match digit_of c with
      | Some digit => let '(d, rest) := take_digits r in (digit d, rest)
      | None => (Nil, s)
      end
  end.

(** The white space [parseInt] skips, among the characters below 256:
    TAB, LF, VT, FF, CR, space and the no-break space. *)
Definition is_white_space (c : ascii) : bool :=
  match nat_of_ascii c with
  | 9 | 10 | 11 | 12 | 13 | 32 | 160 => true
  | _ => false
  end%nat.

Fixpoint skip_white_space (s : string) : string :=
  match s with
  | String c r => if is_white_space c then skip_white_space r else s
  | EmptyString => s
  end.

(** The largest integer up to which every integer is a JavaScript number,
    [Number.MAX_SAFE_INTEGER] = 2^53 - 1. *)
Definition MAX_SAFE_INTEGER : Z := 9007199254740991.

(** [parseInt(s, 10)]: white space, an optional sign, then the longest run
    of digits; [None] is [NaN] (no digit).  The result is the integer the
    digits write, which is what JavaScript returns up to
    [MAX_SAFE_INTEGER]. *)
Definition parseInt (s : string) : option Z :=
  let s := skip_white_space s in
  let '(negative, s) :=
    match s with
    | String "-" r => (true, r)
    | String "+" r => (false, r)
    | _ => (false, s)
    end in
  match fst (take_digits s) with
  | Nil => None
  | d => Some (if negative then (- Z.of_uint d)%Z else Z.of_uint d)
  end.

(** [n.toString()] and [`${n}`] for an integer [n]: its decimal digits,
    which is what JavaScript prints below 10^21 in absolute value (from
    there on it prints an exponent). *)
Definition toString (n : Z) : string :=
  DecimalString.NilZero.string_of_int (Z.to_int n).

(** [s.padStart(2, '0')]. *)
Definition padStart2 (s : string) : string :=
  match String.length s with
  | 0%nat => "00"
  | 1%nat => "0" ++ s
  | _ => s
  end.

(** [s.split(sep)] for a one-character separator. *)
Fixpoint split (sep : ascii) (s : string) : list string :=
  match s with
  | EmptyString => [EmptyString]
  | String c r =>
      if Ascii.eqb c sep then EmptyString :: split sep r
      else match split sep r with
           | h :: t => String c h :: t
           | [] => [String c EmptyString]
           end
  end.

(** [names.indexOf(s)] on an array of strings, -1 when absent. *)
Fixpoint indexOf (names : list string) (s : string) : Z :=
  match names with
  | [] => (-1)%Z
  | n :: rest =>
      if String.eqb n s then 0%Z
      else match indexOf rest s with
           | Z.neg _ => (-1)%Z
           | i => (i + 1)%Z
           end
  end.

(** [s.endsWith(c)] for a one-character [c]. *)
Fixpoint endsWith (s : string) (c : ascii) : bool :=
  match s with
  | EmptyString => false
  | String a EmptyString => Ascii.eqb a c
  | String _ r => endsWith r c
  end.

(** [s.replace(c, '')] for a one-character [c]: the first occurrence goes. *)
Fixpoint removeFirst (s : string) (c : ascii) : string :=
  match s with
  | EmptyString => EmptyString
  | String a r => if Ascii.eqb a c then r else String a (removeFirst r c)
  end.

(** No character of the string is [c]. *)
Fixpoint lacks (c : ascii) (s : string) : Prop :=
  match s with
  | EmptyString => True
  | String a r => a <> c /\ lacks c r
  end.

(** Every character of the string is a digit. *)
Fixpoint all_digits (s : string) : Prop :=
  match s with
  | EmptyString => True
  | String a r => digit_of a <> None /\ all_digits r
  end.

End JsString.

(** ** The MIDI module (audio/midi.js) *)

Module Midi.

Import Ascii String JsString.
Local Open Scope string_scope.

Definition MIDI_NOTE_ON : Z := 144.         (* 0x90 *)
Definition MIDI_NOTE_OFF : Z := 128.        (* 0x80 *)
Definition MIDI_CONTROL_CHANGE : Z := 176.  (* 0xB0 *)

(** A call of one of the three callbacks, with its three arguments, and a
    custom event dispatched on [window] with its [detail]. *)
Inductive CallbackCall : Type :=
| Called (callback : nat) (first : Z) (value : Q) (channel : Z).

Inductive WindowEvent : Type :=
| MidiNoteOn (note : Z) (velocity : Q) (channel : Z)
| MidiNoteOff (note : Z) (velocity : Q) (channel : Z)
| MidiCC (controller : Z) (value : Q) (channel : Z).

(** The module variables that hold the callbacks ([None] is null; a
    callback is named by a number), the calls made so far and the events
    dispatched so far, oldest first. *)
Record MidiState : Type := mkMidi {
  noteOnCallback : option nat;
  noteOffCallback : option nat;
  controlChangeCallback : option nat;
  called : list CallbackCall;
  dispatched : list WindowEvent
}.

Definition call_back (callback : option nat) (first : Z) (value : Q) (channel : Z)
    (st : MidiState) : MidiState :=
  match callback with
  | Some f =>
      mkMidi (noteOnCallback st) (noteOffCallback st) (controlChangeCallback st)
             (called st ++ [Called f first value channel]) (dispatched st)
  | None => st
  end.

Definition dispatch (e : WindowEvent) (st : MidiState) : MidiState :=
  mkMidi (noteOnCallback st) (noteOffCallback st) (controlChangeCallback st)
         (called st) (dispatched st ++ [e]).

(** [handleNoteOff(channel, note, velocity)]. *)
Definition handleNoteOff (channel note velocity : Z) (st : MidiState) : MidiState :=
  let normalizedVelocity := inject_Z velocity / 127 in
  let st := call_back (noteOffCallback st) note normalizedVelocity channel st in
  dispatch (MidiNoteOff note normalizedVelocity channel) st.

(** [handleNoteOn(channel, note, velocity)]. *)
Definition handleNoteOn (channel note velocity : Z) (st : MidiState) : MidiState :=
  if (velocity =? 0)%Z then handleNoteOff channel note 0 st
  else
    let normalizedVelocity := inject_Z velocity / 127 in
    let st := call_back (noteOnCallback st) note normalizedVelocity channel st in
    dispatch (MidiNoteOn note normalizedVelocity channel) st.

(** [handleControlChange(channel, controller, value)]. *)
Definition handleControlChange (channel controller value : Z) (st : MidiState)
    : MidiState :=
  let normalizedValue := inject_Z value / 127 in
  let st := call_back (controlChangeCallback st) controller normalizedValue channel st in
  dispatch (MidiCC controller normalizedValue channel) st.

(** [handleMIDIMessage(event)], [event.data] being the three bytes. *)
Definition handleMIDIMessage (status data1 data2 : Z) (st : MidiState) : MidiState :=
  let messageType := Z.land status 240 in
  let channel := Z.land status 15 in
  if (messageType =? MIDI_NOTE_ON)%Z then handleNoteOn channel data1 data2 st
  else if (messageType =? MIDI_NOTE_OFF)%Z then handleNoteOff channel data1 data2 st
  else if (messageType =? MIDI_CONTROL_CHANGE)%Z
       then handleControlChange channel data1 data2 st
  else st.

(** The channel and the normalized value an event carries. *)
Definition event_channel (e : WindowEvent) : Z :=
  match e with MidiNoteOn _ _ c | MidiNoteOff _ _ c | MidiCC _ _ c => c end.

Definition event_value (e : WindowEvent) : Q :=
  match e with MidiNoteOn _ v _ | MidiNoteOff _ v _ | MidiCC _ v _ => v end.

(** The note or controller number an event carries. *)
Definition event_number (e : WindowEvent) : Z :=
  match e with MidiNoteOn n _ _ | MidiNoteOff n _ _ | MidiCC n _ _ => n end.

(** The message types that [handleMIDIMessage] handles, by the high four
    bits of the status byte: note off, note on, control change. *)
Definition handled (status : Z) : bool :=
  ((status / 16 =? 8) || (status / 16 =? 9) || (status / 16 =? 11))%Z.

(** The array [noteNames] of [midiNoteToName] and [noteNameToMidi]. *)
Definition noteNames : list string :=
  ["C"; "C#"; "D"; "D#"; "E"; "F"; "F#"; "G"; "G#"; "A"; "A#"; "B"].

(** [midiNoteToName(noteNumber)] for an integer.  [%] is the remainder with
    the sign of the dividend, and an index outside the array reads
    [undefined]. *)
Definition midiNoteToName (noteNumber : Z) : string :=
  let octave := (noteNumber / 12 - 1)%Z in
  let index := Z.rem noteNumber 12 in
  let noteName :=
    if (index <? 0)%Z then "undefined"
    else nth (Z.to_nat index) noteNames "undefined" in
  noteName ++ toString octave.

(** The regular expression [/^([A-G][#b]?)(-?\d+)$/]: the two groups of a
    match. *)
Definition match_note_name (s : string) : option (string * string) :=
  match s with
  | String c r =>
      if ((65 <=? nat_of_ascii c) && (nat_of_ascii c <=? 71))%nat then
        let '(note, octave) :=
          match r with
          | String m r' =>
              if (Ascii.eqb m "#" || Ascii.eqb m "b")%bool
              then (String c (String m EmptyString), r')
              else (String c EmptyString, r)
          | EmptyString => (String c EmptyString, r)
          end in
        let digits := match octave with String "-" r' => r' | _ => octave end in
        match take_digits digits with
        | (Decimal.Nil, _) => None
        | (_, EmptyString) => Some (note, octave)
        | _ => None
        end
      else None
  | EmptyString => None
  end.

(** [noteNameToMidi(noteName)].  The octave group is a run of digits with
    an optional minus sign, which [parseInt] reads in base 10. *)
Definition noteNameToMidi (noteName : string) : Z :=
  match match_note_name noteName with
  | None => (-1)%Z
  | Some (note, octave) =>
      let noteIndex := indexOf noteNames note in
      let noteIndex :=
        if (noteIndex =? -1)%Z then
          if endsWith note "b" then
            let flatNote := removeFirst note "b" in
            let i := indexOf noteNames flatNote in
            if (i =? -1)%Z then None
            else Some (Z.rem (i - 1 + 12) 12)
          else None
        else Some noteIndex in
      match noteIndex, parseInt octave with
      | Some i, Some o => ((o + 1) * 12 + i)%Z
      | _, _ => (-1)%Z
      end
  end.

End Midi.

(** ** Time display (ui/transport.js and main.js) *)

Module TimeDisplay.

Import Ascii String JsString.
Local Open Scope string_scope.

(** The integer part of a number, towards 0. *)
Definition truncate (x : Q) : Z :=
  if Qle_bool 0 x then Qfloor x else Qceiling x.

(** [x % 60] on numbers: the remainder has the sign of [x]. *)
Definition mod60 (x : Q) : Q := x - 60 * inject_Z (truncate (x / 60)).

(** [formatTime(seconds)], the same function in transport.js and main.js. *)
Definition formatTime (seconds : Q) : string :=
  let minutes := Math_floor (seconds / 60) in
  let secs := Math_floor (mod60 seconds) in
  padStart2 (toString minutes) ++ ":" ++ padStart2 (toString secs).

(** [parseDurationString(durationString)]; [None] is [NaN]. *)
Definition parseDurationString (durationString : string) : option Z :=
  match split ":" durationString with
  | [m; s] =>
      match parseInt m, parseInt s with
      | Some minutes, Some seconds => Some (minutes * 60 + seconds)%Z
      | _, _ => None
      end
  | _ => Some 0%Z
  end.

End TimeDisplay.

(** ** The waveform view (ui/waveform.js) *)

Module Waveform.

(** The module variables [loopStart], [loopEnd] and [loopEnabled]. *)
Record LoopRegion : Type := mkLoop {
  loopStart : Q;
  loopEnd : Q;
  loopEnabled : bool
}.

(** Their initial values. *)
Definition initial_loop : LoopRegion := mkLoop 0 1 false.

(** [setLoopRegion(start, end, enabled)]; the redraw that follows reads
    the three variables and does not assign them. *)
Definition setLoopRegion (start end_ : Q) (enabled : bool) : LoopRegion :=
  let loopStart := Math_max 0 (Math_min start 1) in
  let loopEnd := Math_max loopStart (Math_min end_ 1) in
  mkLoop loopStart loopEnd enabled.

(** The rectangle [drawLoopRegion] fills on a canvas [width] wide: its
    left edge and its width. *)
Definition drawLoopRegion (width : Q) (l : LoopRegion) : Q * Q :=
  let startX := loopStart l * width in
  let endX := loopEnd l * width in
  (startX, endX - startX).

(** The inner loop of [calculatePeaks], from index [j] for at most [count]
    steps; it ends at the end of the data.  [Math.abs(NaN) > max] is
    false. *)
Fixpoint peak_from (channelData : Channel) (j count : nat) (max : Q) : Q :=
  match count with
  | O => max
  | S count' =>
      match nth_error channelData j with
      | Some (Amp x) =>
          let value := Qabs x in
          peak_from channelData (S j) count' (if Qltb max value then value else max)
      | Some NaN => peak_from channelData (S j) count' max
      | None => max
      end
  end.

(** [calculatePeaks(channelData, width, skip)]. *)
Definition calculatePeaks (channelData : Channel) (width skip : nat) : list Q :=
  map (fun i => peak_from channelData (i * skip) skip 0) (seq 0 width).


(** The magnitude of a sample, 0 for [NaN], which the loop passes over. *)
Definition magnitude (v : sample) : Q :=
  match v with Amp x => Qabs x | NaN => 0 end.

End Waveform.

(** ** The canvas size (video/renderer.js) *)

Module Renderer.

(** [resizeRendererWithAspectRatio(canvas, videoWidth, videoHeight)]:
    the [width] and [height] written to [canvas.style], in pixels, or
    [None] when the function returns at once.  [containerWidth] and
    [containerHeight] are [clientWidth] and [clientHeight] of the parent.
    With [containerHeight] 0 the quotient [containerAspect] is [Infinity]
    (greater than any number) for a positive [containerWidth] and [NaN] or
    [-Infinity] (greater than none) otherwise. *)
Definition resizeRendererWithAspectRatio (canvas : bool)
    (videoWidth videoHeight containerWidth containerHeight : Q) : option (Q * Q) :=
  if (negb canvas || Qeq_bool videoWidth 0 || Qeq_bool videoHeight 0)%bool then None
  else
    let videoAspect := videoWidth / videoHeight in
    let containerWider :=
      if Qeq_bool containerHeight 0 then Qltb 0 containerWidth
      else Qltb videoAspect (containerWidth / containerHeight) in
    if containerWider then
      let height := containerHeight in
      let width := height * videoAspect in
      Some (width, height)
    else
      let width := containerWidth in
      let height := width / videoAspect in
      Some (width, height).

End Renderer.

(** ** Keyboard input (utils/keyboard.js) *)

Module Keyboard.

Import String.

(** The module variables: whether [keyboardCallback] is set, the map
    [keyStates] ([None] where the map has no entry), and, as a log, the
    calls of the callback so far, oldest first, each with its two
    arguments.  [event.preventDefault()] acts on the event, not on these
    variables, and is left out. *)
Record KeyboardState : Type := mkKeyboard {
  keyboardCallback : bool;
  keyStates : string -> option bool;
  callbackCalls : list (string * bool)
}.

(** The variables when the module is loaded. *)
Definition loaded : KeyboardState := mkKeyboard false (fun _ => None) [].

(** [setupKeyboardHandlers(callback)]; the listeners it registers are
    [handleKeyDown] and [handleKeyUp] below. *)
Definition setupKeyboardHandlers (st : KeyboardState) : KeyboardState :=
  mkKeyboard true (keyStates st) (callbackCalls st).

(** [keyStates.set(key, down)]. *)
Definition set_key (key : string) (down : bool) (st : KeyboardState) : KeyboardState :=
  mkKeyboard (keyboardCallback st)
             (fun k => if String.eqb k key then Some down else keyStates st k)
             (callbackCalls st).

(** [keyboardCallback(key, down)], if the callback is set. *)
Definition call_callback (key : string) (down : bool) (st : KeyboardState)
    : KeyboardState :=
  if keyboardCallback st
  then mkKeyboard true (keyStates st) (callbackCalls st ++ [(key, down)])
  else st.

(** [isKeyPressed(key)]. *)
Definition isKeyPressed (key : string) (st : KeyboardState) : bool :=
  match keyStates st key with Some true => true | _ => false end.

(** [handleKeyDown(event)]; [targetIsInput] is [isInputElement(event.target)]. *)
Definition handleKeyDown (key : string) (targetIsInput : bool) (st : KeyboardState)
    : KeyboardState :=
  if targetIsInput then st
  else if isKeyPressed key st then st
  else call_callback key true (set_key key true st).

(** [handleKeyUp(event)]. *)
Definition handleKeyUp (key : string) (st : KeyboardState) : KeyboardState :=
  call_callback key false (set_key key false st).

Inductive KeyEvent : Type :=
| KeyDown (key : string) (targetIsInput : bool)
| KeyUp (key : string).

Definition key_event (st : KeyboardState) (e : KeyEvent) : KeyboardState :=
  match e with
  | KeyDown key targetIsInput => handleKeyDown key targetIsInput st
  | KeyUp key => handleKeyUp key st
  end.

Definition key_events (es : list KeyEvent) (st : KeyboardState) : KeyboardState :=
  fold_left key_event es st.

(** Whether the callback was last told that [key] is down. *)
Fixpoint told_down (key : string) (calls : list (string * bool)) : bool :=
  match calls with
  | [] => false
  | (k, down) :: rest =>
      if existsb (fun c => String.eqb (fst c) key) rest then told_down key rest
      else if String.eqb k key then down else false
  end.

(** The callback is never told that a key went down while, by what it was
    told before, the key is down already. *)
Definition no_repeated_down (calls : list (string * bool)) : Prop :=
  forall before key after,
    calls = before ++ (key, true) :: after -> told_down key before = false.

(** What the handlers keep true once the callback is set. *)
Definition agrees (st : KeyboardState) : Prop :=
  keyboardCallback st = true
  /\ (forall key, isKeyPressed key st = told_down key (callbackCalls st))
  /\ no_repeated_down (callbackCalls st).

End Keyboard.

(** ** The level meter (ui/meters.js) *)

Module Meters.

(** The numbers of [config]. *)
Definition updateInterval : Q := 50.
Definition peakHoldTime : Q := 1500.
Definition falloffRate : Q := 5 # 100.
Definition dbMin : Q := -60.
Definition dbMax : Q := 0.

Inductive Color : Type := Green | Yellow | Red.

(** [config.meterColors]. *)
Definition meterColors : list (Q * Color) :=
  [(-60, Green); (-12, Yellow); (-3, Red)].

(** The module variables.  [peakHoldTimer] is the identifier of the last
    timeout set; [timeouts] are the identifiers of the timeouts that have
    been set and have neither fired nor been cleared. *)
Record MeterState : Type := mkMeters {
  currentLevel : Q;
  peakLevel : Q;
  peakHoldTimer : option nat;
  lastUpdateTime : Q;
  timeouts : list nat;
  nextTimeout : nat
}.

(** The variables when the module is loaded. *)
Definition loaded : MeterState := mkMeters 0 0 None 0 [] 1.

Definition clearTimeout (id : nat) (st : MeterState) : MeterState :=
  mkMeters (currentLevel st) (peakLevel st) (peakHoldTimer st) (lastUpdateTime st)
           (filter (fun t => negb (Nat.eqb t id)) (timeouts st)) (nextTimeout st).

(** [resetMeters()]. *)
Definition resetMeters (st : MeterState) : MeterState :=
  let st := mkMeters dbMin dbMin (peakHoldTimer st) (lastUpdateTime st)
                     (timeouts st) (nextTimeout st) in
  match peakHoldTimer st with
  | Some id =>
      let st := clearTimeout id st in
      mkMeters (currentLevel st) (peakLevel st) None (lastUpdateTime st)
               (timeouts st) (nextTimeout st)
  | None => st
  end.

(** [updateMeterLevel(dbLevel)]; [now] is [performance.now()]. *)
Definition updateMeterLevel (dbLevel now : Q) (st : MeterState) : MeterState :=
  let clampedLevel := Math_max dbMin (Math_min dbMax dbLevel) in
  let current := if Qltb (currentLevel st) clampedLevel then clampedLevel
                 else currentLevel st in
  if Qltb (peakLevel st) clampedLevel then
    let pending := match peakHoldTimer st with
                   | Some id => filter (fun t => negb (Nat.eqb t id)) (timeouts st)
                   | None => timeouts st
                   end in
    mkMeters current clampedLevel (Some (nextTimeout st)) now
             (pending ++ [nextTimeout st]) (S (nextTimeout st))
  else
    mkMeters current (peakLevel st) (peakHoldTimer st) now
             (timeouts st) (nextTimeout st).

(** The callback of the peak hold timeout [id], when it fires. *)
Definition peak_hold_expires (id : nat) (st : MeterState) : MeterState :=
  if existsb (Nat.eqb id) (timeouts st) then
    let st := clearTimeout id st in
    mkMeters (currentLevel st) (currentLevel st) (peakHoldTimer st)
             (lastUpdateTime st) (timeouts st) (nextTimeout st)
  else st.

(** One run of the animation callback [updateMeters] of
    [startAnimationLoop], up to [renderMeters], which only writes to the
    page. *)
Definition animation_frame (now : Q) (st : MeterState) : MeterState :=
  let elapsed := now - lastUpdateTime st in
  if Qltb updateInterval elapsed then
    let current := currentLevel st - falloffRate * elapsed / 16 in
    mkMeters (Math_max dbMin current) (peakLevel st) (peakHoldTimer st) now
             (timeouts st) (nextTimeout st)
  else st.

(** [dbToPercent(db)]. *)
Definition dbToPercent (db : Q) : Q :=
  let range := dbMax - dbMin in
  let normalized := (db - dbMin) / range in
  normalized * 100.

(** [getMeterColor(db)]: the loop over [config.meterColors]. *)
Definition getMeterColor (db : Q) : Color :=
  fold_left (fun color entry => if Qle_bool (fst entry) db then snd entry else color)
            meterColors Green.

Inductive MeterEvent : Type :=
| Reset
| Levels (dbLevel now : Q)
| Frame (now : Q)
| Timeout (id : nat).

Definition meter_event (st : MeterState) (e : MeterEvent) : MeterState :=
  match e with
  | Reset => resetMeters st
  | Levels dbLevel now => updateMeterLevel dbLevel now st
  | Frame now => animation_frame now st
  | Timeout id => peak_hold_expires id st
  end.

Definition meter_events (es : list MeterEvent) (st : MeterState) : MeterState :=
  fold_left meter_event es st.

(** The levels are in the range of the meter, the peak is not below the
    level, and at most one peak hold timeout is pending, the one whose
    identifier is in [peakHoldTimer]. *)
Definition well_formed (st : MeterState) : Prop :=
  dbMin <= currentLevel st /\ currentLevel st <= peakLevel st
  /\ peakLevel st <= dbMax
  /\ (timeouts st = []
      \/ exists id, timeouts st = [id] /\ peakHoldTimer st = Some id).

End Meters.

(** ** The transport of the page (main.js) *)

Module App.

Import String.

(** The global variables of main.js.  [audioBuffer] and [animationFrameId]
    are recorded by whether they are set.  [frameRequested] is the
    animation callback that has been requested and has neither run nor
    been cancelled, by the [lastTime] its closure holds; the identifier in
    [animationFrameId] is always that of the last request, so cancelling
    it cancels this callback.  [posted] are the messages posted to the
    sampler node, oldest first.  [lastSyncTime] is the variable of
    sync.js.  What the handlers draw on the page is left out. *)
Record AppState : Type := mkApp {
  audioBuffer : bool;
  videoDecoder : option Decoder.VideoDecoderManager;
  isPlaying : bool;
  currentTime : Q;
  totalDuration : Q;
  animationFrameId : bool;
  frameRequested : option Q;
  posted : list JsWorklet.Command;
  lastSyncTime : Q
}.

(** The variables when the script is loaded. *)
Definition loaded : AppState := mkApp false None false 0 0 false None [] 0.

Definition set_isPlaying (b : bool) (app : AppState) : AppState :=
  mkApp (audioBuffer app) (videoDecoder app) b (currentTime app) (totalDuration app)
        (animationFrameId app) (frameRequested app) (posted app) (lastSyncTime app).

Definition set_currentTime (t : Q) (app : AppState) : AppState :=
  mkApp (audioBuffer app) (videoDecoder app) (isPlaying app) t (totalDuration app)
        (animationFrameId app) (frameRequested app) (posted app) (lastSyncTime app).

(** [samplerNode.port.postMessage(message)]. *)
Definition postMessage (c : JsWorklet.Command) (app : AppState) : AppState :=
  mkApp (audioBuffer app) (videoDecoder app) (isPlaying app) (currentTime app)
        (totalDuration app) (animationFrameId app) (frameRequested app)
        (posted app ++ [c]) (lastSyncTime app).

(** [animationFrameId = requestAnimationFrame(updateUI)], the closure of
    [updateUI] holding [lastTime]. *)
Definition requestAnimationFrame (lastTime : Q) (app : AppState) : AppState :=
  mkApp (audioBuffer app) (videoDecoder app) (isPlaying app) (currentTime app)
        (totalDuration app) true (Some lastTime) (posted app) (lastSyncTime app).

(** [startAnimationLoop()]; [now] is [audioContext.currentTime]. *)
Definition startAnimationLoop (now : Q) (app : AppState) : AppState :=
  if animationFrameId app then app else requestAnimationFrame now app.

(** [stopAnimationLoop()]. *)
Definition stopAnimationLoop (app : AppState) : AppState :=
  if animationFrameId app then
    mkApp (audioBuffer app) (videoDecoder app) (isPlaying app) (currentTime app)
          (totalDuration app) false None (posted app) (lastSyncTime app)
  else app.

(** [handleAudioFileSelect(event)] once the file is decoded:
    [duration] is [audioBuffer.duration]. *)
Definition handleAudioFileSelect (audioData : JsWorklet.AudioData) (duration : Q)
    (app : AppState) : AppState :=
  postMessage (JsWorklet.CmdLoadSample audioData)
    (mkApp true (videoDecoder app) (isPlaying app) (currentTime app) duration
           (animationFrameId app) (frameRequested app) (posted app)
           (lastSyncTime app)).

(** [handlePlay()]; [audioContext.resume()] acts on the audio context, not
    on these variables. *)
Definition handlePlay (now : Q) (app : AppState) : AppState :=
  if negb (audioBuffer app) then app
  else if isPlaying app then app
  else
    let app := set_isPlaying true app in
    let app := if Qle_bool (totalDuration app) (currentTime app)
               then set_currentTime 0 app else app in
    let app := postMessage (JsWorklet.CmdSetPlaybackState true false) app in
    startAnimationLoop now app.

(** [handlePause()]. *)
Definition handlePause (app : AppState) : AppState :=
  if isPlaying app then
    let app := set_isPlaying false app in
    let app := postMessage (JsWorklet.CmdSetPlaybackState false false) app in
    stopAnimationLoop app
  else app.

(** [handleStop()]. *)
Definition handleStop (app : AppState) : AppState :=
  let app := set_isPlaying false app in
  let app := postMessage (JsWorklet.CmdSetPlaybackState false true) app in
  let app := set_currentTime 0 app in
  stopAnimationLoop app.

(** [handleSeek(position)], [position] from 0 to 100. *)
Definition handleSeek (position : Q) (app : AppState) : AppState :=
  let seekTime := (position / 100) * totalDuration app in
  let app := postMessage (JsWorklet.CmdSeek seekTime) app in
  set_currentTime seekTime app.

(** [handleKeyboardEvent(key)]. *)
Definition handleKeyboardEvent (key : string) (now : Q) (app : AppState) : AppState :=
  if String.eqb key " " then
    if isPlaying app then handlePause app else handlePlay now app
  else if String.eqb key "Escape" then handleStop app
  else app.

(** One run of the animation callback [updateUI], if one is requested.
    [now] is [audioContext.currentTime], [perfNow] is [performance.now()]
    and [config] the configuration of sync.js. *)
Definition updateUI (config : Sync.Config) (now perfNow : Q) (app : AppState)
    : AppState :=
  match frameRequested app with
  | None => app
  | Some lastTime =>
      let app := mkApp (audioBuffer app) (videoDecoder app) (isPlaying app)
                       (currentTime app) (totalDuration app) (animationFrameId app)
                       None (posted app) (lastSyncTime app) in
      if negb (isPlaying app) then app
      else
        let deltaTime := now - lastTime in
        let app := set_currentTime (currentTime app + deltaTime) app in
        let app := set_currentTime (Math_min (currentTime app) (totalDuration app)) app in
        if Qle_bool (totalDuration app) (currentTime app) then handleStop app
        else
          let '(decoder, synced) :=
            Sync.syncAudioVideo config (videoDecoder app) (currentTime app)
                                perfNow (lastSyncTime app) in
          requestAnimationFrame now
            (mkApp (audioBuffer app) decoder (isPlaying app) (currentTime app)
                   (totalDuration app) (animationFrameId app) (frameRequested app)
                   (posted app) synced)
  end.

(** The keyboard callback of the page is [handleKeyboardEvent]: it gets the
    two arguments of every call and reads the first. *)
Definition keyboard_calls (calls : list (string * bool)) (now : Q) (app : AppState)
    : AppState :=
  fold_left (fun app call => handleKeyboardEvent (fst call) now app) calls app.

(** What happens on the page. *)
Inductive AppEvent : Type :=
| Play (now : Q)
| Pause
| Stop
| Seek (position : Q)
| Key (key : string) (now : Q)
| AnimationFrame (now perfNow : Q).

Definition app_event (config : Sync.Config) (app : AppState) (e : AppEvent)
    : AppState :=
  match e with
  | Play now => handlePlay now app
  | Pause => handlePause app
  | Stop => handleStop app
  | Seek position => handleSeek position app
  | Key key now => handleKeyboardEvent key now app
  | AnimationFrame now perfNow => updateUI config now perfNow app
  end.

(** The audio clock does not run backwards and the seek slider is between
    0 and 100. *)
Definition expected (app : AppState) (e : AppEvent) : Prop :=
  match e with
  | Seek position => 0 <= position <= 100
  | AnimationFrame now _ =>
      match frameRequested app with Some lastTime => lastTime <= now | None => True end
  | _ => True
  end.

(** The clock of the page is between 0 and the duration, and the
    animation callback is requested exactly while the transport plays. *)
Definition consistent (app : AppState) : Prop :=
  (0 <= currentTime app /\ currentTime app <= totalDuration app)
  /\ animationFrameId app = isPlaying app
  /\ match frameRequested app with
     | Some _ => isPlaying app = true
     | None => isPlaying app = false
     end.

Definition app_events (config : Sync.Config) (es : list AppEvent) (app : AppState)
    : AppState :=
  fold_left (app_event config) es app.

(** Every event is as expected in the state in which it happens. *)
Fixpoint all_expected (config : Sync.Config) (es : list AppEvent) (app : AppState)
    : Prop :=
  match es with
  | [] => True
  | e :: rest => expected app e /\ all_expected config rest (app_event config app e)
  end.

(** The page once a two-sample file of 10 seconds is loaded. *)
Definition ten_seconds_loaded : AppState :=
  handleAudioFileSelect
    (JsWorklet.mkAudioData [Amp 1; Amp (1 # 2)] (Some [Amp 1; Amp (1 # 2)]) 44100)
    10 loaded.

End App.

(** * Properties *)

(** ** Comparisons *)

Module NumberFacts.

Lemma Qltb_lt a b : Qltb a b = true <-> a < b.
Proof.
  unfold Qltb; rewrite Bool.negb_true_iff, <- Bool.not_true_iff_false, Qle_bool_iff.
  split; [apply Qnot_le_lt | apply Qlt_not_le].
Qed.

Lemma Qltb_ge a b : Qltb a b = false <-> b <= a.
Proof.
  unfold Qltb; rewrite Bool.negb_false_iff; apply Qle_bool_iff.
Qed.

End NumberFacts.

(** ** The examples in binary64

    The arithmetic of the concrete examples below, evaluated on IEEE
    binary64 numbers as JavaScript does: the drift tests of
    [syncAudioVideo] at 10.00 against 9.85 and 9.95 with threshold 0.1, the
    sync quality at a time difference of 0.05, the two distances of
    [getFrameAtTime] at 0.9 s, and the step of a 44100 Hz sample on a
    44100 Hz device.  Each comes out as in the rational model. *)

Module Binary64.

Import PrimFloat.
Local Open Scope float_scope.
#[local] Set Warnings "-inexact-float".

Lemma examples_in_binary64 :
  (0.1 <? abs (10 - 9.85)) = true
  /\ (0.1 <? abs (10 - 9.95)) = false
  /\ (abs (0.05 - 0) <=? 0.1) = true
  /\ (100 - abs (0.05 - 0) / 0.1 * 100 =? 50) = true
  /\ (abs (1000000 - 0.9 * 1000000) <? abs (0 - 0.9 * 1000000)) = true
  /\ (44100 / 44100 =? 1) = true
  /\ (0 + 1 =? 1) = true /\ (1 + 1 =? 2) = true
  /\ (0 <? 0.05) = true.
Proof. repeat split. Qed.

(** Where binary64 rounds and the exact operation does not.  Ten additions
    of the step 4410 / 44100 stay below 1, and the product of the binary64
    number nearest to 3 / 44100 with 44100 is 3 (the exact product of that
    number is below 3); a step of 1/2 accumulates without error, and
    44100 / 32768 is a product that binary64 holds. *)
Lemma accumulation_rounds :
  (let step := 4410 / 44100 in
   (0 + step + step + step + step + step + step + step + step + step + step <? 1)
   = true)
  /\ (3 / 44100 * 44100 =? 3) = true
  /\ (let step := 22050 / 44100 in (0 + step + step + step =? 1.5) = true)
  /\ (0.000030517578125 * 44100 =? 1.3458251953125) = true.
Proof. repeat split. Qed.

End Binary64.

(** ** Transport commands of the JavaScript worklet *)

Module TransportProps.

Import JsWorklet.

Lemma handleMessage_wired c this : wired this -> wired (handleMessage c this).
Proof.
  unfold wired; destruct this as [i r b sr pl pos po]; simpl; intros <-.
  destruct c; simpl; try reflexivity.
  - unfold loadSample; simpl; destruct i; reflexivity.
  - unfold setPlaybackState; simpl; destruct i; simpl; [|reflexivity].
    destruct resetPosition, playing; reflexivity.
  - unfold seek, rust_seek; simpl; destruct i; simpl; [|reflexivity].
    destruct b; [|reflexivity]. destruct (Qeq_bool sr 0); reflexivity.
Qed.

Lemma handleMessages_wired cs :
  forall this, wired this -> wired (handleMessages cs this).
Proof.
  induction cs as [|c cs IH]; intros this H; [exact H|].
  apply IH, handleMessage_wired, H.
Qed.

Lemma constructor_wired : wired constructor.
Proof. reflexivity. Qed.

(** C9: [set_playback_state(false)] always leaves the position at 0 with
    playback off, whatever the state was; and on every worklet reached from
    the constructor by messages, the pause message
    ([setPlaybackState(false)]) and the stop message
    ([setPlaybackState(false, true)]) produce the same object, whose
    position is 0 once the worklet is initialized: pausing does not keep
    the position. *)
Theorem set_playback_state_false_resets_position :
  (forall this : SamplerProcessor,
      playbackPosition (set_playback_state false this) = 0
      /\ isPlaying (set_playback_state false this) = false
      /\ sampleBuffer (set_playback_state false this) = sampleBuffer this
      /\ sampleRate (set_playback_state false this) = sampleRate this)
  /\ (forall (cs : list Command) (resetPosition : bool),
        let this := handleMessages cs constructor in
        let paused := handleMessage (CmdSetPlaybackState false resetPosition) this in
        let stopped := handleMessage (CmdSetPlaybackState false true) this in
        paused = stopped
        /\ (initialized this = true ->
            playbackPosition paused = 0 /\ isPlaying paused = false)).
Proof.
  split.
  - intros this; repeat split.
  - intros cs resetPosition this paused stopped.
    assert (Hw : wired this)
      by (apply handleMessages_wired, constructor_wired).
    subst paused stopped; unfold wired in Hw.
    destruct this as [i r b sr pl pos po]; simpl in *; subst r.
    unfold setPlaybackState; simpl.
    destruct i; simpl.
    + split; [destruct resetPosition; reflexivity|].
      intros _; destruct resetPosition; split; reflexivity.
    + split; [reflexivity|discriminate].
Qed.

End TransportProps.

(** ** Loading a sample *)

Module LoadProps.

Import JsWorklet.

(** C2, as stated, fails: an empty buffer and a rate of 0 are both two_sample_holder
    like any other sample.  The buffer is replaced, [sampleLoaded] is posted
    and no error is. *)
Lemma load_of_invalid_sample_not_rejected :
  ~ load_rejected (mkAudioData [] None 44100) two_sample_holder
  /\ ~ load_rejected (mkAudioData [Amp 1] None 0) two_sample_holder
  /\ sampleBuffer (loadSample (mkAudioData [] None 44100) two_sample_holder) = Some []
  /\ port (loadSample (mkAudioData [] None 44100) two_sample_holder)
     = port two_sample_holder ++ [MsgSampleLoaded].
Proof.
  repeat split.
  - intros (Hbuf & _); discriminate Hbuf.
  - intros (Hbuf & _); discriminate Hbuf.
Qed.

(** C2, amended: an initialized worklet accepts every load, also one with an
    empty buffer or a rate that is not positive: the buffer and the rate are
    replaced by the message's, the position is reset to 0, the transport
    flag is kept, and exactly one message, [sampleLoaded], is posted. *)
Theorem loadSample_accepts_every_sample
    (audioData : AudioData) (this : SamplerProcessor) :
  initialized this = true ->
  rustProcessor this = true ->
  let this' := loadSample audioData this in
  sampleBuffer this' = Some (left audioData)
  /\ sampleRate this' = audioSampleRate audioData
  /\ playbackPosition this' = 0
  /\ isPlaying this' = isPlaying this
  /\ port this' = port this ++ [MsgSampleLoaded]
  /\ ~ load_rejected audioData this.
Proof.
  intros Hi Hr this'; subst this'.
  assert (E : loadSample audioData this
              = postMessage MsgSampleLoaded
                  (load_sample_data (left audioData) (audioSampleRate audioData) this))
    by (unfold loadSample; rewrite Hi, Hr; reflexivity).
  rewrite E; simpl; repeat split.
  intros (_ & _ & _ & (m & Hin) & _); revert Hin.
  unfold loadSample; rewrite Hi, Hr; simpl.
  rewrite skipn_app, skipn_all, Nat.sub_diag; simpl.
  intros [H|[]]; discriminate H.
Qed.

Lemma loadSample_accepts_every_sample_witness :
  sampleBuffer (loadSample (mkAudioData [] None 0) two_sample_holder) = Some []
  /\ sampleRate (loadSample (mkAudioData [] None 0) two_sample_holder) = 0.
Proof.
  pose proof (loadSample_accepts_every_sample (mkAudioData [] None 0) two_sample_holder
                eq_refl eq_refl) as H.
  simpl in H. destruct H as (H1 & H2 & _). split; [exact H1 | exact H2].
Defined.

End LoadProps.

(** ** The render boundary *)

Module BoundaryProps.

Section Host.

Variable W : Type.
Variable initialized : W -> bool.
Variable has_rustProcessor : W -> bool.
Variable rust_process : W -> Outputs -> Outcome W.
Variable postMessage : Message -> W -> W.

Let body := Boundary.process_try rust_process postMessage.
Let render := Boundary.process initialized has_rustProcessor rust_process postMessage.

(** When the [try] block throws, the object and the arrays are as the inner
    call left them: the level report is the only other statement that
    writes, and it runs after the last point that can throw. *)
Lemma process_try_throw_state this outputs random :
  completion (body this outputs random) = Throw ->
  after (body this outputs random) = after (rust_process this outputs)
  /\ written (body this outputs random) = written (rust_process this outputs).
Proof.
  unfold body, Boundary.process_try.
  destruct (completion (rust_process this outputs)) eqn:Hc; [|split; reflexivity].
  destruct (Qltb random (5 # 100)); [|rewrite Hc; discriminate].
  destruct (nth_error (written (rust_process this outputs)) 0) as [output0|];
    [|split; reflexivity].
  destruct (nth_error output0 0); [discriminate|rewrite Hc; discriminate].
Qed.

(** The [try] block returns what the inner call returned. *)
Lemma process_try_result this outputs random b :
  completion (body this outputs random) = Return b ->
  completion (rust_process this outputs) = Return b.
Proof.
  unfold body, Boundary.process_try.
  destruct (completion (rust_process this outputs)) eqn:Hc; [|rewrite Hc; discriminate].
  destruct (Qltb random (5 # 100)); [|rewrite Hc; trivial].
  destruct (nth_error (written (rust_process this outputs)) 0) as [output0|];
    [|discriminate].
  destruct (nth_error output0 0); [trivial|rewrite Hc; trivial].
Qed.

Lemma process_uninitialized this outputs random :
  initialized this = false \/ has_rustProcessor this = false ->
  render this outputs random = mkOutcome this (fill_silence outputs) (Return true).
Proof.
  unfold render, body, Boundary.process; intros [-> | ->]; simpl; [reflexivity|].
  rewrite Bool.orb_true_r; reflexivity.
Qed.

Lemma process_initialized this outputs random :
  initialized this = true -> has_rustProcessor this = true ->
  render this outputs random
  = match completion (body this outputs random) with
    | Return _ => body this outputs random
    | Throw => mkOutcome (after (body this outputs random))
                         (written (body this outputs random)) (Return true)
    end.
Proof.
  unfold render, body, Boundary.process; intros -> ->; reflexivity.
Qed.

Lemma process_never_throws this outputs random :
  exists b, completion (render this outputs random) = Return b.
Proof.
  destruct (initialized this) eqn:Hi; [destruct (has_rustProcessor this) eqn:Hh|].
  - rewrite (process_initialized _ _ _ Hi Hh).
    destruct (completion (body this outputs random)) as [b|] eqn:Hc.
    + exists b; exact Hc.
    + exists true; reflexivity.
  - exists true; rewrite process_uninitialized by (right; exact Hh); reflexivity.
  - exists true; rewrite process_uninitialized by (left; exact Hi); reflexivity.
Qed.

Lemma process_catches this outputs random :
  initialized this = true -> has_rustProcessor this = true ->
  completion (body this outputs random) = Throw ->
  render this outputs random
  = mkOutcome (after (rust_process this outputs))
              (written (rust_process this outputs)) (Return true).
Proof.
  intros Hi Hh Hc; rewrite (process_initialized _ _ _ Hi Hh), Hc.
  destruct (process_try_throw_state _ _ _ Hc) as [-> ->]; reflexivity.
Qed.

Lemma process_returns_true this outputs random :
  (forall b, completion (rust_process this outputs) = Return b -> b = true) ->
  completion (render this outputs random) = Return true.
Proof.
  intros Hb.
  destruct (initialized this) eqn:Hi; [destruct (has_rustProcessor this) eqn:Hh|].
  - rewrite (process_initialized _ _ _ Hi Hh).
    destruct (completion (body this outputs random)) as [b|] eqn:Hc;
      [|reflexivity].
    rewrite Hc; f_equal; apply Hb, (process_try_result _ _ _ _ Hc).
  - rewrite process_uninitialized by (right; exact Hh); reflexivity.
  - rewrite process_uninitialized by (left; exact Hi); reflexivity.
Qed.

End Host.

Lemma fill_silence_all_silent outputs : all_silent (fill_silence outputs).
Proof.
  unfold all_silent, fill_silence.
  repeat (apply Forall_map, Forall_forall; intros ? _); reflexivity.
Qed.

Lemma fill_silence_shape outputs : shape (fill_silence outputs) = shape outputs.
Proof.
  unfold shape, fill_silence; rewrite map_map; apply map_ext; intros o.
  rewrite map_map; apply map_ext; intros c; apply length_map.
Qed.

Lemma rustProcessor_process_returns deviceRate this outputs :
  completion (JsWorklet.rustProcessor_process deviceRate this outputs) = Return true.
Proof.
  unfold JsWorklet.rustProcessor_process.
  destruct (JsWorklet.sampleBuffer this) as [buf|]; [|reflexivity].
  destruct (JsWorklet.isPlaying this); [|reflexivity].
  destruct outputs as [|[|output channels] others]; try reflexivity.
  destruct (JsWorklet.render_block deviceRate buf this output); reflexivity.
Qed.

(** C10, as stated, fails for sampler-worklet.js: [process] ends with
    [return result], so with a processor whose [process] returns [false]
    it returns [false]. *)
Lemma process_passes_false_on :
  completion (WasmWorklet.process unit WasmWorklet.refusing_process
                (WasmWorklet.mkSP true (Some tt) []) [[[silence]]] 1)
  = Return false
  /\ ~ (forall (R : Type) (wasm_process : R -> Outputs -> R * Outputs * Completion bool)
               (this : WasmWorklet.SamplerProcessor R) (outputs : Outputs) (random : Q),
          completion (WasmWorklet.process R wasm_process this outputs random)
          = Return true).
Proof.
  split; [reflexivity|].
  intros H.
  specialize (H unit WasmWorklet.refusing_process
                (WasmWorklet.mkSP true (Some tt) []) [[[silence]]] 1).
  discriminate H.
Qed.

(** C10, amended: [process] never completes by throwing, in both files and
    for any [rustProcessor].  When the worklet is not initialized or has
    no processor it stores 0 in every sample of every channel of every
    output, keeps the arrays' lengths and the object, and returns [true];
    when the [try] block throws, [true] is returned and the object and the
    arrays are as the inner call left them; otherwise it returns what
    [rustProcessor.process] returned.  That is [true] for the JavaScript
    [rustProcessor] of worklet-processor-code.js, whose [process]
    therefore returns [true] on every worklet state, every [outputs] and
    every draw of [Math.random()]. *)
Theorem process_total_at_boundary :
  (forall deviceRate this outputs random,
      completion (JsWorklet.process deviceRate this outputs random) = Return true
      /\ (JsWorklet.initialized this = false \/ JsWorklet.rustProcessor this = false ->
          JsWorklet.process deviceRate this outputs random
          = mkOutcome this (fill_silence outputs) (Return true)))
  /\ (forall (W : Type) (initialized has_rustProcessor : W -> bool)
             (rust_process : W -> Outputs -> Outcome W)
             (postMessage : Message -> W -> W)
             (this : W) (outputs : Outputs) (random : Q),
        let r := Boundary.process initialized has_rustProcessor rust_process postMessage
                         this outputs random in
        (exists b, completion r = Return b)
        /\ (initialized this = false \/ has_rustProcessor this = false ->
            r = mkOutcome this (fill_silence outputs) (Return true)
            /\ all_silent (written r)
            /\ shape (written r) = shape outputs)
        /\ (initialized this = true -> has_rustProcessor this = true ->
            completion (Boundary.process_try rust_process postMessage this outputs random)
            = Throw ->
            r = mkOutcome (after (rust_process this outputs))
                          (written (rust_process this outputs)) (Return true))
        /\ (initialized this = true -> has_rustProcessor this = true ->
            forall b,
              completion (Boundary.process_try rust_process postMessage this outputs random)
              = Return b ->
              completion r = Return b
              /\ completion (rust_process this outputs) = Return b)
        /\ ((forall b, completion (rust_process this outputs) = Return b -> b = true) ->
            completion r = Return true)).
Proof.
  split.
  - intros deviceRate this outputs random. split.
    + apply process_returns_true; intros b.
      rewrite rustProcessor_process_returns; intros [= <-]; reflexivity.
    + intros H. unfold JsWorklet.process.
      apply (process_uninitialized _ _ _ _ _ _ _ _ H).
  - intros W initialized has_rustProcessor rust_process postMessage
           this outputs random r; subst r.
    split; [apply process_never_throws|].
    split; [|split; [|split]].
    + intros H; rewrite (process_uninitialized _ _ _ _ _ _ _ _ H); simpl.
      split; [reflexivity|].
      split; [apply fill_silence_all_silent | apply fill_silence_shape].
    + intros Hi Hh Hc; apply (process_catches _ _ _ _ _ _ _ _ Hi Hh Hc).
    + intros Hi Hh b Hc.
      rewrite (process_initialized _ _ _ _ _ _ _ _ Hi Hh), Hc.
      split; [exact Hc | eapply process_try_result; exact Hc].
    + apply process_returns_true.
Qed.

(** C3, as stated, fails.  In the JavaScript worklet, a block with no output
    at all and a draw below 0.05 makes [outputs[0][0]] throw inside the
    [try] block; [process] returns [true] and the port is as before: no
    error message.  In the WebAssembly worklet, a processor that throws
    after storing 1 in the samples leaves the block as it is: it is not
    silenced, and no error message is posted either. *)
Lemma render_fault_not_converted :
  let js := JsWorklet.initializeWasm JsWorklet.constructor in
  let wasm := WasmWorklet.mkSP true (Some tt) [] in
  completion (Boundary.process_try (JsWorklet.rustProcessor_process 44100)
                          JsWorklet.postMessage js [] 0) = Throw
  /\ JsWorklet.process 44100 js [] 0 = mkOutcome js [] (Return true)
  /\ ~ fault_converted JsWorklet.port js (JsWorklet.process 44100 js [] 0)
  /\ completion (WasmWorklet.rust_process unit WasmWorklet.faulty_process
                                          wasm [[[silence]]]) = Throw
  /\ WasmWorklet.process unit WasmWorklet.faulty_process wasm [[[silence]]] 0
     = mkOutcome wasm [[[Amp 1]]] (Return true)
  /\ ~ fault_converted WasmWorklet.port wasm
        (WasmWorklet.process unit WasmWorklet.faulty_process wasm [[[silence]]] 0).
Proof.
  intros js wasm.
  split; [reflexivity|]. split; [reflexivity|].
  split; [intros (_ & (m & []) & _)|].
  split; [reflexivity|]. split; [reflexivity|].
  intros (_ & (m & []) & _).
Qed.

(** C3, amended: every exception raised inside the [try] block of [process],
    by the inner [rustProcessor.process] or by the level report, is caught:
    [process] returns [true], so the callback keeps running.  The worklet
    object and the output arrays are exactly as the inner call left them:
    the boundary posts no message and does not overwrite the block with
    silence. *)
Theorem render_fault_caught_and_logged
    (W : Type) (initialized has_rustProcessor : W -> bool)
    (rust_process : W -> Outputs -> Outcome W)
    (postMessage : Message -> W -> W)
    (this : W) (outputs : Outputs) (random : Q) :
  initialized this = true ->
  has_rustProcessor this = true ->
  completion (Boundary.process_try rust_process postMessage this outputs random) = Throw ->
  let r := Boundary.process initialized has_rustProcessor rust_process postMessage
                   this outputs random in
  completion r = Return true
  /\ after r = after (rust_process this outputs)
  /\ written r = written (rust_process this outputs).
Proof.
  intros Hi Hh Hc r; subst r.
  rewrite (process_catches _ _ _ _ _ _ _ _ Hi Hh Hc); repeat split.
Qed.

Lemma render_fault_caught_and_logged_witness :
  let js := JsWorklet.initializeWasm JsWorklet.constructor in
  completion (JsWorklet.process 44100 js [] 0) = Return true
  /\ after (JsWorklet.process 44100 js [] 0) = js.
Proof.
  intros js.
  pose proof (render_fault_caught_and_logged JsWorklet.SamplerProcessor
                JsWorklet.initialized JsWorklet.rustProcessor
                (JsWorklet.rustProcessor_process 44100) JsWorklet.postMessage
                js [] 0 eq_refl eq_refl eq_refl) as H.
  destruct H as (H1 & H2 & _). split; [exact H1 | exact H2].
Defined.

End BoundaryProps.

(** ** The frame buffer *)

Module BufferProps.

Import Decoder.

(** The eviction loop closes the frames in excess of the capacity, oldest
    first, and keeps the rest. *)
Lemma evict_spec maxSize :
  forall buffer closed,
    evict maxSize buffer closed
    = (skipn (length buffer - maxSize) buffer,
       closed ++ firstn (length buffer - maxSize) buffer).
Proof.
  induction buffer as [|oldest rest IH]; intros closed.
  - simpl; rewrite app_nil_r; reflexivity.
  - cbn [evict]; destruct (maxSize <? length (oldest :: rest))%nat eqn:E.
    + apply Nat.ltb_lt in E; rewrite IH; simpl length in *.
      replace (S (length rest) - maxSize)%nat
        with (S (length rest - maxSize)) by lia.
      simpl; rewrite <- app_assoc; reflexivity.
    + apply Nat.ltb_ge in E.
      replace (length (oldest :: rest) - maxSize)%nat with 0%nat by lia.
      simpl; rewrite app_nil_r; reflexivity.
Qed.

Lemma addFrameToBuffer_spec frame this :
  let n := (length (frameBuffer this) + 1 - maxBufferSize this)%nat in
  frameBuffer (addFrameToBuffer frame this) = skipn n (frameBuffer this ++ [frame])
  /\ closeLog (addFrameToBuffer frame this)
     = closeLog this ++ firstn n (frameBuffer this ++ [frame])
  /\ maxBufferSize (addFrameToBuffer frame this) = maxBufferSize this.
Proof.
  unfold addFrameToBuffer; rewrite evict_spec, length_app; simpl.
  repeat split.
Qed.

Lemma addFrameToBuffer_bounded frame this :
  (length (frameBuffer (addFrameToBuffer frame this)) <= maxBufferSize this)%nat.
Proof.
  destruct (addFrameToBuffer_spec frame this) as (-> & _).
  rewrite length_skipn, length_app; simpl; lia.
Qed.

(** Every call keeps the capacity and leaves at most that many frames. *)
Lemma call_bounded this c :
  (length (frameBuffer this) <= maxBufferSize this)%nat ->
  (length (frameBuffer (call this c)) <= maxBufferSize (call this c))%nat
  /\ maxBufferSize (call this c) = maxBufferSize this.
Proof.
  intros H; destruct c; simpl.
  - destruct (addFrameToBuffer_spec frame this) as (_ & _ & E).
    rewrite E; split; [apply addFrameToBuffer_bounded | reflexivity].
  - split; [lia | reflexivity].
  - split; [lia | reflexivity].
  - split; [exact H | reflexivity].
  - split; [lia | reflexivity].
Qed.

Lemma run_bounded calls :
  forall this,
    (length (frameBuffer this) <= maxBufferSize this)%nat ->
    (length (frameBuffer (run calls this)) <= maxBufferSize this)%nat
    /\ maxBufferSize (run calls this) = maxBufferSize this.
Proof.
  unfold run; induction calls as [|c calls IH]; intros this H; simpl.
  - split; [exact H | reflexivity].
  - destruct (call_bounded this c H) as [Hb Hm].
    destruct (IH (call this c) Hb) as [Hb' Hm'].
    split; [rewrite <- Hm; exact Hb' | rewrite Hm'; exact Hm].
Qed.

(** C5: after any sequence of calls on a new [VideoDecoderManager] the
    capacity is 30 and the buffer holds at most 30 frames.  On any manager,
    [addFrameToBuffer] leaves at most [maxBufferSize] frames; when the
    buffer is full (and the capacity is not 0), it drops exactly the frame
    at the front, the oldest, whose [close()] is the only one called, and
    keeps every later frame in order, followed by the new one; when the
    buffer is not full, nothing is dropped or closed. *)
Theorem frame_buffer_bounded_and_evicts_oldest :
  (forall calls,
      maxBufferSize (run calls constructor) = 30%nat
      /\ (length (frameBuffer (run calls constructor)) <= 30)%nat)
  /\ (forall frame this,
        (length (frameBuffer (addFrameToBuffer frame this)) <= maxBufferSize this)%nat)
  /\ (forall frame this oldest rest,
        frameBuffer this = oldest :: rest ->
        length (frameBuffer this) = maxBufferSize this ->
        frameBuffer (addFrameToBuffer frame this) = rest ++ [frame]
        /\ closeLog (addFrameToBuffer frame this) = closeLog this ++ [oldest])
  /\ (forall frame this,
        (length (frameBuffer this) < maxBufferSize this)%nat ->
        frameBuffer (addFrameToBuffer frame this) = frameBuffer this ++ [frame]
        /\ closeLog (addFrameToBuffer frame this) = closeLog this).
Proof.
  split; [|split; [|split]].
  - intros calls.
    destruct (run_bounded calls constructor) as [Hb Hm]; [simpl; lia|].
    split; [exact Hm | exact Hb].
  - apply addFrameToBuffer_bounded.
  - intros frame this oldest rest Hbuf Hfull.
    destruct (addFrameToBuffer_spec frame this) as (-> & -> & _).
    replace (length (frameBuffer this) + 1 - maxBufferSize this)%nat
      with 1%nat by lia.
    rewrite Hbuf; split; reflexivity.
  - intros frame this Hlt.
    destruct (addFrameToBuffer_spec frame this) as (-> & -> & _).
    replace (length (frameBuffer this) + 1 - maxBufferSize this)%nat
      with 0%nat by lia.
    simpl; rewrite app_nil_r; split; reflexivity.
Qed.

(** Thirty-one frames pushed into a new manager: frame 0, and only frame 0,
    is closed, and frames 1 to 30 remain, in order. *)
Lemma thirty_one_frames_evict_the_first :
  let this := run (map AddFrame (map numbered (seq 0 31))) constructor in
  frameBuffer this = map numbered (seq 1 30)
  /\ closeLog this = [numbered 0].
Proof. split; reflexivity. Qed.

End BufferProps.

(** ** Frame selection *)

Module NearestProps.

Import Decoder NumberFacts.

Lemma closest_step_keeps timeUs seen acc frame :
  nearest_so_far timeUs seen acc ->
  nearest_so_far timeUs (seen ++ [frame]) (closest_step timeUs acc frame).
Proof.
  unfold closest_step, nearest_so_far.
  destruct acc as [[f|] [d|]]; cbn [snd closer]; try contradiction.
  - intros (Hd & Hin & Hmin).
    destruct (Qltb (Qabs (timestamp frame - timeUs)) d) eqn:E.
    + apply Qltb_lt in E.
      split; [reflexivity|]. split; [apply in_or_app; right; left; reflexivity|].
      intros g Hg; apply in_app_or in Hg; destruct Hg as [Hg|[<-|[]]].
      * apply Qle_trans with d; [apply Qlt_le_weak, E | apply Hmin, Hg].
      * apply Qle_refl.
    + apply Qltb_ge in E.
      split; [exact Hd|]. split; [apply in_or_app; left; exact Hin|].
      intros g Hg; apply in_app_or in Hg; destruct Hg as [Hg|[<-|[]]].
      * apply Hmin, Hg.
      * exact E.
  - intros ->.
    split; [reflexivity|]. split; [left; reflexivity|].
    intros g [<-|[]]; apply Qle_refl.
Qed.

Lemma closest_fold timeUs rest :
  forall seen acc,
    nearest_so_far timeUs seen acc ->
    nearest_so_far timeUs (seen ++ rest) (fold_left (closest_step timeUs) rest acc).
Proof.
  induction rest as [|frame rest IH]; intros seen acc H; simpl.
  - rewrite app_nil_r; exact H.
  - replace (seen ++ frame :: rest) with ((seen ++ [frame]) ++ rest)
      by (rewrite <- app_assoc; reflexivity).
    apply IH, closest_step_keeps, H.
Qed.

(** C6: [getFrameAtTime(t)] returns [null] on an empty buffer; on a buffer
    that is not empty it returns a frame of the buffer whose timestamp is at
    least as near to [t] (in microseconds) as that of every buffered frame;
    the frame may lie ahead of [t] (with frames at 0 s and 1 s, the query
    0.9 s selects the frame at 1 s); and after [clearFrameBuffer()] or
    [seek(t')] it returns [null] for every query. *)
Theorem getFrameAtTime_nearest :
  (forall time this,
      frameBuffer this = [] -> getFrameAtTime time this = None)
  /\ (forall time this,
        frameBuffer this <> [] ->
        exists frame,
          getFrameAtTime time this = Some frame
          /\ In frame (frameBuffer this)
          /\ forall g, In g (frameBuffer this) ->
               Qabs (timestamp frame - time * 1000000)
               <= Qabs (timestamp g - time * 1000000))
  /\ getFrameAtTime (9 # 10)
       (run [AddFrame frame_at_0s; AddFrame frame_at_1s] constructor)
     = Some frame_at_1s
  /\ (forall time this, getFrameAtTime time (clearFrameBuffer this) = None)
  /\ (forall time time' this, getFrameAtTime time (seek time' this) = None).
Proof.
  split; [|split; [|split; [|split]]].
  - intros time this E; unfold getFrameAtTime; rewrite E; reflexivity.
  - intros time this Hne; unfold getFrameAtTime.
    pose proof (closest_fold (time * 1000000) (frameBuffer this) [] (None, None)
                  eq_refl) as H.
    cbn [app] in H; unfold nearest_so_far in H.
    destruct (fold_left (closest_step (time * 1000000)) (frameBuffer this)
                (None, None)) as [[f|] [d|]]; cbn [fst]; try contradiction.
    destruct H as (-> & Hin & Hmin).
    exists f; repeat split; assumption.
  - reflexivity.
  - reflexivity.
  - reflexivity.
Qed.

End NearestProps.

(** ** Drift correction and sync metrics *)

Module SyncProps.

Import Decoder Sync.

Lemma Math_max_Qmax a b : Math_max a b == Qmax a b.
Proof.
  unfold Math_max; destruct (Qle_bool a b) eqn:E.
  - apply Qle_bool_iff in E; symmetry; apply Q.max_r, E.
  - assert (b <= a).
    { apply Qlt_le_weak, Qnot_le_lt; intros H.
      apply Qle_bool_iff in H; congruence. }
    symmetry; apply Q.max_l; assumption.
Qed.

(** C7: on a sync tick with a decoder, when the drift
    [|audioTime - videoDecoder.currentTime|] exceeds [maxTimeDifference],
    exactly one seek is issued, with argument [audioTime], and the decoder
    is the one [seek(audioTime)] leaves; when the drift is at most
    [maxTimeDifference], the decoder is untouched and no seek is issued.
    With the default threshold 0.1: audio 10.00 against video 9.85 seeks to
    10.00; audio 10.00 against video 9.95 does not. *)
Theorem syncAudioVideo_seeks_iff_drift_exceeds :
  (forall config vd audioTime now lastSyncTime,
      let drift := Qabs (audioTime - currentTime vd) in
      let result := fst (syncAudioVideo config (Some vd) audioTime now lastSyncTime) in
      (maxTimeDifference config < drift ->
       result = Some (seek audioTime vd)
       /\ seekLog (seek audioTime vd) = seekLog vd ++ [audioTime])
      /\ (drift <= maxTimeDifference config -> result = Some vd))
  /\ (forall now lastSyncTime,
        option_map seekLog
          (fst (syncAudioVideo default_config (Some (decoder_at (985 # 100)))
                               10 now lastSyncTime))
        = Some [10])
  /\ (forall now lastSyncTime,
        fst (syncAudioVideo default_config (Some (decoder_at (995 # 100)))
                            10 now lastSyncTime)
        = Some (decoder_at (995 # 100))).
Proof.
  split; [|split; reflexivity].
  intros config vd audioTime now lastSyncTime drift result.
  subst drift result; unfold syncAudioVideo; cbn [fst].
  split.
  - intros H; apply NumberFacts.Qltb_lt in H; rewrite H.
    split; reflexivity.
  - intros H; apply NumberFacts.Qltb_ge in H; rewrite H; reflexivity.
Qed.

(** C8: with a decoder and a positive [maxTimeDifference],
    [calculateSyncMetrics] reports the signed difference
    [audioTime - videoTime], a [syncQuality] equal to the spec's
    [max(0, 100 - (|timeDifference| / maxTimeDifference) * 100)], and
    [inSync] exactly when [|timeDifference| <= maxTimeDifference]; with the
    default threshold 0.1, a drift of 0.05 in either direction gives
    [syncQuality] 50 and [inSync] true. *)
Theorem calculateSyncMetrics_formulas config vd audioTime :
  0 < maxTimeDifference config ->
  let m := calculateSyncMetrics config (Some vd) audioTime in
  let drift := Qabs (audioTime - currentTime vd) in
  timeDifference m = audioTime - currentTime vd
  /\ syncQuality m == spec_syncQuality drift (maxTimeDifference config)
  /\ (inSync m = true <-> spec_inSync drift (maxTimeDifference config))
  /\ (maxTimeDifference config == 1 # 10 -> drift == 5 # 100 ->
      syncQuality m == 50 /\ inSync m = true).
Proof.
  intros Hpos m drift; subst m drift.
  unfold calculateSyncMetrics; cbn [timeDifference syncQuality inSync].
  split; [reflexivity|].
  split; [apply Math_max_Qmax|].
  split; [apply Qle_bool_iff|].
  intros Hmax Hd; split.
  - rewrite Math_max_Qmax, Hd, Hmax.
    rewrite Q.max_r; [reflexivity | discriminate].
  - apply Qle_bool_iff; rewrite Hd, Hmax; discriminate.
Qed.

Lemma calculateSyncMetrics_formulas_witness :
  syncQuality (calculateSyncMetrics default_config (Some (decoder_at 0)) (5 # 100))
  == 50
  /\ inSync (calculateSyncMetrics default_config (Some (decoder_at 0)) (5 # 100))
     = true.
Proof.
  pose proof (calculateSyncMetrics_formulas default_config
                (decoder_at 0) (5 # 100) eq_refl) as H.
  destruct H as (_ & _ & _ & H).
  apply H; reflexivity.
Defined.

End SyncProps.

(** ** The render loop at the end of the sample *)

Module RenderProps.

Import JsWorklet.

Lemma render_block_app deviceRate buf :
  forall l1 l2 this,
    render_block deviceRate buf this (l1 ++ l2)
    = (fst (render_block deviceRate buf
              (fst (render_block deviceRate buf this l1)) l2),
       snd (render_block deviceRate buf this l1)
       ++ snd (render_block deviceRate buf
                 (fst (render_block deviceRate buf this l1)) l2)).
Proof.
  induction l1 as [|x l1 IH]; intros l2 this; cbn [app render_block].
  - cbn [fst snd app]; apply surjective_pairing.
  - destruct (render_sample deviceRate buf this) as [this1 v].
    rewrite IH.
    destruct (render_block deviceRate buf this1 l1) as [this2 o1]; reflexivity.
Qed.

Lemma render_block_length deviceRate buf :
  forall output this,
    length (snd (render_block deviceRate buf this output)) = length output.
Proof.
  induction output as [|x output IH]; intros this; cbn [render_block].
  - reflexivity.
  - destruct (render_sample deviceRate buf this) as [this1 v].
    specialize (IH this1).
    destruct (render_block deviceRate buf this1 output) as [this2 o].
    cbn [snd length] in *; rewrite IH; reflexivity.
Qed.

(** One frame changes the position and the transport flag only, and never
    turns the transport on. *)
Lemma render_sample_frame deviceRate buf this :
  let this' := fst (render_sample deviceRate buf this) in
  sampleBuffer this' = sampleBuffer this
  /\ sampleRate this' = sampleRate this
  /\ port this' = port this
  /\ initialized this' = initialized this
  /\ rustProcessor this' = rustProcessor this
  /\ (isPlaying this = false -> isPlaying this' = false).
Proof.
  unfold render_sample.
  destruct (Z.of_nat (length buf) <=? Math_floor (playbackPosition this))%Z;
    cbn; repeat split; trivial.
Qed.

Lemma render_block_frame deviceRate buf :
  forall output this,
    let this' := fst (render_block deviceRate buf this output) in
    sampleBuffer this' = sampleBuffer this
    /\ sampleRate this' = sampleRate this
    /\ port this' = port this
    /\ initialized this' = initialized this
    /\ rustProcessor this' = rustProcessor this
    /\ (isPlaying this = false -> isPlaying this' = false).
Proof.
  induction output as [|x output IH]; intros this; cbn [render_block].
  - cbn; repeat split; trivial.
  - pose proof (render_sample_frame deviceRate buf this) as H.
    destruct (render_sample deviceRate buf this) as [this1 v]; cbn [fst] in H.
    specialize (IH this1).
    destruct (render_block deviceRate buf this1 output) as [this2 o].
    cbn [fst] in *.
    destruct H as (H1 & H2 & H3 & H4 & H5 & H6).
    destruct IH as (I1 & I2 & I3 & I4 & I5 & I6).
    repeat split; try congruence. intros E; apply I6, H6, E.
Qed.

(** Frame [i] of the block is what [render_sample] produces from the object
    the loop has reached, and the next frame starts from what it leaves. *)
Lemma render_block_nth deviceRate buf this output i :
  (i < length output)%nat ->
  nth i (snd (render_block deviceRate buf this output)) NaN
  = snd (render_sample deviceRate buf (state_before deviceRate buf this output i))
  /\ state_before deviceRate buf this output (S i)
     = fst (render_sample deviceRate buf (state_before deviceRate buf this output i)).
Proof.
  intros Hi; unfold state_before.
  destruct (nth_split output NaN Hi) as (l1 & l2 & E & Hl).
  set (x := nth i output NaN) in E.
  assert (F1 : firstn i output = l1).
  { rewrite E, <- Hl, firstn_app, Nat.sub_diag, firstn_all; cbn.
    apply app_nil_r. }
  assert (F2 : firstn (S i) output = l1 ++ [x]).
  { rewrite E, <- Hl, firstn_app, firstn_all2 by lia.
    replace (S (length l1) - length l1)%nat with 1%nat by lia; reflexivity. }
  rewrite F1, F2; split.
  - rewrite E, render_block_app; cbn [snd].
    rewrite app_nth2; rewrite render_block_length; [|lia].
    rewrite Hl, Nat.sub_diag; cbn [render_block].
    destruct (render_sample deviceRate buf
                (fst (render_block deviceRate buf this l1))) as [this1 v].
    destruct (render_block deviceRate buf this1 l2); reflexivity.
  - rewrite render_block_app; cbn [fst render_block].
    destruct (render_sample deviceRate buf
                (fst (render_block deviceRate buf this l1))) as [this1 v].
    reflexivity.
Qed.

(** Once the loop has stopped the transport, it is still stopped when the
    block is finished. *)
Lemma render_block_stays_stopped deviceRate buf this output i :
  isPlaying (state_before deviceRate buf this output i) = false ->
  isPlaying (fst (render_block deviceRate buf this output)) = false.
Proof.
  unfold state_before; intros H.
  rewrite <- (firstn_skipn i output) at 1.
  rewrite render_block_app; cbn [fst].
  apply render_block_frame, H.
Qed.

Lemma step_nonneg deviceRate rate :
  0 < deviceRate -> 0 <= rate -> 0 <= rate / deviceRate.
Proof.
  intros Hd Hr; apply Qle_shift_div_l; [exact Hd | lra].
Qed.

(** When the loop's test fails, the position is below the sample length. *)
Lemma not_at_end_below buf this :
  at_end buf this = false ->
  playbackPosition this < inject_Z (Z.of_nat (length buf)).
Proof.
  unfold at_end, Math_floor; intros H; apply Z.leb_gt in H.
  apply Qlt_le_trans with (inject_Z (Qfloor (playbackPosition this) + 1)).
  - apply Qlt_floor.
  - rewrite <- Zle_Qle; lia.
Qed.

Lemma render_sample_in_range deviceRate buf this :
  0 < deviceRate ->
  sampleBuffer this = Some buf ->
  position_in_range deviceRate this ->
  position_in_range deviceRate (fst (render_sample deviceRate buf this)).
Proof.
  intros Hd Hbuf H.
  destruct (render_sample_frame deviceRate buf this) as (Eb & Er & _).
  unfold position_in_range, sampleLength in *; rewrite Eb, Er, Hbuf in *.
  intros Hr; specialize (H Hr); destruct H as [H0 H1].
  pose proof (step_nonneg _ _ Hd Hr) as Hs.
  unfold render_sample; fold (at_end buf this).
  destruct (at_end buf this) eqn:E; cbn [fst playbackPosition set_playbackPosition set_isPlaying].
  - split; [lra | intros F; lra].
  - apply not_at_end_below in E.
    set (step := sampleRate this / deviceRate) in *.
    split; [lra | intros _; lra].
Qed.

Lemma render_block_in_range deviceRate buf :
  0 < deviceRate ->
  forall output this,
    sampleBuffer this = Some buf ->
    position_in_range deviceRate this ->
    position_in_range deviceRate (fst (render_block deviceRate buf this output)).
Proof.
  intros Hd; induction output as [|x output IH]; intros this Hbuf H;
    cbn [render_block].
  - exact H.
  - pose proof (render_sample_in_range deviceRate buf this Hd Hbuf H) as H1.
    pose proof (render_sample_frame deviceRate buf this) as (Eb & _).
    destruct (render_sample deviceRate buf this) as [this1 v]; cbn [fst] in *.
    specialize (IH this1 (eq_trans Eb Hbuf) H1).
    destruct (render_block deviceRate buf this1 output); exact IH.
Qed.

(** The range does not depend on the port. *)
Lemma postMessage_in_range deviceRate m this :
  position_in_range deviceRate this ->
  position_in_range deviceRate (postMessage m this).
Proof. intros H; exact H. Qed.

Lemma rustProcessor_process_in_range deviceRate this outputs :
  0 < deviceRate ->
  position_in_range deviceRate this ->
  position_in_range deviceRate (after (rustProcessor_process deviceRate this outputs)).
Proof.
  intros Hd H; unfold rustProcessor_process.
  destruct (sampleBuffer this) as [buf|] eqn:Hbuf; [|exact H].
  destruct (isPlaying this); [|exact H].
  destruct outputs as [|[|output channels] others]; try exact H.
  pose proof (render_block_in_range deviceRate buf Hd output this Hbuf H) as H'.
  destruct (render_block deviceRate buf this output); exact H'.
Qed.

Lemma process_in_range deviceRate this outputs random :
  0 < deviceRate ->
  position_in_range deviceRate this ->
  position_in_range deviceRate (after (process deviceRate this outputs random)).
Proof.
  intros Hd H; unfold process, Boundary.process, Boundary.process_try.
  destruct (negb (initialized this) || negb (rustProcessor this)); [exact H|].
  pose proof (rustProcessor_process_in_range deviceRate this outputs Hd H) as H'.
  rewrite BoundaryProps.rustProcessor_process_returns.
  destruct (Qltb random (5 # 100));
    [|rewrite BoundaryProps.rustProcessor_process_returns; exact H'].
  destruct (nth_error (written (rustProcessor_process deviceRate this outputs)) 0)
    as [output0|]; [|exact H'].
  destruct (nth_error output0 0);
    [exact H' | rewrite BoundaryProps.rustProcessor_process_returns; exact H'].
Qed.

Lemma Math_max_0_range x bound :
  x < bound ->
  0 <= Math_max 0 x /\ (0 < Math_max 0 x -> Math_max 0 x < bound).
Proof.
  unfold Math_max; intros H; destruct (Qle_bool 0 x) eqn:E.
  - apply Qle_bool_iff in E; split; [exact E | intros _; exact H].
  - split; [lra | intros F; lra].
Qed.

Lemma Math_min_le_r a b : Math_min a b <= b.
Proof.
  unfold Math_min; destruct (Qle_bool a b) eqn:E.
  - apply Qle_bool_iff, E.
  - lra.
Qed.

Lemma handleMessage_in_range deviceRate c this :
  0 < deviceRate ->
  position_in_range deviceRate this ->
  position_in_range deviceRate (handleMessage c this).
Proof.
  intros Hd H; destruct c as [|a|pl r|t| | | | | |]; cbn [handleMessage]; try exact H.
  - unfold position_in_range; cbn; intros _; split; [lra | intros F; lra].
  - unfold loadSample.
    destruct (negb (initialized this)); [exact H|].
    destruct (rustProcessor this); [|exact H].
    unfold position_in_range; cbn; intros _; split; [lra | intros F; lra].
  - unfold setPlaybackState.
    destruct (negb (initialized this)); [exact H|].
    unfold position_in_range, sampleLength in *.
    destruct this as [i rp b sr p0 pos po]; cbn in *.
    destruct r, rp, pl; cbn; try exact H; intros _; split; lra.
  - unfold seek, rust_seek.
    destruct (negb (initialized this)); [exact H|].
    destruct (sampleBuffer this) as [buf|] eqn:Hbuf; [|exact H].
    destruct (Qeq_bool (sampleRate this) 0); [exact H|].
    unfold position_in_range, sampleLength; cbn; rewrite Hbuf; intros Hr.
    pose proof (step_nonneg _ _ Hd Hr) as Hs.
    apply Math_max_0_range.
    eapply Qle_lt_trans; [apply Math_min_le_r|].
    set (lim := inject_Z (Z.of_nat (length buf))).
    set (step := sampleRate this / deviceRate) in *.
    lra.
Qed.

Lemma reactions_in_range deviceRate es :
  0 < deviceRate ->
  forall this,
    position_in_range deviceRate this ->
    position_in_range deviceRate (reactions deviceRate es this).
Proof.
  intros Hd; unfold reactions; induction es as [|e es IH]; intros this H;
    cbn [fold_left]; [exact H|].
  apply IH; destruct e as [c|outputs random]; cbn [react].
  - apply handleMessage_in_range; assumption.
  - apply process_in_range; assumption.
Qed.

(** C1, as stated, fails.  A worklet playing a two-sample buffer at the
    device rate renders a stereo block of 128 frames: the position reaches
    the end at frame 2, where 0 is written and the transport is stopped, but
    frame 3 is the first sample again, not silence, in both channels; and
    when the block is finished the position equals the sample length, 2,
    which is outside [0, sampleLength). *)
Lemma end_of_sample_block_not_silent :
  let buf := [Amp 1; Amp (1 # 2)] in
  let r := rustProcessor_process 44100 two_sample_player [[block128; block128]] in
  sampleBuffer two_sample_player = Some buf
  /\ at_end buf (state_before 44100 buf two_sample_player block128 2) = true
  /\ firstn 4 (nth 0 (nth 0 (written r) []) []) = [Amp 1; Amp (1 # 2); Amp 0; Amp 1]
  /\ firstn 4 (nth 1 (nth 0 (written r) []) []) = [Amp 1; Amp (1 # 2); Amp 0; Amp 1]
  /\ isPlaying (after r) = false
  /\ playbackPosition (after r) == 2
  /\ ~ stops_and_silences 44100 buf two_sample_player block128.
Proof.
  intros buf r.
  split; [reflexivity|]. split; [vm_compute; reflexivity|].
  split; [vm_compute; reflexivity|]. split; [vm_compute; reflexivity|].
  split; [vm_compute; reflexivity|]. split; [vm_compute; reflexivity|].
  intros [H _].
  assert (H2 : (2 < length block128)%nat) by (cbn; lia).
  destruct (H 2%nat H2) as [_ Hs]; [vm_compute; reflexivity|].
  assert (H3 : (2 <= 3 < length block128)%nat) by (cbn; lia).
  specialize (Hs 3%nat H3); vm_compute in Hs; discriminate Hs.
Qed.

(** C1, amended (the worklet has no loop mode): while a block is rendered
    with playback active, at every frame [i] where the position has reached
    the end of the sample buffer the engine writes 0 to that frame, resets
    the position to 0 and stops the transport, which is still stopped when
    the block is finished.  The position is never negative and stays below
    the sample length plus one step, [sampleRate / deviceRate], unless it is
    0 (as long as the loaded rate is not negative): the block keeps that
    range, and every worklet reached from the constructor by messages and
    rendered blocks is in it. *)
Theorem render_block_stops_at_end_of_sample
    deviceRate this buf output channels others :
  0 < deviceRate ->
  sampleBuffer this = Some buf ->
  isPlaying this = true ->
  let r := rustProcessor_process deviceRate this ((output :: channels) :: others) in
  (forall i, (i < length output)%nat ->
     at_end buf (state_before deviceRate buf this output i) = true ->
     (exists output' channels',
         written r = (output' :: channels') :: others
         /\ length output' = length output
         /\ nth i output' NaN = silence)
     /\ playbackPosition (state_before deviceRate buf this output (S i)) = 0
     /\ isPlaying (state_before deviceRate buf this output (S i)) = false
     /\ isPlaying (after r) = false)
  /\ (position_in_range deviceRate this -> position_in_range deviceRate (after r))
  /\ (forall es, position_in_range deviceRate (reactions deviceRate es constructor)).
Proof.
  intros Hd Hbuf Hplay r.
  split; [|split].
  - intros i Hi Hend.
    destruct (render_block_nth deviceRate buf this output i Hi) as [Hn Hs].
    assert (Hstep : render_sample deviceRate buf
                      (state_before deviceRate buf this output i)
                    = (set_isPlaying false
                         (set_playbackPosition 0
                            (state_before deviceRate buf this output i)),
                       silence)).
    { unfold render_sample; fold (at_end buf (state_before deviceRate buf this output i)).
      rewrite Hend; reflexivity. }
    rewrite Hstep in Hn, Hs; cbn [fst snd] in Hn, Hs.
    assert (Hstop : isPlaying (fst (render_block deviceRate buf this output)) = false).
    { apply render_block_stays_stopped with (S i); rewrite Hs; reflexivity. }
    pose proof (render_block_length deviceRate buf output this) as Hlen.
    subst r; unfold rustProcessor_process; rewrite Hbuf, Hplay.
    destruct (render_block deviceRate buf this output) as [this' output'].
    cbn [fst snd after written] in *.
    split; [|rewrite Hs; repeat split; exact Hstop].
    eexists output', _; repeat split; assumption.
  - subst r; apply rustProcessor_process_in_range, Hd.
  - intros es; apply reactions_in_range; [exact Hd|].
    unfold position_in_range; cbn; intros _; split; [lra | intros F; lra].
Qed.

Lemma render_block_stops_at_end_of_sample_witness :
  isPlaying (after (rustProcessor_process 44100 two_sample_player
                      [[block128; block128]]))
  = false.
Proof.
  pose proof (render_block_stops_at_end_of_sample 44100 two_sample_player
                [Amp 1; Amp (1 # 2)] block128 [block128] []
                eq_refl eq_refl eq_refl) as H.
  destruct H as [H _].
  assert (H2 : (2 < length block128)%nat) by (cbn; lia).
  destruct (H 2%nat H2) as (_ & _ & _ & Hstop); [vm_compute; reflexivity|].
  exact Hstop.
Defined.

End RenderProps.

(** ** Envelope commands *)

Module EnvelopeProps.

Import JsWorklet EnvelopeCommands.

Lemma envelope_command_ignored (c : Command) (this : SamplerProcessor) :
  is_envelope_command c = true -> handleMessage c this = this.
Proof. destruct c; cbn; intros H; try discriminate H; reflexivity. Qed.

(** A run of events, with and without the envelope commands among them. *)
Lemma run_without_envelope_commands deviceRate (es : list Event) :
  forall this,
    reactions deviceRate (filter (fun e => negb (is_envelope_event e)) es) this
    = reactions deviceRate es this
    /\ rendered deviceRate (filter (fun e => negb (is_envelope_event e)) es) this
       = rendered deviceRate es this.
Proof.
  induction es as [|e es IH]; intros this; [split; reflexivity|].
  destruct e as [c | outputs random]; cbn [filter is_envelope_event negb].
  - destruct (is_envelope_command c) eqn:Ec; cbn [negb].
    + unfold reactions; cbn [fold_left react rendered].
      rewrite (envelope_command_ignored c this Ec). apply IH.
    + unfold reactions; cbn [fold_left react rendered]. apply IH.
  - unfold reactions; cbn [fold_left react rendered].
    destruct (IH (after (process deviceRate this outputs random))) as [I1 I2].
    split; [exact I1 | f_equal; exact I2].
Qed.

(** C4, as stated, fails.  A worklet plays a sample that is 1 in every
    frame, with an attack time of four frames and a release time of two
    frames, and was triggered two frames ago.  A release command arrives
    during the attack; two frames later the level the claim speaks of
    would be 0 and the frames silent.  The two frames rendered then are 1
    and 1: no level has ramped down. *)
Lemma release_does_not_ramp_to_zero :
  rendered_frames 44100 2
    (after (process 44100 (handleMessage CmdReleaseEnvelope full_scale_player)
                    [[repeat silence 2]] 1))
  = [Amp 1; Amp 1]
  /\ ~ release_ramps_to_zero 44100 2 2 full_scale_player.
Proof.
  assert (E : rendered_frames 44100 2
                (after (process 44100
                          (handleMessage CmdReleaseEnvelope full_scale_player)
                          [[repeat silence 2]] 1))
              = [Amp 1; Amp 1]) by (vm_compute; reflexivity).
  split; [exact E|].
  unfold release_ramps_to_zero; cbv zeta. rewrite E.
  intros H. inversion H as [|v l Hv _]. discriminate Hv.
Qed.

(** C4, amended: a trigger command and a release command, arriving at any
    time and in any state, are only logged, in both worklet files: the
    worklet object is as before.  So a run of messages and render
    callbacks leaves the same worklet and the same rendered arrays with
    the envelope commands among them as without them: the code under src/
    has no envelope stage and no level. *)
Theorem envelope_commands_only_logged :
  (forall this : SamplerProcessor,
      handleMessage CmdTriggerEnvelope this = this
      /\ handleMessage CmdReleaseEnvelope this = this)
  /\ (forall (R : Type) (this : WasmWorklet.SamplerProcessor R),
        WasmWorklet.triggerEnvelope this = this
        /\ WasmWorklet.releaseEnvelope this = this)
  /\ (forall deviceRate (es : list Event) (this : SamplerProcessor),
        reactions deviceRate (filter (fun e => negb (is_envelope_event e)) es) this
        = reactions deviceRate es this
        /\ rendered deviceRate (filter (fun e => negb (is_envelope_event e)) es) this
           = rendered deviceRate es this).
Proof.
  split; [intros this; split; apply envelope_command_ignored; reflexivity|].
  split; [intros R this; split; reflexivity|].
  intros deviceRate es this; apply run_without_envelope_commands.
Qed.

End EnvelopeProps.

(** ** Playback inside the sample *)

Module PlaybackProps.

Import JsWorklet.

Lemma inject_nat_S j : inject_Z (Z.of_nat (S j)) == inject_Z (Z.of_nat j) + 1.
Proof.
  rewrite Nat2Z.inj_succ, <- Z.add_1_r, inject_Z_plus; reflexivity.
Qed.

(** While the position stays inside the buffer, the loop reads the sample
    at the floor of a position that advances by one step per frame. *)
Lemma render_block_inside deviceRate buf :
  forall output this p,
    playbackPosition this == p ->
    (forall j, (j < length output)%nat ->
       (Qfloor (p + inject_Z (Z.of_nat j) * (sampleRate this / deviceRate))
        < Z.of_nat (length buf))%Z) ->
    let r := render_block deviceRate buf this output in
    isPlaying (fst r) = isPlaying this
    /\ playbackPosition (fst r)
       == p + inject_Z (Z.of_nat (length output)) * (sampleRate this / deviceRate)
    /\ forall i, (i < length output)%nat ->
         nth i (snd r) NaN
         = typed_get buf
             (Qfloor (p + inject_Z (Z.of_nat i) * (sampleRate this / deviceRate))).
Proof.
  induction output as [|x output IH]; intros this p Hp Hin r; subst r.
  - cbn [render_block fst snd length]; split; [reflexivity|].
    split; [rewrite Hp; change (inject_Z (Z.of_nat 0)) with 0; ring|].
    intros i Hi; inversion Hi.
  - cbn [render_block].
    assert (H0 : (Qfloor (playbackPosition this) < Z.of_nat (length buf))%Z).
    { specialize (Hin 0%nat ltac:(cbn; lia)).
      rewrite (Qfloor_comp (playbackPosition this)
                 (p + inject_Z (Z.of_nat 0) * (sampleRate this / deviceRate)));
        [exact Hin|].
      rewrite Hp; change (inject_Z (Z.of_nat 0)) with 0; ring. }
    unfold render_sample, Math_floor.
    destruct (Z.leb_spec (Z.of_nat (length buf)) (Qfloor (playbackPosition this)))
      as [Hge|_]; [lia|].
    set (this1 := set_playbackPosition
                    (playbackPosition this + sampleRate this / deviceRate) this).
    specialize (IH this1 (p + sampleRate this / deviceRate)).
    destruct IH as (I1 & I2 & I3).
    { subst this1; cbn; rewrite Hp; reflexivity. }
    { intros j Hj; specialize (Hin (S j) ltac:(cbn; lia)).
      subst this1; cbn [sampleRate set_playbackPosition].
      rewrite (Qfloor_comp _
                 (p + inject_Z (Z.of_nat (S j)) * (sampleRate this / deviceRate)));
        [exact Hin|].
      rewrite inject_nat_S; ring. }
    destruct (render_block deviceRate buf this1 output) as [this2 rest'].
    cbn [fst snd] in *.
    split; [exact I1|]. split.
    + rewrite I2; subst this1; cbn [sampleRate set_playbackPosition length].
      rewrite inject_nat_S; ring.
    + intros [|i] Hi; cbn [nth].
      * f_equal; apply Qfloor_comp.
        rewrite Hp; change (inject_Z (Z.of_nat 0)) with 0; ring.
      * rewrite I3 by (cbn in Hi; lia).
        subst this1; cbn [sampleRate set_playbackPosition].
        f_equal; apply Qfloor_comp; rewrite inject_nat_S; ring.
Qed.

(** X1: where the additions of the loop are exact, a block rendered with
    playback active inside the sample buffer is a nearest-neighbour
    resampling of the buffer.  The loop adds [step = sampleRate /
    deviceRate] to the position once a frame, in binary64: when the step
    and every position [position + j * step] of the block are numbers that
    binary64 holds, no addition rounds, frame [i] is the sample at index
    [floor(position + i * step)], the position has advanced by one step
    per frame when the block is finished, and playback is still active.
    (With a step that binary64 does not hold, such as 4410 / 44100, the
    accumulated position drifts from [position + i * step] and the frame
    read can be the neighbour; see [Binary64.accumulation_rounds].) *)
Theorem playback_reads_sample_at_floor
    deviceRate this buf output channels others :
  sampleBuffer this = Some buf ->
  isPlaying this = true ->
  binary64_exact (sampleRate this / deviceRate) ->
  (forall j, (j <= length output)%nat ->
     binary64_exact (playbackPosition this
                     + inject_Z (Z.of_nat j) * (sampleRate this / deviceRate))) ->
  (forall j, (j < length output)%nat ->
     (Qfloor (playbackPosition this
              + inject_Z (Z.of_nat j) * (sampleRate this / deviceRate))
      < Z.of_nat (length buf))%Z) ->
  let r := rustProcessor_process deviceRate this ((output :: channels) :: others) in
  isPlaying (after r) = true
  /\ playbackPosition (after r)
     == playbackPosition this
        + inject_Z (Z.of_nat (length output)) * (sampleRate this / deviceRate)
  /\ exists output' channels',
       written r = (output' :: channels') :: others
       /\ length output' = length output
       /\ forall i, (i < length output)%nat ->
            nth i output' NaN
            = typed_get buf
                (Qfloor (playbackPosition this
                         + inject_Z (Z.of_nat i) * (sampleRate this / deviceRate))).
Proof.
  intros Hbuf Hplay _ _ Hin r; subst r.
  destruct (render_block_inside deviceRate buf output this (playbackPosition this)
              (Qeq_refl _) Hin) as (H1 & H2 & H3).
  pose proof (RenderProps.render_block_length deviceRate buf output this) as Hlen.
  unfold rustProcessor_process; rewrite Hbuf, Hplay.
  destruct (render_block deviceRate buf this output) as [this' output'].
  cbn [fst snd after written] in *.
  split; [congruence|]. split; [exact H2|].
  eexists output', _; repeat split; assumption.
Qed.

Lemma playback_reads_sample_at_floor_witness :
  let half_rate_player := PlaybackExamples.half_rate_player in
  binary64_exact (sampleRate half_rate_player / 44100)
  /\ isPlaying (after (rustProcessor_process 44100 half_rate_player
                         [[[silence; silence; silence]]])) = true
  /\ playbackPosition (after (rustProcessor_process 44100 half_rate_player
                                [[[silence; silence; silence]]])) == 3 # 2.
Proof.
  intros half_rate_player.
  assert (Hstep : binary64_exact (sampleRate half_rate_player / 44100)).
  { exists 1%Z, 1%nat. split; [reflexivity|]. split; [lia | reflexivity]. }
  assert (Hsum : forall j, (j <= 3)%nat ->
            binary64_exact (playbackPosition half_rate_player
                            + inject_Z (Z.of_nat j)
                              * (sampleRate half_rate_player / 44100))).
  { intros j Hj. exists (Z.of_nat j), 1%nat.
    split; [lia|]. split; [lia|].
    do 4 (destruct j as [|j]; [reflexivity|]). lia. }
  split; [exact Hstep|].
  destruct (playback_reads_sample_at_floor 44100 half_rate_player
              [Amp 1; Amp (1 # 2)] [silence; silence; silence] [] []
              eq_refl eq_refl Hstep Hsum) as [H1 [H2 _]].
  { intros j Hj. do 3 (destruct j as [|j]; [reflexivity|]). cbn in Hj; lia. }
  split; [exact H1|]. rewrite H2. reflexivity.
Defined.

Lemma copy_channel_same_length (output outputRight : Channel) :
  length outputRight = length output ->
  copy_channel output outputRight = output.
Proof.
  intros H; unfold copy_channel.
  rewrite H, firstn_all, <- H, skipn_all; apply app_nil_r.
Qed.

(** X2: with playback active, the second channel of the first output
    receives a copy of the first channel (the mono sample is mirrored to
    stereo), and every further channel and every further output is left as
    it was. *)
Theorem second_channel_mirrors_first
    deviceRate this buf output outputRight more others :
  sampleBuffer this = Some buf ->
  isPlaying this = true ->
  length outputRight = length output ->
  exists output',
    written (rustProcessor_process deviceRate this
               ((output :: outputRight :: more) :: others))
    = (output' :: output' :: more) :: others
    /\ length output' = length output
    /\ output' = snd (render_block deviceRate buf this output).
Proof.
  intros Hbuf Hplay Hlen.
  pose proof (RenderProps.render_block_length deviceRate buf output this) as Hl.
  unfold rustProcessor_process; rewrite Hbuf, Hplay.
  destruct (render_block deviceRate buf this output) as [this' output'].
  cbn [fst snd written] in *.
  exists output'; rewrite copy_channel_same_length by congruence.
  repeat split; assumption.
Qed.

Lemma second_channel_mirrors_first_witness :
  written (rustProcessor_process 44100 two_sample_player
             [[[silence; silence]; [NaN; NaN]; [NaN]]; [[NaN]]])
  = [[[Amp 1; Amp (1 # 2)]; [Amp 1; Amp (1 # 2)]; [NaN]]; [[NaN]]].
Proof.
  destruct (second_channel_mirrors_first 44100 two_sample_player
              [Amp 1; Amp (1 # 2)] [silence; silence] [NaN; NaN] [[NaN]] [[[NaN]]]
              eq_refl eq_refl eq_refl) as (o & Hw & _ & Ho).
  rewrite Hw, Ho; reflexivity.
Defined.

(** The inner call leaves the port alone. *)
Lemma rustProcessor_process_port deviceRate this outputs :
  port (after (rustProcessor_process deviceRate this outputs)) = port this.
Proof.
  unfold rustProcessor_process.
  destruct (sampleBuffer this) as [buf|]; [|reflexivity].
  destruct (isPlaying this); [|reflexivity].
  destruct outputs as [|[|output channels] others]; try reflexivity.
  pose proof (RenderProps.render_block_frame deviceRate buf output this)
    as (_ & _ & Hp & _).
  destruct (render_block deviceRate buf this output); exact Hp.
Qed.

(** What [process] of the JavaScript worklet amounts to once the worklet is
    initialized: the inner call, followed by one [levels] message when the
    draw is below 0.05 and the first output has a first channel. *)
Lemma process_initialized_cases deviceRate this outputs random :
  initialized this = true -> rustProcessor this = true ->
  let inner := rustProcessor_process deviceRate this outputs in
  let r := process deviceRate this outputs random in
  written r = written inner
  /\ (after r = after inner
      \/ exists output0 output,
           Qltb random (5 # 100) = true
           /\ nth_error (written inner) 0 = Some output0
           /\ nth_error output0 0 = Some output
           /\ after r = postMessage (MsgLevels output) (after inner))
  /\ (Qltb random (5 # 100) = true ->
      forall output channels others,
        written inner = (output :: channels) :: others ->
        after r = postMessage (MsgLevels output) (after inner)).
Proof.
  intros Hi Hr inner r; subst inner r.
  unfold process, Boundary.process, Boundary.process_try; rewrite Hi, Hr.
  cbn [negb orb].
  rewrite BoundaryProps.rustProcessor_process_returns.
  destruct (Qltb random (5 # 100)) eqn:Hd.
  - destruct (nth_error (written (rustProcessor_process deviceRate this outputs)) 0)
      as [output0|] eqn:E0.
    + destruct (nth_error output0 0) as [output|] eqn:E1.
      * cbn. split; [reflexivity|]. split.
        -- right; exists output0, output; repeat split; assumption.
        -- intros _ o cs others Hw; rewrite Hw in E0; cbn in E0.
           injection E0 as <-; cbn in E1; injection E1 as <-; reflexivity.
      * rewrite BoundaryProps.rustProcessor_process_returns.
        split; [reflexivity|]. split; [left; reflexivity|].
        intros _ o cs others Hw; rewrite Hw in E0; cbn in E0.
        injection E0 as <-; discriminate E1.
    + cbn. split; [reflexivity|]. split; [left; reflexivity|].
      intros _ o cs others Hw; rewrite Hw in E0; discriminate E0.
  - rewrite BoundaryProps.rustProcessor_process_returns.
    split; [reflexivity|]. split; [left; reflexivity|]. discriminate.
Qed.

(** X3: [process] posts at most one message per block, and only a [levels]
    message: nothing when the draw of [Math.random()] is 0.05 or more, and,
    on an initialized worklet whose first output has a first channel, exactly
    one [levels] message computed from that channel as rendered when the
    draw is below 0.05. *)
Theorem level_report_is_throttled deviceRate this outputs random :
  let r := process deviceRate this outputs random in
  (port (after r) = port this
   \/ exists block, port (after r) = port this ++ [MsgLevels block])
  /\ (5 # 100 <= random -> port (after r) = port this)
  /\ (initialized this = true -> rustProcessor this = true ->
      random < 5 # 100 ->
      forall output channels others,
        written r = (output :: channels) :: others ->
        port (after r) = port this ++ [MsgLevels output]).
Proof.
  intros r; subst r.
  destruct (initialized this) eqn:Hi; [destruct (rustProcessor this) eqn:Hr|].
  - destruct (process_initialized_cases deviceRate this outputs random Hi Hr)
      as (Hw & Hcase & Hlev).
    pose proof (rustProcessor_process_port deviceRate this outputs) as Hp.
    split; [|split].
    + destruct Hcase as [->|(o0 & o & _ & _ & _ & ->)].
      * left; exact Hp.
      * right; exists o; cbn; rewrite Hp; reflexivity.
    + intros Hge; apply NumberFacts.Qltb_ge in Hge.
      destruct Hcase as [->|(o0 & o & Hlt & _)]; [exact Hp | congruence].
    + intros _ _ Hlt o cs others Hwr; apply NumberFacts.Qltb_lt in Hlt.
      rewrite Hw in Hwr; rewrite (Hlev Hlt o cs others Hwr); cbn.
      rewrite Hp; reflexivity.
  - unfold process, Boundary.process; rewrite Hi, Hr; cbn.
    split; [left; reflexivity|]. split; [reflexivity|discriminate].
  - unfold process, Boundary.process; rewrite Hi; cbn.
    split; [left; reflexivity|]. split; [reflexivity|discriminate].
Qed.

(** X4: a worklet that has no sample or is not playing renders silence and
    does not move: every sample of every channel of every output is 0, the
    arrays keep their lengths, and the sample, its rate, the transport flag
    and the position are unchanged, whatever the draw. *)
Theorem idle_engine_renders_silence deviceRate this outputs random :
  sampleBuffer this = None \/ isPlaying this = false ->
  let r := process deviceRate this outputs random in
  written r = fill_silence outputs
  /\ all_silent (written r)
  /\ shape (written r) = shape outputs
  /\ sampleBuffer (after r) = sampleBuffer this
  /\ sampleRate (after r) = sampleRate this
  /\ isPlaying (after r) = isPlaying this
  /\ playbackPosition (after r) = playbackPosition this.
Proof.
  intros Hidle r; subst r.
  assert (Hinner : rustProcessor_process deviceRate this outputs
                   = mkOutcome this (fill_silence outputs) (Return true)).
  { unfold rustProcessor_process.
    destruct Hidle as [-> | Hp]; [reflexivity|].
    rewrite Hp; destruct (sampleBuffer this); reflexivity. }
  assert (Hw : written (process deviceRate this outputs random)
               = fill_silence outputs
               /\ (after (process deviceRate this outputs random) = this
                   \/ exists m, after (process deviceRate this outputs random)
                                = postMessage m this)).
  { destruct (initialized this) eqn:Hi; [destruct (rustProcessor this) eqn:Hr|].
    - destruct (process_initialized_cases deviceRate this outputs random Hi Hr)
        as (Hw & Hcase & _).
      rewrite Hinner in *; cbn [written after] in *.
      split; [exact Hw|].
      destruct Hcase as [->|(o0 & o & _ & _ & _ & ->)];
        [left; reflexivity | right; eexists; reflexivity].
    - unfold process, Boundary.process; rewrite Hi, Hr; cbn.
      split; [reflexivity | left; reflexivity].
    - unfold process, Boundary.process; rewrite Hi; cbn.
      split; [reflexivity | left; reflexivity]. }
  destruct Hw as [-> Hafter].
  split; [reflexivity|].
  split; [apply BoundaryProps.fill_silence_all_silent|].
  split; [apply BoundaryProps.fill_silence_shape|].
  destruct Hafter as [->|(m & ->)]; repeat split.
Qed.

Lemma idle_engine_renders_silence_witness :
  written (process 44100 two_sample_holder [[[Amp 1; NaN]; [Amp 1]]] 0)
  = [[[silence; silence]; [silence]]].
Proof.
  exact (proj1 (idle_engine_renders_silence 44100 two_sample_holder
                  [[[Amp 1; NaN]; [Amp 1]]] 0 (or_intror eq_refl))).
Defined.

(** X5: before [init], every message other than [init] is ignored: the
    worklet object is unchanged and nothing is posted. *)
Theorem uninitialized_worklet_ignores_commands cs this :
  initialized this = false ->
  Forall (fun c => c <> CmdInit) cs ->
  handleMessages cs this = this.
Proof.
  intros Hi; unfold handleMessages.
  induction cs as [|c cs IH]; intros Hcs; [reflexivity|].
  inversion Hcs as [|c' cs' Hc Hrest]; subst.
  cbn [fold_left].
  assert (E : handleMessage c this = this).
  { destruct c; cbn [handleMessage]; try reflexivity.
    - contradiction Hc; reflexivity.
    - unfold loadSample; rewrite Hi; reflexivity.
    - unfold setPlaybackState; rewrite Hi; reflexivity.
    - unfold seek; rewrite Hi; reflexivity. }
  rewrite E; apply IH, Hrest.
Qed.

Lemma uninitialized_worklet_ignores_commands_witness :
  handleMessages
    [CmdLoadSample (mkAudioData [Amp 1] None 44100);
     CmdSetPlaybackState true false; CmdSeek 1]
    constructor
  = constructor.
Proof.
  apply (uninitialized_worklet_ignores_commands _ constructor eq_refl).
  repeat constructor; discriminate.
Defined.

Lemma Qle_bool_false a b : Qle_bool a b = false -> b < a.
Proof.
  intros E; apply Qnot_le_lt; intros F; apply Qle_bool_iff in F; congruence.
Qed.

(** [Math.max(0, Math.min(x, lim))]. *)
Lemma clamp_from_zero x lim :
  let c := Math_max 0 (Math_min x lim) in
  (0 <= x -> x <= lim -> c == x)
  /\ (x < 0 \/ lim < 0 -> c == 0)
  /\ (lim < x -> 0 <= lim -> c == lim)
  /\ 0 <= c
  /\ (0 <= lim -> c <= lim).
Proof.
  unfold Math_max, Math_min.
  destruct (Qle_bool x lim) eqn:E1;
    [apply Qle_bool_iff in E1 | apply Qle_bool_false in E1].
  - destruct (Qle_bool 0 x) eqn:E2;
      [apply Qle_bool_iff in E2 | apply Qle_bool_false in E2];
      (split; [intros; lra|]); (split; [intros [?|?]; lra|]);
      (split; [intros; lra|]); (split; [lra|]); intros; lra.
  - destruct (Qle_bool 0 lim) eqn:E2;
      [apply Qle_bool_iff in E2 | apply Qle_bool_false in E2];
      (split; [intros; lra|]); (split; [intros [?|?]; lra|]);
      (split; [intros; lra|]); (split; [lra|]); intros; lra.
Qed.

(** X6: [seek(time)] on an initialized worklet with a sample and a rate that
    is not 0, for a time whose product with the rate binary64 holds (so
    that the product the code floors is the exact one), puts the position
    on a whole sample index inside the buffer: it is
    [floor(time * sampleRate)] when that index exists, 0 when it is
    negative or the buffer is empty, and the last index when it is past the
    end; the sample, its rate and the transport flag are unchanged.  (A
    product that rounds up to a whole number, as at the binary64 number
    nearest to 3 / 44100, is floored one higher by the code; see
    [Binary64.accumulation_rounds].) *)
Theorem seek_clamps_to_buffer time this buf :
  initialized this = true ->
  sampleBuffer this = Some buf ->
  ~ sampleRate this == 0 ->
  binary64_exact (time * sampleRate this) ->
  let target := Math_floor (time * sampleRate this) in
  let last := (Z.of_nat (length buf) - 1)%Z in
  let p := playbackPosition (seek time this) in
  ((0 <= target <= last)%Z -> p == inject_Z target)
  /\ ((target < 0)%Z \/ buf = [] -> p == 0)
  /\ ((last < target)%Z -> buf <> [] -> p == inject_Z last)
  /\ 0 <= p
  /\ (buf <> [] -> p <= inject_Z last)
  /\ sampleBuffer (seek time this) = Some buf
  /\ sampleRate (seek time this) = sampleRate this
  /\ isPlaying (seek time this) = isPlaying this.
Proof.
  intros Hi Hbuf Hrate _ target last p.
  assert (Hz : Qeq_bool (sampleRate this) 0 = false).
  { destruct (Qeq_bool (sampleRate this) 0) eqn:E; [|reflexivity].
    apply Qeq_bool_iff in E; contradiction. }
  assert (Hseek : seek time this
                  = set_playbackPosition
                      (Math_max 0 (Math_min (inject_Z target)
                                            (inject_Z (Z.of_nat (length buf)) - 1)))
                      this).
  { unfold seek, rust_seek; rewrite Hi, Hbuf, Hz; reflexivity. }
  subst p; rewrite Hseek; cbn [playbackPosition sampleBuffer sampleRate isPlaying
                                 set_playbackPosition].
  assert (Hlast : inject_Z (Z.of_nat (length buf)) - 1 == inject_Z last).
  { subst last; unfold Z.sub; rewrite inject_Z_plus; reflexivity. }
  assert (Hemp : buf = [] -> inject_Z last == -1)
    by (intros ->; reflexivity).
  assert (Hne : buf <> [] -> 0 <= inject_Z last).
  { intros Hnn; change 0 with (inject_Z 0); rewrite <- Zle_Qle.
    subst last; destruct buf; [congruence | cbn [length]; lia]. }
  clearbody target last.
  destruct (clamp_from_zero (inject_Z target)
              (inject_Z (Z.of_nat (length buf)) - 1))
    as (C1 & C2 & C3 & C4 & C5).
  set (c := Math_max 0 (Math_min (inject_Z target)
                                 (inject_Z (Z.of_nat (length buf)) - 1))) in *.
  split; [|split; [|split; [|split; [|split; [|repeat split; assumption]]]]].
  - intros [Hlo Hhi]; apply C1.
    + change 0 with (inject_Z 0); rewrite <- Zle_Qle; exact Hlo.
    + rewrite Hlast, <- Zle_Qle; exact Hhi.
  - intros [Hneg|He]; apply C2.
    + left; change 0 with (inject_Z 0); rewrite <- Zlt_Qlt; exact Hneg.
    + right; rewrite Hlast, (Hemp He); reflexivity.
  - intros Hlt Hnn; rewrite <- Hlast; apply C3.
    + rewrite Hlast, <- Zlt_Qlt; exact Hlt.
    + rewrite Hlast; apply Hne, Hnn.
  - exact C4.
  - intros Hnn; rewrite <- Hlast; apply C5; rewrite Hlast; apply Hne, Hnn.
Qed.

Lemma seek_clamps_to_buffer_witness :
  binary64_exact (1 * sampleRate two_sample_holder)
  /\ binary64_exact ((1 # 32768) * sampleRate two_sample_holder)
  /\ playbackPosition (seek 1 two_sample_holder) == 1
  /\ playbackPosition (seek (1 # 32768) two_sample_holder) == 1.
Proof.
  assert (E1 : binary64_exact (1 * sampleRate two_sample_holder)).
  { exists 44100%Z, 0%nat. split; [reflexivity|]. split; [lia | reflexivity]. }
  assert (E2 : binary64_exact ((1 # 32768) * sampleRate two_sample_holder)).
  { exists 11025%Z, 13%nat. split; [reflexivity|]. split; [lia | reflexivity]. }
  split; [exact E1|]. split; [exact E2|].
  pose proof (seek_clamps_to_buffer 1 two_sample_holder [Amp 1; Amp (1 # 2)]
                eq_refl eq_refl ltac:(discriminate) E1) as H1.
  pose proof (seek_clamps_to_buffer (1 # 32768) two_sample_holder
                [Amp 1; Amp (1 # 2)] eq_refl eq_refl ltac:(discriminate) E2) as H2.
  cbv zeta in H1, H2.
  destruct H1 as (_ & _ & H1 & _); destruct H2 as (H2 & _).
  split.
  - apply H1; [reflexivity | discriminate].
  - apply H2; split; discriminate.
Defined.

End PlaybackProps.

(** ** Frames through the buffer *)

Module DecoderMoreProps.

Import Decoder DecoderMore.

Lemma call_conserves this c :
  closeLog (call this c) ++ frameBuffer (call this c)
  = closeLog this ++ frameBuffer this ++ added_frames [c].
Proof.
  destruct c; cbn [call added_frames flat_map app].
  - destruct (BufferProps.addFrameToBuffer_spec frame this) as (-> & -> & _).
    rewrite <- app_assoc, firstn_skipn; reflexivity.
  - cbn; rewrite ?app_nil_r; reflexivity.
  - cbn; rewrite ?app_nil_r; reflexivity.
  - cbn; rewrite ?app_nil_r; reflexivity.
  - cbn; rewrite ?app_nil_r; reflexivity.
Qed.

(** X7: no frame is lost and none is closed twice.  After any sequence of
    pushes, clears, seeks, time updates and resets on a new decoder, the
    frames whose [close()] was called, followed by the frames still in the
    buffer, are exactly the frames pushed so far, in the order they were
    pushed. *)
Theorem frames_are_closed_or_buffered calls :
  closeLog (run calls constructor) ++ frameBuffer (run calls constructor)
  = added_frames calls.
Proof.
  assert (H : forall this,
             closeLog (run calls this) ++ frameBuffer (run calls this)
             = closeLog this ++ frameBuffer this ++ added_frames calls).
  { unfold run; induction calls as [|c calls IH]; intros this; cbn [fold_left].
    - cbn; rewrite app_nil_r; reflexivity.
    - rewrite IH, app_assoc, call_conserves.
      assert (E : added_frames (c :: calls)
                  = added_frames [c] ++ added_frames calls)
        by (unfold added_frames; cbn [flat_map]; rewrite app_nil_r; reflexivity).
      rewrite E, <- !app_assoc; reflexivity. }
  rewrite H; reflexivity.
Qed.

Lemma push_all_spec frames :
  forall this,
    (length (frameBuffer this) <= maxBufferSize this)%nat ->
    let all := frameBuffer this ++ frames in
    let n := (length all - maxBufferSize this)%nat in
    frameBuffer (run (map AddFrame frames) this) = skipn n all
    /\ closeLog (run (map AddFrame frames) this) = closeLog this ++ firstn n all.
Proof.
  unfold run; induction frames as [|f frames IH]; intros this Hb;
    cbn [map fold_left call].
  - rewrite app_nil_r.
    replace (length (frameBuffer this) - maxBufferSize this)%nat with 0%nat by lia.
    cbn; rewrite app_nil_r; split; reflexivity.
  - destruct (BufferProps.addFrameToBuffer_spec f this) as (Eb & Ec & Em).
    pose proof (BufferProps.addFrameToBuffer_bounded f this) as Hb'.
    rewrite <- Em in Hb'.
    destruct (IH (addFrameToBuffer f this) Hb') as [I1 I2].
    rewrite I1, I2, Eb, Ec, Em; clear I1 I2 Eb Ec IH.
    set (k := (length (frameBuffer this) + 1 - maxBufferSize this)%nat).
    set (L := frameBuffer this ++ [f]).
    assert (Hk : (k <= length L)%nat)
      by (subst k L; rewrite length_app; cbn; lia).
    assert (EL : frameBuffer this ++ f :: frames = L ++ frames)
      by (subst L; rewrite <- app_assoc; reflexivity).
    assert (Es : skipn k L ++ frames = skipn k (L ++ frames)).
    { rewrite skipn_app; replace (k - length L)%nat with 0%nat by lia.
      reflexivity. }
    assert (Ef : firstn k L = firstn k (L ++ frames)).
    { rewrite firstn_app; replace (k - length L)%nat with 0%nat by lia.
      cbn; rewrite app_nil_r; reflexivity. }
    rewrite EL, Es, Ef.
    assert (Elen : (length (skipn k (L ++ frames)) - maxBufferSize this + k
                    = length (L ++ frames) - maxBufferSize this)%nat).
    { rewrite length_skipn, !length_app.
      subst k L; rewrite length_app; cbn; lia. }
    split.
    + rewrite skipn_skipn, Elen; reflexivity.
    + rewrite <- app_assoc; f_equal.
      rewrite <- Elen.
      set (m := (length (skipn k (L ++ frames)) - maxBufferSize this)%nat).
      rewrite Nat.add_comm, <- (firstn_skipn k (firstn (k + m) (L ++ frames))).
      f_equal.
      * rewrite firstn_firstn; f_equal; lia.
      * rewrite skipn_firstn_comm; f_equal; lia.
Qed.

(** X8: the buffer holds the most recent frames.  After [n] frames are
    pushed into a new decoder, the buffer is the last [min n 30] of them in
    push order, and the frames closed are the [n - 30] oldest, in order. *)
Theorem buffer_keeps_most_recent_frames frames :
  let this := run (map AddFrame frames) constructor in
  frameBuffer this = skipn (length frames - 30) frames
  /\ closeLog this = firstn (length frames - 30) frames.
Proof.
  intros this; subst this.
  destruct (push_all_spec frames constructor) as [H1 H2]; [cbn; lia|].
  exact (conj H1 H2).
Qed.

(** X9: a frame stamped with the query time is found.  When some buffered
    frame's timestamp is exactly the query time in microseconds,
    [getFrameAtTime] returns a frame with that timestamp; in particular,
    right after [captureFrame] on a decoding manager with room for a frame,
    asking for the video element's time returns a frame stamped with that
    time. *)
Theorem frame_at_its_own_time_is_found :
  (forall time this frame,
      In frame (frameBuffer this) ->
      timestamp frame == time * 1000000 ->
      exists found,
        getFrameAtTime time this = Some found
        /\ In found (frameBuffer this)
        /\ timestamp found == time * 1000000)
  /\ (forall pixels w h frameRate this,
        isDecoding this = true ->
        (0 < maxBufferSize this)%nat ->
        exists found,
          getFrameAtTime (videoElementTime this)
                         (captureFrame pixels w h frameRate this) = Some found
          /\ timestamp found == videoElementTime this * 1000000).
Proof.
  assert (Hfind : forall time this frame,
             In frame (frameBuffer this) ->
             timestamp frame == time * 1000000 ->
             exists found,
               getFrameAtTime time this = Some found
               /\ In found (frameBuffer this)
               /\ timestamp found == time * 1000000).
  { intros time this frame Hin Hts; unfold getFrameAtTime.
    pose proof (NearestProps.closest_fold (time * 1000000) (frameBuffer this) []
                  (None, None) eq_refl) as H.
    cbn [app] in H; unfold nearest_so_far in H.
    destruct (fold_left (closest_step (time * 1000000)) (frameBuffer this)
                (None, None)) as [[g|] [d|]]; cbn [fst]; try contradiction.
    - destruct H as (Hd & Hg & Hmin).
      exists g; split; [reflexivity|]. split; [exact Hg|].
      specialize (Hmin frame Hin); rewrite Hd in Hmin.
      assert (Hz : Qabs (timestamp frame - time * 1000000) == 0)
        by (rewrite Hts; unfold Qminus; rewrite Qplus_opp_r; reflexivity).
      rewrite Hz in Hmin.
      pose proof (Qabs_nonneg (timestamp g - time * 1000000)) as Hnn.
      assert (Ha : Qabs (timestamp g - time * 1000000) == 0) by lra.
      pose proof (Qle_Qabs (timestamp g - time * 1000000)) as Hle.
      pose proof (Qle_Qabs (- (timestamp g - time * 1000000))) as Hle'.
      rewrite Qabs_opp in Hle'; lra.
    - rewrite H in Hin; contradiction. }
  split; [exact Hfind|].
  intros pixels w h frameRate this Hdec Hmax.
  set (frame := mkFrame (videoElementTime this * 1000000) (1000000 / frameRate)
                        w h pixels).
  assert (Hc : captureFrame pixels w h frameRate this = addFrameToBuffer frame this)
    by (unfold captureFrame; rewrite Hdec; reflexivity).
  rewrite Hc.
  destruct (Hfind (videoElementTime this) (addFrameToBuffer frame this) frame)
    as (found & Hf & _ & Hts).
  - destruct (BufferProps.addFrameToBuffer_spec frame this) as (-> & _).
    set (n := (length (frameBuffer this) + 1 - maxBufferSize this)%nat).
    assert (Hn : (n <= length (frameBuffer this))%nat) by (subst n; lia).
    rewrite skipn_app; apply in_or_app; right.
    replace (n - length (frameBuffer this))%nat with 0%nat by lia.
    left; reflexivity.
  - reflexivity.
  - exists found; split; assumption.
Qed.

Lemma frame_at_its_own_time_is_found_witness :
  exists found,
    getFrameAtTime 1 (run [AddFrame frame_at_0s; AddFrame frame_at_1s] constructor)
    = Some found
    /\ timestamp found == 1 * 1000000.
Proof.
  destruct (proj1 frame_at_its_own_time_is_found 1
              (run [AddFrame frame_at_0s; AddFrame frame_at_1s] constructor)
              frame_at_1s (or_intror (or_introl eq_refl)) ltac:(reflexivity))
    as (found & Hf & _ & Hts).
  exists found; split; assumption.
Defined.

End DecoderMoreProps.

(** ** Resynchronisation, metrics and presentation *)

Module SyncMoreProps.

Import Decoder Sync SyncMore.

(** X10: a resync leaves [videoDecoder.currentTime] as it was, so a tick
    that comes before the video element's [timeupdate] sees the same drift
    and seeks again; once [timeupdate] has copied the element's time, a tick
    at the same audio time inside the video's duration finds no drift and
    issues no seek, and the buffer stays empty in between. *)
Theorem resync_settles_after_timeupdate config vd audioTime now lastSyncTime :
  0 <= maxTimeDifference config ->
  maxTimeDifference config < Qabs (audioTime - currentTime vd) ->
  0 <= audioTime -> audioTime <= duration vd ->
  let tick d := fst (syncAudioVideo config (Some d) audioTime now lastSyncTime) in
  tick vd = Some (seek audioTime vd)
  /\ currentTime (seek audioTime vd) = currentTime vd
  /\ tick (seek audioTime vd) = Some (seek audioTime (seek audioTime vd))
  /\ seekLog (seek audioTime (seek audioTime vd))
     = seekLog vd ++ [audioTime; audioTime]
  /\ currentTime (handleTimeUpdate (seek audioTime vd)) == audioTime
  /\ tick (handleTimeUpdate (seek audioTime vd))
     = Some (handleTimeUpdate (seek audioTime vd))
  /\ frameBuffer (handleTimeUpdate (seek audioTime vd)) = [].
Proof.
  intros Hmax Hdrift Hlo Hhi tick; subst tick.
  assert (Hseek : forall d, currentTime d = currentTime vd ->
            fst (syncAudioVideo config (Some d) audioTime now lastSyncTime)
            = Some (seek audioTime d)).
  { intros d Hd; unfold syncAudioVideo; cbn [fst]; rewrite Hd.
    apply NumberFacts.Qltb_lt in Hdrift; rewrite Hdrift; reflexivity. }
  split; [apply Hseek; reflexivity|].
  split; [reflexivity|].
  split; [apply Hseek; reflexivity|].
  split; [cbn; rewrite <- app_assoc; reflexivity|].
  assert (Hct : currentTime (handleTimeUpdate (seek audioTime vd)) == audioTime).
  { cbn [handleTimeUpdate seek clearFrameBuffer currentTime videoElementTime duration].
    apply (PlaybackProps.clamp_from_zero audioTime (duration vd)); assumption. }
  split; [exact Hct|].
  split; [|reflexivity].
  unfold syncAudioVideo; cbn [fst].
  assert (Hle : Qabs (audioTime - currentTime (handleTimeUpdate (seek audioTime vd)))
                <= maxTimeDifference config).
  { rewrite Hct; unfold Qminus; rewrite Qplus_opp_r; exact Hmax. }
  apply NumberFacts.Qltb_ge in Hle; rewrite Hle; reflexivity.
Qed.

Lemma resync_settles_after_timeupdate_witness :
  option_map seekLog
    (fst (syncAudioVideo default_config
            (Some (handleTimeUpdate (seek 10 (decoder_at (985 # 100))))) 10 0 0))
  = Some [10].
Proof.
  pose proof (resync_settles_after_timeupdate default_config
                (decoder_at (985 # 100)) 10 0 0
                ltac:(discriminate) eq_refl ltac:(discriminate) ltac:(discriminate))
    as H.
  cbv zeta in H; destruct H as (_ & _ & _ & _ & _ & H & _).
  rewrite H; reflexivity.
Defined.

(** X11: the metrics and the resync agree and the quality is a percentage.
    With a decoder and a positive threshold, [syncQuality] lies between 0
    and 100, is 100 exactly when audio and video times are equal and 0
    exactly when the drift is at least the threshold; [inSync] is false
    exactly when [syncAudioVideo] seeks on the same times, and then the
    quality is 0. *)
Theorem metrics_agree_with_resync config vd audioTime now lastSyncTime :
  0 < maxTimeDifference config ->
  let m := calculateSyncMetrics config (Some vd) audioTime in
  let resynced := fst (syncAudioVideo config (Some vd) audioTime now lastSyncTime) in
  0 <= syncQuality m /\ syncQuality m <= 100
  /\ (syncQuality m == 100 <-> audioTime == currentTime vd)
  /\ (syncQuality m == 0
      <-> maxTimeDifference config <= Qabs (audioTime - currentTime vd))
  /\ (inSync m = true -> resynced = Some vd)
  /\ (inSync m = false -> resynced = Some (seek audioTime vd) /\ syncQuality m == 0).
Proof.
  intros Hpos m resynced; subst m resynced.
  unfold calculateSyncMetrics, syncAudioVideo; cbn [syncQuality inSync fst].
  set (d := Qabs (audioTime - currentTime vd)).
  set (mx := maxTimeDifference config) in *.
  assert (Hd : 0 <= d) by apply Qabs_nonneg.
  assert (Hq : d / mx * mx == d) by (field; lra).
  assert (Hq0 : 0 <= d / mx) by (apply Qle_shift_div_l; lra).
  assert (Hd0 : d == 0 <-> audioTime == currentTime vd).
  { subst d; split; intros H.
    - pose proof (Qle_Qabs (audioTime - currentTime vd)) as H1.
      pose proof (Qle_Qabs (- (audioTime - currentTime vd))) as H2.
      rewrite Qabs_opp in H2; lra.
    - rewrite H; unfold Qminus; rewrite Qplus_opp_r; reflexivity. }
  assert (Hlt : forall x, d / mx < x <-> d < x * mx).
  { intros x; split; intros H.
    - rewrite <- Hq; apply Qmult_lt_r; assumption.
    - apply (Qmult_lt_r _ _ mx); [assumption | rewrite Hq; exact H]. }
  set (q := d / mx) in *.
  assert (Hmaxv : Math_max 0 (100 - q * 100) == 100 - q * 100 /\ q <= 1
                  \/ Math_max 0 (100 - q * 100) == 0 /\ 1 <= q).
  { unfold Math_max; destruct (Qle_bool 0 (100 - q * 100)) eqn:E.
    - apply Qle_bool_iff in E; left; split; [reflexivity | lra].
    - apply PlaybackProps.Qle_bool_false in E; right; split; [reflexivity | lra]. }
  assert (Hq1 : q < 1 <-> d < mx).
  { rewrite (Hlt 1); split; intros H; lra. }
  assert (Hq1' : 1 <= q <-> mx <= d).
  { split; intros H.
    - apply Qnot_lt_le; intros F; apply Hq1 in F; lra.
    - apply Qnot_lt_le; intros F; apply Hq1 in F; lra. }
  split; [destruct Hmaxv as [[-> ?]|[-> ?]]; lra|].
  split; [destruct Hmaxv as [[-> ?]|[-> ?]]; lra|].
  split; [|split; [|split]].
  - rewrite <- Hd0; split; intros H.
    + destruct Hmaxv as [[E ?]|[E ?]]; rewrite E in H; [|lra].
      assert (q == 0) by lra.
      rewrite <- Hq; fold q; rewrite H1; ring.
    + assert (Hz : q == 0) by (subst q; rewrite H; field; lra).
      destruct Hmaxv as [[E ?]|[E ?]]; rewrite E; lra.
  - rewrite <- Hq1'; split; intros H.
    + destruct Hmaxv as [[E ?]|[E ?]]; [rewrite E in H; lra | assumption].
    + destruct Hmaxv as [[E ?]|[E ?]]; rewrite E; lra.
  - intros H; apply Qle_bool_iff in H; apply NumberFacts.Qltb_ge in H.
    rewrite H; reflexivity.
  - intros H; apply PlaybackProps.Qle_bool_false in H.
    assert (H' := H); apply NumberFacts.Qltb_lt in H'; rewrite H'.
    split; [reflexivity|].
    destruct Hmaxv as [[E ?]|[E ?]]; [|exact E].
    assert (1 <= q) by (apply Hq1'; lra). rewrite E; lra.
Qed.

Lemma metrics_agree_with_resync_witness :
  syncQuality (calculateSyncMetrics default_config (Some (decoder_at (985 # 100))) 10)
  == 0.
Proof.
  pose proof (metrics_agree_with_resync default_config (decoder_at (985 # 100))
                10 0 0 eq_refl) as H.
  cbv zeta in H; destruct H as (_ & _ & _ & _ & _ & H).
  apply H; reflexivity.
Defined.

(** X12: [renderFrameForTime] never presents the same frame time twice in a
    row.  It returns [true] exactly when it passes a frame to the renderer,
    and that frame is the one [getFrameAtTime] selects; without a decoder, a
    renderer or a buffered frame it returns [false] and changes nothing; and
    a second call with the same decoder and audio time right after any call
    returns [false] and renders nothing. *)
Theorem renderFrameForTime_renders_new_frames_only
    videoDecoder renderer audioTime lastRenderedFrameTime :
  let '(isNew, renderer1, last1) :=
    renderFrameForTime videoDecoder renderer audioTime lastRenderedFrameTime in
  (isNew = true ->
   exists vd shown frame,
     videoDecoder = Some vd /\ renderer = Some shown
     /\ getFrameAtTime audioTime vd = Some frame
     /\ renderer1 = Some (shown ++ [frame])
     /\ last1 = timestamp frame / 1000000
     /\ ~ last1 == lastRenderedFrameTime)
  /\ (isNew = false -> renderer1 = renderer /\ last1 = lastRenderedFrameTime)
  /\ (videoDecoder = None \/ renderer = None
      \/ (exists vd, videoDecoder = Some vd /\ frameBuffer vd = []) ->
      isNew = false)
  /\ renderFrameForTime videoDecoder renderer1 audioTime last1
     = (false, renderer1, last1).
Proof.
  unfold renderFrameForTime.
  destruct videoDecoder as [vd|];
    [|repeat split; try discriminate; reflexivity].
  destruct renderer as [shown|];
    [|repeat split; try discriminate; reflexivity].
  destruct (getFrameAtTime audioTime vd) as [frame|] eqn:Hf.
  - destruct (Qeq_bool (timestamp frame / 1000000) lastRenderedFrameTime) eqn:E;
      cbn [negb].
    + split; [discriminate|]. split; [split; reflexivity|].
      split; [reflexivity|]. rewrite ?Hf, ?E; reflexivity.
    + split.
      * intros _; exists vd, shown, frame.
        split; [reflexivity|]. split; [reflexivity|]. split; [exact Hf|].
        split; [reflexivity|]. split; [reflexivity|]. apply Qeq_bool_neq, E.
      * split; [discriminate|]. split.
        -- intros [H|[H|(vd' & H & Hb)]]; try discriminate.
           injection H as <-.
           unfold getFrameAtTime in Hf; rewrite Hb in Hf; discriminate Hf.
        -- rewrite ?Hf, Qeq_bool_refl; reflexivity.
  - split; [discriminate|]. split; [split; reflexivity|].
    split; [reflexivity|]. rewrite ?Hf; reflexivity.
Qed.

Lemma timer_call_one_timer t current c :
  one_timer t current ->
  one_timer (timer_call t c) (last_started [c] current).
Proof.
  unfold one_timer; destruct t as [[id|] run nxt]; destruct current as [d|];
    cbn; try contradiction; intros ->; destruct c as [d'|]; cbn;
    rewrite ?Nat.eqb_refl; reflexivity.
Qed.

(** X13: continuous sync never leaves a stray timer.  After any sequence of
    [startContinuousSync] and [stopContinuousSync] calls, at most one
    interval is running: none if the last call was a stop (or nothing was
    started), and otherwise exactly the interval [syncIntervalId] names,
    which belongs to the decoder of the most recent start. *)
Theorem continuous_sync_runs_one_timer calls :
  let t := fold_left timer_call calls no_timers in
  match last_started calls None with
  | Some decoder =>
      exists id, syncIntervalId t = Some id /\ running t = [(id, decoder)]
  | None => syncIntervalId t = None /\ running t = []
  end.
Proof.
  assert (H : forall t current,
             one_timer t current ->
             one_timer (fold_left timer_call calls t) (last_started calls current)).
  { induction calls as [|c calls IH]; intros t current Ht; [exact Ht|].
    cbn [fold_left].
    replace (last_started (c :: calls) current)
      with (last_started calls (last_started [c] current))
      by (destruct c; reflexivity).
    apply IH, timer_call_one_timer, Ht. }
  specialize (H no_timers None eq_refl); unfold one_timer in H.
  cbv zeta.
  destruct (syncIntervalId (fold_left timer_call calls no_timers)) as [id|];
    destruct (last_started calls None) as [d|]; try contradiction.
  - exists id; split; [reflexivity | exact H].
  - split; [reflexivity | exact H].
Qed.

End SyncMoreProps.

(** ** Printing and parsing integers *)

Module JsStringProps.

Import Ascii String Decimal JsString.
Local Open Scope string_scope.

Lemma digit_of_spec c digit :
  digit_of c = Some digit ->
  is_white_space c = false /\ c <> "-"%char /\ c <> "+"%char /\ c <> ":"%char
  /\ c <> "#"%char /\ c <> "b"%char.
Proof.
  destruct c as [[|] [|] [|] [|] [|] [|] [|] [|]]; cbn; intros H;
    try discriminate H; repeat split; discriminate.
Qed.

(** The characters of a printed run of digits are digits. *)
Lemma string_of_uint_digits d :
  all_digits (DecimalString.NilEmpty.string_of_uint d).
Proof.
  induction d; cbn; try exact I; (split; [discriminate | exact IHd]).
Qed.

Lemma take_digits_all s :
  all_digits s ->
  DecimalString.NilEmpty.string_of_uint (fst (take_digits s)) = s
  /\ snd (take_digits s) = EmptyString.
Proof.
  induction s as [|c s IH]; cbn; [split; reflexivity|].
  intros [Hc Hs]; destruct (IH Hs) as [I1 I2].
  destruct (take_digits s) as [d rest]; cbn [fst snd] in *.
  destruct c as [[|] [|] [|] [|] [|] [|] [|] [|]]; cbn in *;
    try contradiction; (split; [f_equal; exact I1 | exact I2]).
Qed.

Lemma take_digits_printed d :
  take_digits (DecimalString.NilEmpty.string_of_uint d) = (d, EmptyString).
Proof.
  induction d; cbn; try reflexivity; rewrite IHd; reflexivity.
Qed.

(** What [toString] prints: the digits of a number that is not [Nil],
    after a minus sign when the integer is negative. *)
Lemma toString_shape z :
  exists d,
    d <> Nil
    /\ ((0 <= z)%Z /\ toString z = DecimalString.NilEmpty.string_of_uint d
                   /\ Z.of_uint d = z
        \/ (z < 0)%Z /\ toString z = String "-" (DecimalString.NilEmpty.string_of_uint d)
                    /\ Z.of_uint d = (- z)%Z).
Proof.
  pose proof (DecimalZ.of_to z) as Hz.
  unfold toString; destruct z as [|p|p]; cbn in *.
  - exists (D0 Nil); split; [discriminate|]. left; repeat split; lia.
  - exists (Pos.to_uint p); split; [apply DecimalPos.Unsigned.to_uint_nonnil|].
    left; split; [lia|]. split; [|exact Hz].
    unfold DecimalString.NilZero.string_of_uint.
    pose proof (DecimalPos.Unsigned.to_uint_nonnil p).
    destruct (Pos.to_uint p); try reflexivity; contradiction.
  - exists (Pos.to_uint p); split; [apply DecimalPos.Unsigned.to_uint_nonnil|].
    right; split; [lia|]. split; [|cbn in Hz; lia].
    unfold DecimalString.NilZero.string_of_uint.
    pose proof (DecimalPos.Unsigned.to_uint_nonnil p).
    destruct (Pos.to_uint p); try reflexivity; contradiction.
Qed.

Lemma string_of_uint_head d :
  d <> Nil ->
  exists c r digit,
    DecimalString.NilEmpty.string_of_uint d = String c r
    /\ digit_of c = Some digit.
Proof.
  destruct d; [contradiction | ..]; intros _; cbn;
    do 3 eexists; (split; [reflexivity | reflexivity]).
Qed.

(** [parseInt] reads back what [toString] prints. *)
Lemma parseInt_toString z : parseInt (toString z) = Some z.
Proof.
  destruct (toString_shape z) as [d [Hd [[Hz [E Ev]] | [Hz [E Ev]]]]]; rewrite E.
  - destruct (string_of_uint_head d Hd) as [c [r [digit [Ec Hc]]]].
    destruct (digit_of_spec c digit Hc) as [Hw [Hm [Hp _]]].
    unfold parseInt.
    assert (Ew : skip_white_space (DecimalString.NilEmpty.string_of_uint d)
                 = DecimalString.NilEmpty.string_of_uint d).
    { rewrite Ec; cbn [skip_white_space]; rewrite Hw; reflexivity. }
    assert (Es : (match DecimalString.NilEmpty.string_of_uint d with
                  | String "-" r0 => (true, r0)
                  | String "+" r0 => (false, r0)
                  | _ => (false, DecimalString.NilEmpty.string_of_uint d)
                  end) = (false, DecimalString.NilEmpty.string_of_uint d)).
    { rewrite Ec.
      destruct c as [[|] [|] [|] [|] [|] [|] [|] [|]]; try reflexivity;
        exfalso; (apply Hm; reflexivity) || (apply Hp; reflexivity). }
    rewrite Ew, Es; cbn [fst]; rewrite take_digits_printed; cbn [fst].
    destruct d; [contradiction | ..]; rewrite <- Ev; reflexivity.
  - unfold parseInt; cbn [skip_white_space].
    change (is_white_space "-") with false.
    cbn [fst]; rewrite take_digits_printed; cbn [fst].
    destruct d; [contradiction | ..]; f_equal; lia.
Qed.

Lemma length_string_of_uint d :
  String.length (DecimalString.NilEmpty.string_of_uint d) = Decimal.nb_digits d.
Proof. induction d; cbn; congruence. Qed.

(** Padding with ['0'] to two characters does not change what [parseInt]
    reads from the digits of a number that is not negative. *)
Lemma parseInt_padStart2 z :
  (0 <= z)%Z -> parseInt (padStart2 (toString z)) = Some z.
Proof.
  intros Hz.
  destruct (toString_shape z) as [d [Hd [[_ [E Ev]] | [Hneg _]]]]; [|lia].
  pose proof (parseInt_toString z) as P.
  unfold padStart2. rewrite E in *.
  destruct d as [|d|d|d|d|d|d|d|d|d|d]; [contradiction | ..];
    destruct d; try exact P; cbn in Ev |- *; rewrite <- Ev; reflexivity.
Qed.

Lemma lacks_digits c s :
  digit_of c = None -> all_digits s -> lacks c s.
Proof.
  intros Hc; induction s as [|a s IH]; cbn; [trivial|].
  intros [Ha Hs]; split; [congruence | exact (IH Hs)].
Qed.

Lemma all_digits_padStart2 z :
  (0 <= z)%Z -> all_digits (padStart2 (toString z)).
Proof.
  intros Hz.
  destruct (toString_shape z) as [d [Hd [[_ [E Ev]] | [Hneg _]]]]; [|lia].
  pose proof (string_of_uint_digits d) as A.
  unfold padStart2; rewrite E.
  destruct (DecimalString.NilEmpty.string_of_uint d) as [|a [|b r]]; cbn in *.
  - split; [discriminate | split; [discriminate | exact I]].
  - split; [discriminate | exact A].
  - exact A.
Qed.

(** Splitting at a separator that occurs once gives the two parts. *)
Lemma split_once sep a b :
  lacks sep a -> lacks sep b -> split sep (a ++ String sep b) = [a; b].
Proof.
  intros Ha Hb.
  assert (Sb : split sep b = [b]).
  { clear Ha; induction b as [|c b IH]; cbn; [reflexivity|].
    destruct Hb as [Hc Hb]. apply Ascii.eqb_neq in Hc; rewrite Hc.
    rewrite (IH Hb); reflexivity. }
  induction a as [|c a IH]; cbn.
  - rewrite Ascii.eqb_refl, Sb; reflexivity.
  - destruct Ha as [Hc Ha]. apply Ascii.eqb_neq in Hc; rewrite Hc.
    rewrite (IH Ha); reflexivity.
Qed.

End JsStringProps.

(** ** The time display *)

Module TimeDisplayProps.

Import Ascii String JsString TimeDisplay.
Local Open Scope string_scope.

Lemma Qfloor_unique (x : Q) (n : Z) :
  inject_Z n <= x -> x < inject_Z (n + 1) -> Qfloor x = n.
Proof.
  intros Hlo Hhi.
  pose proof (Qfloor_le x) as Fl. pose proof (Qlt_floor x) as Fh.
  assert (A : inject_Z n < inject_Z (Qfloor x + 1)) by (eapply Qle_lt_trans; eassumption).
  assert (B : inject_Z (Qfloor x) < inject_Z (n + 1)) by (eapply Qle_lt_trans; eassumption).
  rewrite <- Zlt_Qlt in A, B. lia.
Qed.

(** Minutes and seconds of a time that is not negative: the seconds are the
    whole seconds left over, between 0 and 59. *)
Lemma minutes_and_seconds (seconds : Q) :
  0 <= seconds ->
  let minutes := Math_floor (seconds / 60) in
  let secs := Math_floor (mod60 seconds) in
  (0 <= minutes)%Z /\ (0 <= secs < 60)%Z
  /\ (minutes * 60 + secs)%Z = Qfloor seconds.
Proof.
  intros Hs minutes secs.
  assert (Hq : 0 <= seconds / 60).
  { apply Qle_shift_div_l; [reflexivity | lra]. }
  assert (Eq : seconds == 60 * (seconds / 60)).
  { symmetry; apply Qmult_div_r; discriminate. }
  assert (Et : truncate (seconds / 60) = minutes).
  { unfold truncate.
    assert (P : Qle_bool 0 (seconds / 60) = true) by (apply Qle_bool_iff; exact Hq).
    rewrite P; reflexivity. }
  assert (Es : secs = Qfloor (seconds - 60 * inject_Z minutes)).
  { unfold secs, Math_floor, mod60. rewrite Et; reflexivity. }
  pose proof (Qfloor_le (seconds / 60)) as Ml.
  pose proof (Qlt_floor (seconds / 60)) as Mh.
  fold (Math_floor (seconds / 60)) in Ml, Mh. fold minutes in Ml, Mh.
  clearbody minutes secs. subst secs.
  revert Hq Eq Ml Mh; generalize (seconds / 60); intros q Hq Eq Ml Mh.
  rewrite inject_Z_plus in Mh. change (inject_Z 1) with 1 in Mh.
  pose proof (Qfloor_le seconds) as Sl. pose proof (Qlt_floor seconds) as Sh.
  rewrite inject_Z_plus in Sh. change (inject_Z 1) with 1 in Sh.
  assert (Hm : (0 <= minutes)%Z).
  { assert (A : inject_Z (-1) < inject_Z minutes).
    { change (inject_Z (-1)) with (-1). lra. }
    rewrite <- Zlt_Qlt in A. lia. }
  assert (Ef : Qfloor (seconds - 60 * inject_Z minutes)
               = (Qfloor seconds - 60 * minutes)%Z).
  { apply Qfloor_unique.
    - unfold Z.sub; rewrite inject_Z_plus, inject_Z_opp, inject_Z_mult.
      change (inject_Z 60) with 60. lra.
    - unfold Z.sub; rewrite !inject_Z_plus, inject_Z_opp, inject_Z_mult.
      change (inject_Z 60) with 60. change (inject_Z 1) with 1. lra. }
  rewrite Ef. split; [exact Hm|].
  assert (A : inject_Z (60 * minutes) < inject_Z (Qfloor seconds + 1)).
  { rewrite inject_Z_plus, inject_Z_mult.
    change (inject_Z 60) with 60. change (inject_Z 1) with 1. lra. }
  assert (B : inject_Z (Qfloor seconds) < inject_Z (60 * minutes + 60)).
  { rewrite inject_Z_plus, inject_Z_mult. change (inject_Z 60) with 60. lra. }
  rewrite <- Zlt_Qlt in A, B. lia.
Qed.

(** X14: for a time that is not negative (and not above
    [MAX_SAFE_INTEGER], so that the minutes print in plain digits that
    [parseInt] reads exactly), [formatTime] prints the whole
    minutes and, between 0 and 59, the whole seconds left over, each
    padded to two digits; and [parseDurationString] reads the printed text
    back as the whole number of seconds of the time: the fraction of a
    second is lost on the way through the display. *)
Theorem displayed_time_reads_back_whole_seconds (seconds : Q) :
  0 <= seconds -> seconds <= inject_Z MAX_SAFE_INTEGER ->
  exists minutes secs : Z,
    formatTime seconds = padStart2 (toString minutes) ++ ":" ++ padStart2 (toString secs)
    /\ (0 <= minutes)%Z /\ (0 <= secs < 60)%Z
    /\ (minutes * 60 + secs)%Z = Qfloor seconds
    /\ parseDurationString (formatTime seconds) = Some (Qfloor seconds).
Proof.
  intros Hs _.
  destruct (minutes_and_seconds seconds Hs) as [Hm [Hr E]].
  exists (Math_floor (seconds / 60)), (Math_floor (mod60 seconds)).
  split; [reflexivity|]. split; [exact Hm|]. split; [exact Hr|]. split; [exact E|].
  unfold parseDurationString, formatTime.
  change (?a ++ ":" ++ ?b) with (a ++ String ":" b).
  rewrite JsStringProps.split_once.
  - rewrite !JsStringProps.parseInt_padStart2 by lia. rewrite E; reflexivity.
  - apply JsStringProps.lacks_digits;
      [reflexivity | apply JsStringProps.all_digits_padStart2; exact Hm].
  - apply JsStringProps.lacks_digits;
      [reflexivity | apply JsStringProps.all_digits_padStart2; lia].
Qed.

Lemma displayed_time_reads_back_whole_seconds_witness :
  0 <= 754 # 10 /\ 754 # 10 <= inject_Z MAX_SAFE_INTEGER
  /\ exists minutes secs : Z,
       formatTime (754 # 10)
       = padStart2 (toString minutes) ++ ":" ++ padStart2 (toString secs)
       /\ (0 <= minutes)%Z /\ (0 <= secs < 60)%Z
       /\ (minutes * 60 + secs)%Z = Qfloor (754 # 10)
       /\ parseDurationString (formatTime (754 # 10)) = Some (Qfloor (754 # 10)).
Proof.
  split; [discriminate|]. split; [discriminate|].
  apply (displayed_time_reads_back_whole_seconds (754 # 10)); discriminate.
Defined.

End TimeDisplayProps.

(** ** MIDI messages *)

Module MidiProps.

Import Midi.

(** The two masks of [handleMIDIMessage] on a status byte. *)
Lemma masks_of_byte (status : Z) :
  (0 <= status < 256)%Z ->
  Z.land status 240 = (16 * (status / 16))%Z /\ Z.land status 15 = (status mod 16)%Z.
Proof.
  intros Hs.
  pose (masks_ok := fun n : nat =>
          ((Z.land (Z.of_nat n) 240 =? 16 * (Z.of_nat n / 16))
           && (Z.land (Z.of_nat n) 15 =? Z.of_nat n mod 16))%Z).
  assert (A : forallb masks_ok (seq 0 256) = true) by (vm_compute; reflexivity).
  rewrite forallb_forall in A.
  specialize (A (Z.to_nat status)).
  assert (I : In (Z.to_nat status) (seq 0 256)) by (apply in_seq; lia).
  apply A in I. unfold masks_ok in I. rewrite Z2Nat.id in I by lia.
  apply andb_true_iff in I; destruct I as [I1 I2].
  split; [apply Z.eqb_eq, I1 | apply Z.eqb_eq, I2].
Qed.

Lemma normalized_range (value : Z) :
  (0 <= value <= 127)%Z -> 0 <= inject_Z value / 127 <= 1.
Proof.
  intros [Hl Hh].
  assert (A : inject_Z 0 <= inject_Z value) by (rewrite <- Zle_Qle; exact Hl).
  assert (B : inject_Z value <= inject_Z 127) by (rewrite <- Zle_Qle; exact Hh).
  change (inject_Z 0) with 0 in A. change (inject_Z 127) with 127 in B.
  split.
  - apply Qle_shift_div_l; [reflexivity | lra].
  - apply Qle_shift_div_r; [reflexivity | lra].
Qed.

(** X15: a note-on message with velocity 0 is handled as the note-off
    message of the same channel and note with velocity 0: the note-off
    callback is the one called (if set), a note-off event is dispatched,
    and the note-on callback is not called. *)
Theorem note_on_with_velocity_0_is_note_off (channel note : Z) (st : MidiState) :
  (0 <= channel < 16)%Z ->
  handleMIDIMessage (144 + channel) note 0 st
  = handleMIDIMessage (128 + channel) note 0 st
  /\ dispatched (handleMIDIMessage (144 + channel) note 0 st)
     = dispatched st ++ [MidiNoteOff note (0 / 127) channel]
  /\ called (handleMIDIMessage (144 + channel) note 0 st)
     = called st
       ++ match noteOffCallback st with
          | Some f => [Called f note (0 / 127) channel]
          | None => []
          end.
Proof.
  intros Hc.
  destruct (masks_of_byte (144 + channel)) as [T1 C1]; [lia|].
  destruct (masks_of_byte (128 + channel)) as [T2 C2]; [lia|].
  assert (D1 : ((144 + channel) / 16 = 9)%Z) by (symmetry; apply Z.div_unique with channel; lia).
  assert (D2 : ((128 + channel) / 16 = 8)%Z) by (symmetry; apply Z.div_unique with channel; lia).
  assert (M1 : ((144 + channel) mod 16 = channel)%Z)
    by (symmetry; apply Z.mod_unique with 9%Z; lia).
  assert (M2 : ((128 + channel) mod 16 = channel)%Z)
    by (symmetry; apply Z.mod_unique with 8%Z; lia).
  unfold handleMIDIMessage. rewrite T1, T2, C1, C2, D1, D2, M1, M2.
  cbn [Z.mul Pos.mul Z.eqb Pos.eqb MIDI_NOTE_ON MIDI_NOTE_OFF].
  unfold handleNoteOn; cbn [Z.eqb].
  split; [reflexivity|].
  unfold handleNoteOff, dispatch, call_back.
  destruct (noteOffCallback st); cbn; rewrite ?app_nil_r; split; reflexivity.
Qed.

Lemma note_on_with_velocity_0_is_note_off_witness :
  (0 <= 9 < 16)%Z
  /\ dispatched (handleMIDIMessage (144 + 9) 60 0 (mkMidi (Some 1%nat) (Some 2%nat) None [] []))
     = [MidiNoteOff 60 (0 / 127) 9].
Proof.
  split; [lia|].
  exact (proj1 (proj2 (note_on_with_velocity_0_is_note_off 9 60
           (mkMidi (Some 1%nat) (Some 2%nat) None [] []) ltac:(lia)))).
Defined.

(** What a handler that normalizes, calls its callback and dispatches
    leaves behind. *)
Lemma call_back_then_dispatch callback number value channel e st :
  event_number e = number -> event_value e = value -> event_channel e = channel ->
  let st' := dispatch e (call_back callback number value channel st) in
  dispatched st' = dispatched st ++ [e]
  /\ (called st' = called st
      \/ exists f, called st'
                   = called st ++ [Called f (event_number e) (event_value e) (event_channel e)]).
Proof.
  intros En Ev Ec; subst number value channel.
  unfold dispatch, call_back; destruct callback as [f|]; cbn;
    (split; [reflexivity|]); [right; exists f; reflexivity | left; reflexivity].
Qed.

(** X16: what one MIDI message does, for a status byte and a data byte
    in their ranges.  A message of another type than note on, note off and
    control change changes nothing: no callback, no event.  A handled
    message dispatches exactly one event and calls at most one callback;
    the event carries the first data byte, the channel [status mod 16],
    between 0 and 15, and the second data byte over 127, between 0 and 1;
    a callback that is called gets the same three values. *)
Theorem midi_message_dispatch (status data1 data2 : Z) (st : MidiState) :
  (0 <= status < 256)%Z -> (0 <= data2 <= 127)%Z ->
  let st' := handleMIDIMessage status data1 data2 st in
  if handled status then
    exists e,
      dispatched st' = dispatched st ++ [e]
      /\ event_number e = data1
      /\ event_channel e = (status mod 16)%Z /\ (0 <= event_channel e < 16)%Z
      /\ event_value e = inject_Z data2 / 127 /\ 0 <= event_value e <= 1
      /\ (called st' = called st
          \/ exists f, called st'
                       = called st ++ [Called f data1 (event_value e) (event_channel e)])
  else st' = st.
Proof.
  intros Hs Hd st'.
  destruct (masks_of_byte status Hs) as [T C].
  pose proof (Z.mod_pos_bound status 16 ltac:(lia)) as Hc.
  pose proof (normalized_range data2 Hd) as Hv.
  unfold handled, st', handleMIDIMessage. rewrite T, C.
  unfold MIDI_NOTE_ON, MIDI_NOTE_OFF, MIDI_CONTROL_CHANGE.
  set (ch := (status mod 16)%Z) in *. set (v := inject_Z data2 / 127) in *.
  assert (Fin : forall e callback,
             event_number e = data1 -> event_value e = v -> event_channel e = ch ->
             let st1 := dispatch e (call_back callback data1 v ch st) in
             exists e,
               dispatched st1 = dispatched st ++ [e]
               /\ event_number e = data1
               /\ event_channel e = ch /\ (0 <= event_channel e < 16)%Z
               /\ event_value e = v /\ 0 <= event_value e <= 1
               /\ (called st1 = called st
                   \/ exists f, called st1
                                = called st ++ [Called f data1 (event_value e) (event_channel e)])).
  { intros e callback En Ev Ec st1.
    destruct (call_back_then_dispatch callback data1 v ch e st En Ev Ec) as [D K].
    exists e. rewrite En, Ev, Ec in K. rewrite Ec, Ev.
    repeat (split; [solve [assumption | reflexivity]|]).
    exact K. }
  destruct (Z.eqb_spec (status / 16) 8) as [E8|N8];
    [|destruct (Z.eqb_spec (status / 16) 9) as [E9|N9];
      [|destruct (Z.eqb_spec (status / 16) 11) as [E11|N11]]]; cbn [orb].
  - rewrite E8; cbn [Z.mul Pos.mul Z.eqb Pos.eqb].
    apply (Fin (MidiNoteOff data1 v ch)); reflexivity.
  - rewrite E9; cbn [Z.mul Pos.mul Z.eqb Pos.eqb].
    unfold handleNoteOn. destruct (Z.eqb_spec data2 0) as [Z0|NZ].
    + assert (Ev : inject_Z 0 / 127 = v) by (unfold v; rewrite Z0; reflexivity).
      unfold handleNoteOff. rewrite Ev.
      apply (Fin (MidiNoteOff data1 v ch)); reflexivity.
    + apply (Fin (MidiNoteOn data1 v ch)); reflexivity.
  - rewrite E11; cbn [Z.mul Pos.mul Z.eqb Pos.eqb].
    apply (Fin (MidiCC data1 v ch)); reflexivity.
  - assert (A : ((16 * (status / 16) =? 144) = false)%Z) by (apply Z.eqb_neq; lia).
    assert (B : ((16 * (status / 16) =? 128) = false)%Z) by (apply Z.eqb_neq; lia).
    assert (D : ((16 * (status / 16) =? 176) = false)%Z) by (apply Z.eqb_neq; lia).
    rewrite A, B, D; reflexivity.
Qed.

Lemma midi_message_dispatch_witness :
  (0 <= 177 < 256)%Z /\ (0 <= 64 <= 127)%Z
  /\ exists e,
       dispatched (handleMIDIMessage 177 7 64 (mkMidi None None (Some 3%nat) [] []))
       = [e]
       /\ event_channel e = 1%Z /\ event_value e = 64 / 127.
Proof.
  split; [lia|]. split; [lia|].
  destruct (midi_message_dispatch 177 7 64 (mkMidi None None (Some 3%nat) [] [])
              ltac:(lia) ltac:(lia)) as [e [D [_ [C [_ [V _]]]]]].
  exists e. split; [exact D|]. split; [exact C | exact V].
Defined.

End MidiProps.

(** ** Note names *)

Module NoteNameProps.

Import Ascii String Decimal JsString Midi.
Local Open Scope string_scope.

(** The octave group [-?\d+] of the regular expression accepts what
    [toString] prints, whole. *)
Lemma octave_accepted z :
  exists c r,
    toString z = String c r
    /\ (Ascii.eqb c "#" || Ascii.eqb c "b")%bool = false
    /\ exists d,
         d <> Nil
         /\ take_digits (match toString z with String "-" r' => r' | _ => toString z end)
            = (d, EmptyString).
Proof.
  destruct (JsStringProps.toString_shape z) as [d [Hd [[_ [E _]] | [_ [E _]]]]]; rewrite E.
  - destruct (JsStringProps.string_of_uint_head d Hd) as [c [r [digit [Ec Hc]]]].
    destruct (JsStringProps.digit_of_spec c digit Hc) as [_ [Hm [_ [_ [Hs Hb]]]]].
    exists c, r. split; [exact Ec|]. split.
    { apply Ascii.eqb_neq in Hs, Hb. rewrite Hs, Hb; reflexivity. }
    exists d; split; [exact Hd|].
    transitivity (take_digits (DecimalString.NilEmpty.string_of_uint d));
      [f_equal | apply JsStringProps.take_digits_printed].
    rewrite Ec.
    destruct c as [[|] [|] [|] [|] [|] [|] [|] [|]]; try reflexivity.
    exfalso; apply Hm; reflexivity.
  - exists "-"%char, (DecimalString.NilEmpty.string_of_uint d).
    split; [reflexivity|]. split; [reflexivity|].
    exists d; split; [exact Hd | apply JsStringProps.take_digits_printed].
Qed.

Lemma letter_test c :
  (65 <= nat_of_ascii c <= 71)%nat ->
  ((65 <=? nat_of_ascii c) && (nat_of_ascii c <=? 71))%nat = true.
Proof.
  intros [Hl Hh]. apply andb_true_iff; split; apply Nat.leb_le; assumption.
Qed.

(** A letter from A to G followed by a printed integer matches, with the
    letter as the note. *)
Lemma match_natural c z :
  (65 <= nat_of_ascii c <= 71)%nat ->
  match_note_name (String c (toString z)) = Some (String c EmptyString, toString z).
Proof.
  intros Hl. destruct (octave_accepted z) as [m [r [E [Hm [d [Hd Ht]]]]]].
  unfold match_note_name. rewrite (letter_test c Hl).
  rewrite E in Ht |- *. rewrite Hm, Ht.
  destruct d; [contradiction | ..]; reflexivity.
Qed.

(** With a sharp or flat sign between the two, the note is the letter with
    the sign. *)
Lemma match_accidental c m z :
  (65 <= nat_of_ascii c <= 71)%nat -> (Ascii.eqb m "#" || Ascii.eqb m "b")%bool = true ->
  match_note_name (String c (String m (toString z)))
  = Some (String c (String m EmptyString), toString z).
Proof.
  intros Hl Hm. destruct (octave_accepted z) as [m' [r [E [_ [d [Hd Ht]]]]]].
  unfold match_note_name. rewrite (letter_test c Hl), Hm, Ht.
  destruct d; [contradiction | ..]; reflexivity.
Qed.

Ltac note_value H :=
  unfold noteNameToMidi; cbn [nth noteNames append];
  rewrite H by first [reflexivity | cbn; lia]; cbv beta iota zeta;
  rewrite JsStringProps.parseInt_toString; reflexivity.

(** The number of a name of [noteNames] followed by an octave. *)
Lemma sharp_name_value (i : nat) (z : Z) :
  (i < 12)%nat ->
  noteNameToMidi (nth i noteNames "undefined" ++ toString z)
  = ((z + 1) * 12 + Z.of_nat i)%Z.
Proof.
  intros Hi.
  do 12 (destruct i as [|i];
         [first [ note_value (match_natural) | note_value (match_accidental) ] |]).
  lia.
Qed.

Ltac note_values :=
  unfold noteNameToMidi; cbn [append];
  rewrite ?match_accidental by first [reflexivity | cbn; lia];
  rewrite ?match_natural by (cbn; lia);
  cbv beta iota zeta; rewrite ?JsStringProps.parseInt_toString;
  first [reflexivity | cbn; lia].

(** X17: the name of a note number that is not negative (an integer up to
    [MAX_SAFE_INTEGER]; MIDI notes are 0 to 127) reads back as the number:
    [noteNameToMidi] inverts [midiNoteToName]. *)
Theorem note_name_round_trip (noteNumber : Z) :
  (0 <= noteNumber <= MAX_SAFE_INTEGER)%Z ->
  noteNameToMidi (midiNoteToName noteNumber) = noteNumber.
Proof.
  intros [Hn _]. unfold midiNoteToName.
  rewrite Z.rem_mod_nonneg by lia.
  pose proof (Z.mod_pos_bound noteNumber 12 ltac:(lia)) as Hi.
  assert (L : (noteNumber mod 12 <? 0)%Z = false) by (apply Z.ltb_ge; lia).
  rewrite L, sharp_name_value by lia.
  rewrite Z2Nat.id by lia.
  pose proof (Z.div_mod noteNumber 12 ltac:(lia)). lia.
Qed.

Lemma note_name_round_trip_witness :
  (0 <= 60 <= MAX_SAFE_INTEGER)%Z
  /\ midiNoteToName 60 = "C4" /\ noteNameToMidi (midiNoteToName 60) = 60%Z.
Proof.
  split; [unfold MAX_SAFE_INTEGER; lia|]. split; [reflexivity|].
  apply (note_name_round_trip 60); unfold MAX_SAFE_INTEGER; lia.
Defined.

(** X18: names with a flat sign, the octave being an integer as
    [toString] prints it (up to [MAX_SAFE_INTEGER] in absolute value).  Db, Eb, Gb, Ab and Bb get the number of C#, D#,
    F#, G# and A# of the same octave, and Fb the number of E.  Cb gets the
    number of B of the same octave number, 11 above C of that octave.  The
    names E# and B# are not in the table and carry no flat sign: they are
    refused with -1. *)
Theorem flat_note_names (z : Z) :
  (- MAX_SAFE_INTEGER <= z <= MAX_SAFE_INTEGER)%Z ->
  noteNameToMidi ("Db" ++ toString z) = noteNameToMidi ("C#" ++ toString z)
  /\ noteNameToMidi ("Eb" ++ toString z) = noteNameToMidi ("D#" ++ toString z)
  /\ noteNameToMidi ("Gb" ++ toString z) = noteNameToMidi ("F#" ++ toString z)
  /\ noteNameToMidi ("Ab" ++ toString z) = noteNameToMidi ("G#" ++ toString z)
  /\ noteNameToMidi ("Bb" ++ toString z) = noteNameToMidi ("A#" ++ toString z)
  /\ noteNameToMidi ("Fb" ++ toString z) = noteNameToMidi ("E" ++ toString z)
  /\ noteNameToMidi ("Cb" ++ toString z) = noteNameToMidi ("B" ++ toString z)
  /\ noteNameToMidi ("Cb" ++ toString z) = (noteNameToMidi ("C" ++ toString z) + 11)%Z
  /\ noteNameToMidi ("E#" ++ toString z) = (-1)%Z
  /\ noteNameToMidi ("B#" ++ toString z) = (-1)%Z.
Proof.
  intros _. repeat split; note_values.
Qed.

Lemma flat_note_names_witness :
  (- MAX_SAFE_INTEGER <= 4 <= MAX_SAFE_INTEGER)%Z
  /\ noteNameToMidi "Bb4" = 70%Z /\ noteNameToMidi "A#4" = 70%Z
  /\ noteNameToMidi "Cb4" = 71%Z /\ noteNameToMidi "E#4" = (-1)%Z.
Proof.
  assert (R : (- MAX_SAFE_INTEGER <= 4 <= MAX_SAFE_INTEGER)%Z)
    by (unfold MAX_SAFE_INTEGER; lia).
  split; [exact R|].
  destruct (flat_note_names 4 R) as [_ [_ [_ [_ [B [_ [_ [C [E _]]]]]]]]].
  split; [transitivity (noteNameToMidi ("A#" ++ toString 4)); [exact B | reflexivity]|].
  split; [reflexivity|].
  split; [exact C | exact E].
Defined.

End NoteNameProps.

(** ** The waveform view *)

Module WaveformProps.

Import Waveform.

Lemma Math_max_cases a b :
  (a <= b /\ Math_max a b = b) \/ (b < a /\ Math_max a b = a).
Proof.
  unfold Math_max; destruct (Qle_bool a b) eqn:E;
    [left; apply Qle_bool_iff in E | right; apply PlaybackProps.Qle_bool_false in E];
    split; [exact E | reflexivity | exact E | reflexivity].
Qed.

Lemma Math_min_cases a b :
  (a <= b /\ Math_min a b = a) \/ (b < a /\ Math_min a b = b).
Proof.
  unfold Math_min; destruct (Qle_bool a b) eqn:E;
    [left; apply Qle_bool_iff in E | right; apply PlaybackProps.Qle_bool_false in E];
    split; [exact E | reflexivity | exact E | reflexivity].
Qed.

Ltac clamp_case lemma a b :=
  let H := fresh "H" in
  let E := fresh "E" in
  destruct (lemma a b) as [[H E] | [H E]]; rewrite E in *; clear E.

Ltac clamp_cases :=
  repeat match goal with
         | |- context [Math_min ?a ?b] => clamp_case Math_min_cases a b
         | |- context [Math_max ?a ?b] => clamp_case Math_max_cases a b
         | _ : context [Math_min ?a ?b] |- _ => clamp_case Math_min_cases a b
         | _ : context [Math_max ?a ?b] |- _ => clamp_case Math_max_cases a b
         end.

(** X19: whatever numbers [setLoopRegion] is given, the region it stores
    is ordered and inside the waveform: 0 <= loopStart <= loopEnd <= 1.
    A start and end that are already so are stored as they are; an end
    before the start gives the empty region at the start.  The rectangle
    that [drawLoopRegion] then fills starts inside the canvas, is not of
    negative width and does not pass the right edge. *)
Theorem loop_region_ordered_inside (start end_ : Q) (enabled : bool) :
  let l := setLoopRegion start end_ enabled in
  0 <= loopStart l /\ loopStart l <= loopEnd l /\ loopEnd l <= 1
  /\ (0 <= start -> start <= end_ -> end_ <= 1 ->
      loopStart l == start /\ loopEnd l == end_)
  /\ (end_ <= start -> loopEnd l == loopStart l)
  /\ (forall width, 0 <= width ->
        0 <= fst (drawLoopRegion width l)
        /\ 0 <= snd (drawLoopRegion width l)
        /\ fst (drawLoopRegion width l) + snd (drawLoopRegion width l) <= width).
Proof.
  cbv zeta. unfold drawLoopRegion, setLoopRegion.
  cbn [loopStart loopEnd fst snd].
  repeat split; clamp_cases; try lra; nra.
Qed.

(** What the inner loop of [calculatePeaks] returns, from a running
    maximum [max]: a bound of the magnitudes it passed over, which is
    [max] or one of those magnitudes. *)
Lemma peak_from_spec (channelData : Channel) (count j : nat) (max : Q) :
  0 <= max ->
  let p := peak_from channelData j count max in
  max <= p
  /\ (forall k v, (j <= k < j + count)%nat -> nth_error channelData k = Some v ->
        magnitude v <= p)
  /\ (p = max
      \/ exists k x, (j <= k < j + count)%nat
                     /\ nth_error channelData k = Some (Amp x) /\ p = Qabs x).
Proof.
  revert j max; induction count as [|count IH]; intros j max H0; cbn [peak_from].
  - split; [lra|]. split; [intros k v Hk; lia | left; reflexivity].
  - destruct (nth_error channelData j) as [[x|]|] eqn:Ej.
    + set (max' := if Qltb max (Qabs x) then Qabs x else max).
      assert (Hm : max <= max' /\ Qabs x <= max').
      { unfold max'; destruct (Qltb max (Qabs x)) eqn:E;
          [apply NumberFacts.Qltb_lt in E | apply NumberFacts.Qltb_ge in E]; lra. }
      destruct (IH (S j) max' ltac:(lra)) as [I1 [I2 I3]].
      split; [lra|]. split.
      * intros k v Hk Hv.
        destruct (Nat.eq_dec k j) as [->|Hne].
        -- rewrite Ej in Hv; injection Hv as <-. cbn [magnitude]. lra.
        -- apply (I2 k v); [lia | exact Hv].
      * destruct I3 as [Ep | [k [y [Hk [Ek Ep]]]]].
        -- unfold max' in Ep. destruct (Qltb max (Qabs x)).
           ++ right; exists j, x. split; [lia|]. split; [exact Ej | exact Ep].
           ++ left; exact Ep.
        -- right; exists k, y. split; [lia|]. split; [exact Ek | exact Ep].
    + destruct (IH (S j) max H0) as [I1 [I2 I3]].
      split; [exact I1|]. split.
      * intros k v Hk Hv.
        destruct (Nat.eq_dec k j) as [->|Hne].
        -- rewrite Ej in Hv; injection Hv as <-. cbn [magnitude]. lra.
        -- apply (I2 k v); [lia | exact Hv].
      * destruct I3 as [Ep | [k [y [Hk [Ek Ep]]]]]; [left; exact Ep|].
        right; exists k, y. split; [lia|]. split; [exact Ek | exact Ep].
    + split; [lra|]. split; [|left; reflexivity].
      intros k v Hk Hv.
      assert (Hlen : (length channelData <= j)%nat) by (apply nth_error_None; exact Ej).
      assert (Hnone : nth_error channelData k = None) by (apply nth_error_None; lia).
      congruence.
Qed.


Lemma calculatePeaks_nth (d : Channel) (width skip i : nat) :
  (i < width)%nat ->
  nth i (calculatePeaks d width skip) 0 = peak_from d (i * skip) skip 0.
Proof.
  intros Hi. unfold calculatePeaks.
  rewrite (nth_indep _ 0 (peak_from d (0 * skip) skip 0))
    by (rewrite length_map, length_seq; exact Hi).
  rewrite (map_nth (fun i => peak_from d (i * skip) skip 0)), seq_nth by exact Hi.
  reflexivity.
Qed.

(** X20: [calculatePeaks] returns one value for each of the [width]
    columns.  The value of column [i] is not negative, is at least the
    magnitude of every sample of the bucket [i*skip, (i+1)*skip) that the
    data has, and is 0 or the magnitude of one of these samples. *)
Theorem peaks_bound_their_bucket (channelData : Channel) (width skip : nat) :
  length (calculatePeaks channelData width skip) = width
  /\ forall i, (i < width)%nat ->
       let p := nth i (calculatePeaks channelData width skip) 0 in
       0 <= p
       /\ (forall k v, (i * skip <= k < (i + 1) * skip)%nat ->
             nth_error channelData k = Some v -> magnitude v <= p)
       /\ (p = 0
           \/ exists k x, (i * skip <= k < (i + 1) * skip)%nat
                          /\ nth_error channelData k = Some (Amp x) /\ p = Qabs x).
Proof.
  split; [unfold calculatePeaks; rewrite length_map, length_seq; reflexivity|].
  intros i Hi p. unfold p. rewrite (calculatePeaks_nth _ _ _ _ Hi).
  destruct (peak_from_spec channelData skip (i * skip) 0 ltac:(lra)) as [P1 [P2 P3]].
  replace ((i + 1) * skip)%nat with (i * skip + skip)%nat by lia.
  split; [exact P1|]. split; [exact P2 | exact P3].
Qed.



End WaveformProps.

(** ** The canvas size *)

Module RendererProps.

Import Renderer.

Lemma Qeq_bool_false_of_pos x : 0 < x -> Qeq_bool x 0 = false.
Proof.
  intros H. destruct (Qeq_bool x 0) eqn:E; [|reflexivity].
  apply Qeq_bool_iff in E. lra.
Qed.

(** X22: for a video of positive width and height in a container whose
    width and height are not negative, the canvas gets a size: it fits in
    the container, it has the proportions of the video, and one of its
    two sides is the container's. *)
Theorem canvas_fits_container (videoWidth videoHeight containerWidth containerHeight : Q) :
  0 < videoWidth -> 0 < videoHeight -> 0 <= containerWidth -> 0 <= containerHeight ->
  exists width height,
    resizeRendererWithAspectRatio true videoWidth videoHeight
                                  containerWidth containerHeight
    = Some (width, height)
    /\ 0 <= width <= containerWidth
    /\ 0 <= height <= containerHeight
    /\ width * videoHeight == height * videoWidth
    /\ (width == containerWidth \/ height == containerHeight).
Proof.
  intros Hvw Hvh Hcw Hch.
  unfold resizeRendererWithAspectRatio.
  rewrite (Qeq_bool_false_of_pos _ Hvw), (Qeq_bool_false_of_pos _ Hvh).
  cbn [negb orb].
  assert (Ha : 0 < videoWidth / videoHeight).
  { apply Qlt_shift_div_l; [exact Hvh | lra]. }
  assert (Ea : videoWidth == (videoWidth / videoHeight) * videoHeight).
  { field. lra. }
  set (a := videoWidth / videoHeight) in *. clearbody a.
  destruct (Qeq_bool containerHeight 0) eqn:E0.
  - apply Qeq_bool_iff in E0.
    destruct (Qltb 0 containerWidth) eqn:Ew;
      [apply NumberFacts.Qltb_lt in Ew | apply NumberFacts.Qltb_ge in Ew].
    + exists (containerHeight * a), containerHeight.
      split; [reflexivity|].
      assert (Z : containerHeight * a == 0) by (rewrite E0; ring).
      repeat split;
        first [lra | nra | right; reflexivity | left; reflexivity
              | rewrite Ea; ring | rewrite Ea; field; lra].
    + exists containerWidth, (containerWidth / a).
      split; [reflexivity|].
      assert (Zw : containerWidth == 0) by lra.
      assert (Z : containerWidth / a == 0) by (rewrite Zw; field; lra).
      repeat split;
        first [lra | nra | right; reflexivity | left; reflexivity
              | rewrite Ea; ring | rewrite Ea; field; lra].
  - assert (Hpos : 0 < containerHeight).
    { destruct (Qeq_dec containerHeight 0) as [E|N];
        [apply Qeq_bool_iff in E; congruence | lra]. }
    assert (Ec : containerWidth == (containerWidth / containerHeight) * containerHeight).
    { field. lra. }
    set (c := containerWidth / containerHeight) in *.
    destruct (Qltb a c) eqn:Ew;
      [apply NumberFacts.Qltb_lt in Ew | apply NumberFacts.Qltb_ge in Ew].
    + exists (containerHeight * a), containerHeight.
      split; [reflexivity|].
      repeat split;
        first [lra | nra | right; reflexivity | left; reflexivity
              | rewrite Ea; ring | rewrite Ea; field; lra].
    + exists containerWidth, (containerWidth / a).
      split; [reflexivity|].
      assert (Hc : 0 <= c).
      { unfold c. apply Qle_shift_div_l; [exact Hpos | lra]. }
      assert (Eh : containerWidth / a == c * containerHeight / a).
      { rewrite Ec at 1. reflexivity. }
      assert (Hh : 0 <= containerWidth / a).
      { apply Qle_shift_div_l; [exact Ha | lra]. }
      assert (Hh' : containerWidth / a <= containerHeight).
      { apply Qle_shift_div_r; [exact Ha | nra]. }
      repeat split;
        first [lra | nra | right; reflexivity | left; reflexivity
              | rewrite Ea; ring | rewrite Ea; field; lra].
Qed.

Lemma canvas_fits_container_witness :
  0 < 1920 /\ 0 < 1080 /\ 0 <= 800 /\ 0 <= 600
  /\ exists width height,
       resizeRendererWithAspectRatio true 1920 1080 800 600 = Some (width, height)
       /\ 0 <= width <= 800 /\ 0 <= height <= 600
       /\ width * 1080 == height * 1920
       /\ (width == 800 \/ height == 600).
Proof.
  repeat (split; [reflexivity || discriminate|]).
  apply (canvas_fits_container 1920 1080 800 600); reflexivity || discriminate.
Defined.

End RendererProps.

(** ** Keyboard input *)

Module KeyboardProps.

Import String Keyboard.

Lemma told_down_last key calls k down :
  told_down key (calls ++ [(k, down)])
  = if String.eqb k key then down else told_down key calls.
Proof.
  induction calls as [|[k' d'] calls IH]; cbn [told_down app existsb fst].
  - destruct (String.eqb k key); reflexivity.
  - rewrite existsb_app; cbn [existsb fst]. rewrite IH.
    destruct (String.eqb k key);
      destruct (existsb (fun c : string * bool => String.eqb (fst c) key) calls);
      reflexivity.
Qed.

Lemma no_repeated_down_last calls k down :
  no_repeated_down calls ->
  (down = true -> told_down k calls = false) ->
  no_repeated_down (calls ++ [(k, down)]).
Proof.
  intros Hc Hd before key after E.
  destruct after as [|x after'] using rev_ind.
  - apply app_inj_tail in E; destruct E as [E1 E2].
    injection E2 as Ek Ed. subst before key. apply Hd; exact Ed.
  - clear IHafter'.
    change (before ++ (key, true) :: after' ++ [x])
      with (before ++ ((key, true) :: after') ++ [x]) in E.
    rewrite app_assoc in E. apply app_inj_tail in E; destruct E as [E _].
    apply (Hc before key after'); exact E.
Qed.

Lemma key_event_agrees st e : agrees st -> agrees (key_event st e).
Proof.
  intros [Hcb [Hp Hn]]. destruct e as [key input | key]; cbn [key_event].
  - unfold handleKeyDown. destruct input; [repeat split; assumption|].
    destruct (isKeyPressed key st) eqn:Ek; [repeat split; assumption|].
    unfold call_callback, set_key; cbn [keyboardCallback]; rewrite Hcb.
    split; [reflexivity|]. split.
    + intros k. unfold isKeyPressed; cbn [keyStates callbackCalls].
      rewrite told_down_last, (String.eqb_sym k key).
      destruct (String.eqb key k); [reflexivity | apply Hp].
    + cbn [callbackCalls]. apply no_repeated_down_last; [exact Hn|].
      intros _. rewrite <- Hp; exact Ek.
  - unfold handleKeyUp, call_callback, set_key; cbn [keyboardCallback]; rewrite Hcb.
    split; [reflexivity|]. split.
    + intros k. unfold isKeyPressed; cbn [keyStates callbackCalls].
      rewrite told_down_last, (String.eqb_sym k key).
      destruct (String.eqb key k); [reflexivity | apply Hp].
    + cbn [callbackCalls]. apply no_repeated_down_last; [exact Hn | discriminate].
Qed.

Lemma key_events_agrees es st : agrees st -> agrees (key_events es st).
Proof.
  revert st; induction es as [|e es IH]; intros st H; [exact H|].
  apply IH, key_event_agrees, H.
Qed.

(** X23: after any key events that follow [setupKeyboardHandlers], a key
    is pressed for [isKeyPressed] exactly when the last call of the
    callback for this key said that it went down; and the callback is
    never told that a key went down when the last call for this key said
    so already: the repeated keydown events of a key that is held do not
    reach it. *)
Theorem held_key_reaches_callback_once (es : list KeyEvent) :
  let st := key_events es (setupKeyboardHandlers loaded) in
  (forall key, isKeyPressed key st = told_down key (callbackCalls st))
  /\ no_repeated_down (callbackCalls st).
Proof.
  cbv zeta.
  assert (A : agrees (setupKeyboardHandlers loaded)).
  { split; [reflexivity|]. split; [intros key; reflexivity|].
    intros before key after E. cbn in E. destruct before; discriminate E. }
  destruct (key_events_agrees es _ A) as [_ [Hp Hn]]. split; assumption.
Qed.

End KeyboardProps.

(** ** The level meter *)

Module MetersProps.

Import Meters.

Ltac by_Qltb :=
  repeat match goal with
         | |- context [Qltb ?a ?b] =>
             let E := fresh "E" in
             destruct (Qltb a b) eqn:E;
             [apply NumberFacts.Qltb_lt in E | apply NumberFacts.Qltb_ge in E]
         end.

Lemma filter_other_one (id : nat) :
  filter (fun t => negb (Nat.eqb t id)) [id] = [].
Proof. cbn. rewrite Nat.eqb_refl. reflexivity. Qed.

Lemma meter_event_well_formed st e : well_formed st -> well_formed (meter_event st e).
Proof.
  intros [H1 [H2 [H3 H4]]]. unfold dbMin, dbMax in *.
  destruct e as [|dbLevel now|now|id]; cbn [meter_event].
  - unfold resetMeters, well_formed, dbMin, dbMax.
    cbn [peakHoldTimer currentLevel peakLevel timeouts].
    destruct H4 as [E | [id [E Et]]].
    + destruct (peakHoldTimer st); cbn; rewrite ?E; cbn;
        (repeat split; try lra); left; reflexivity.
    + rewrite Et; cbn [clearTimeout currentLevel peakLevel timeouts peakHoldTimer].
      rewrite E, filter_other_one.
      repeat split; try lra. left; reflexivity.
  - unfold updateMeterLevel, well_formed, dbMin, dbMax.
    set (c := Math_max (-60) (Math_min 0 dbLevel)).
    assert (Hc : -60 <= c /\ c <= 0) by (unfold c; WaveformProps.clamp_cases; lra).
    clearbody c.
    destruct (Qltb (peakLevel st) c) eqn:Ep;
      [apply NumberFacts.Qltb_lt in Ep | apply NumberFacts.Qltb_ge in Ep];
      cbn [currentLevel peakLevel timeouts peakHoldTimer].
    + repeat split; by_Qltb; try lra.
      right; exists (nextTimeout st). split; [|reflexivity].
      destruct H4 as [E | [id [E Et]]].
      * rewrite E. destruct (peakHoldTimer st); reflexivity.
      * rewrite Et, E, filter_other_one. reflexivity.
    + repeat split; by_Qltb; try lra. exact H4.
  - unfold animation_frame, updateInterval, falloffRate.
    destruct (Qltb 50 (now - lastUpdateTime st)) eqn:Ee;
      [apply NumberFacts.Qltb_lt in Ee | repeat split; assumption].
    assert (Hf : 0 < (5 # 100) * (now - lastUpdateTime st) / 16).
    { apply Qlt_shift_div_l; [reflexivity | lra]. }
    revert Hf; generalize ((5 # 100) * (now - lastUpdateTime st) / 16); intros fall Hf.
    unfold well_formed, dbMin, dbMax.
    cbn [currentLevel peakLevel timeouts peakHoldTimer].
    repeat split; try exact H4; WaveformProps.clamp_cases; lra.
  - unfold peak_hold_expires.
    destruct (existsb (Nat.eqb id) (timeouts st)) eqn:Ex;
      [|repeat split; assumption].
    unfold well_formed, dbMin, dbMax.
    cbn [clearTimeout currentLevel peakLevel timeouts peakHoldTimer].
    repeat split; try lra.
    destruct H4 as [E | [id' [E Et]]].
    + rewrite E in Ex; discriminate Ex.
    + rewrite E in Ex |- *. cbn in Ex. rewrite orb_false_r in Ex.
      apply Nat.eqb_eq in Ex; subst id'.
      rewrite filter_other_one. left; reflexivity.
Qed.

Lemma meter_events_well_formed es st :
  well_formed st -> well_formed (meter_events es st).
Proof.
  revert st; induction es as [|e es IH]; intros st H; [exact H|].
  apply IH, meter_event_well_formed, H.
Qed.

Lemma dbToPercent_linear db : dbToPercent db == (5 # 3) * (db + 60).
Proof. unfold dbToPercent, dbMin, dbMax. field. Qed.

(** X24: from the moment the module is loaded, whatever levels arrive,
    whenever frames are drawn, the meter is reset and the peak hold
    expires: the level is between -60 dB and 0 dB, the peak is between
    the level and 0 dB, so the bar is between 0 % and 100 % wide with the
    peak mark not to its left; and at most one peak hold timeout is
    pending. *)
Theorem meter_stays_in_range (es : list MeterEvent) :
  let st := meter_events es loaded in
  dbMin <= currentLevel st /\ currentLevel st <= peakLevel st
  /\ peakLevel st <= dbMax
  /\ 0 <= dbToPercent (currentLevel st)
  /\ dbToPercent (currentLevel st) <= dbToPercent (peakLevel st)
  /\ dbToPercent (peakLevel st) <= 100
  /\ (length (timeouts st) <= 1)%nat.
Proof.
  cbv zeta.
  assert (A : well_formed loaded).
  { unfold well_formed, loaded, dbMin, dbMax; cbn.
    repeat split; try lra; try discriminate. left; reflexivity. }
  destruct (meter_events_well_formed es _ A) as [H1 [H2 [H3 H4]]].
  rewrite !dbToPercent_linear. unfold dbMin, dbMax in *.
  repeat split; try lra.
  destruct H4 as [E | [id [E _]]]; rewrite E; cbn; lia.
Qed.

(** X25: the colour of the bar by the level: green below -12 dB (below
    -60 dB too), yellow from -12 dB to below -3 dB, red from -3 dB up. *)
Theorem meter_colour_bands (db : Q) :
  (db < -12 -> getMeterColor db = Green)
  /\ (-12 <= db -> db < -3 -> getMeterColor db = Yellow)
  /\ (-3 <= db -> getMeterColor db = Red).
Proof.
  unfold getMeterColor, meterColors; cbn [fold_left fst snd].
  destruct (Qle_bool (-60) db) eqn:E1;
    [apply Qle_bool_iff in E1 | apply PlaybackProps.Qle_bool_false in E1];
    (destruct (Qle_bool (-12) db) eqn:E2;
     [apply Qle_bool_iff in E2 | apply PlaybackProps.Qle_bool_false in E2]);
    (destruct (Qle_bool (-3) db) eqn:E3;
     [apply Qle_bool_iff in E3 | apply PlaybackProps.Qle_bool_false in E3]);
    repeat split; intros; try reflexivity; lra.
Qed.

End MetersProps.

(** ** The transport of the page *)

Module AppProps.

Import String List App.
Local Open Scope string_scope.
Local Open Scope list_scope.
Local Open Scope Q_scope.

Ltac by_Qle_bool :=
  repeat match goal with
         | |- context [Qle_bool ?a ?b] =>
             let E := fresh "E" in
             destruct (Qle_bool a b) eqn:E;
             [apply Qle_bool_iff in E | apply PlaybackProps.Qle_bool_false in E]
         end.

Lemma handleStop_consistent app :
  0 <= totalDuration app ->
  (animationFrameId app = false -> frameRequested app = None) ->
  consistent (handleStop app) /\ totalDuration (handleStop app) = totalDuration app.
Proof.
  destruct app as [ab vd pl ct td id fr po ls]; cbn. intros Htd Hid.
  unfold handleStop, stopAnimationLoop, consistent; cbn.
  destruct id; cbn; [|rewrite (Hid eq_refl)]; repeat split; lra.
Qed.

Lemma handlePause_consistent app :
  consistent app ->
  consistent (handlePause app) /\ totalDuration (handlePause app) = totalDuration app.
Proof.
  destruct app as [ab vd pl ct td id fr po ls].
  unfold consistent, handlePause, stopAnimationLoop; cbn.
  intros [[H0 H1] [Hid Hfr]]. subst id.
  destruct pl; cbn; repeat split; assumption || reflexivity.
Qed.

Lemma handlePlay_consistent now app :
  consistent app ->
  consistent (handlePlay now app)
  /\ totalDuration (handlePlay now app) = totalDuration app.
Proof.
  destruct app as [ab vd pl ct td id fr po ls].
  unfold consistent, handlePlay, startAnimationLoop; cbn.
  intros [[H0 H1] [Hid Hfr]]. subst id.
  destruct ab; cbn; [|repeat split; assumption].
  destruct pl; cbn; [repeat split; assumption|].
  by_Qle_bool; cbn; repeat split; lra.
Qed.

Lemma handleSeek_consistent position app :
  consistent app -> 0 <= position <= 100 ->
  consistent (handleSeek position app)
  /\ totalDuration (handleSeek position app) = totalDuration app.
Proof.
  destruct app as [ab vd pl ct td id fr po ls].
  unfold consistent, handleSeek; cbn.
  intros [[H0 H1] [Hid Hfr]] [Hp0 Hp1].
  assert (Hq0 : 0 <= position / 100) by (apply Qle_shift_div_l; [reflexivity | lra]).
  assert (Hq1 : position / 100 <= 1) by (apply Qle_shift_div_r; [reflexivity | lra]).
  revert Hq0 Hq1; generalize (position / 100); intros q Hq0 Hq1.
  repeat split; try assumption; nra.
Qed.

Lemma updateUI_consistent config now perfNow app :
  consistent app ->
  match frameRequested app with Some lastTime => lastTime <= now | None => True end ->
  consistent (updateUI config now perfNow app)
  /\ totalDuration (updateUI config now perfNow app) = totalDuration app.
Proof.
  intros Hc Hnow. unfold updateUI.
  destruct (frameRequested app) as [lastTime|] eqn:Efr; [|split; [exact Hc | reflexivity]].
  destruct Hc as [[H0 H1] [Hid Hfr]]. rewrite Efr in Hfr.
  cbn [isPlaying]. rewrite Hfr; cbn [negb].
  cbn [set_currentTime currentTime totalDuration audioBuffer videoDecoder isPlaying
       animationFrameId frameRequested posted lastSyncTime].
  set (t := Math_min (currentTime app + (now - lastTime)) (totalDuration app)).
  assert (Ht : 0 <= t /\ t <= totalDuration app)
    by (unfold t; WaveformProps.clamp_cases; lra).
  clearbody t.
  destruct (Qle_bool (totalDuration app) t) eqn:Ee;
    [|apply PlaybackProps.Qle_bool_false in Ee].
  - match goal with
    | |- consistent (handleStop ?x) /\ _ =>
        destruct (handleStop_consistent x) as [A B];
        [cbn; lra | intros _; reflexivity | split; [exact A | exact B]]
    end.
  - destruct (Sync.syncAudioVideo config (videoDecoder app) t perfNow (lastSyncTime app))
      as [decoder synced].
    unfold consistent, requestAnimationFrame; cbn. repeat split; lra.
Qed.

Lemma handleKeyboardEvent_consistent key now app :
  consistent app ->
  consistent (handleKeyboardEvent key now app)
  /\ totalDuration (handleKeyboardEvent key now app) = totalDuration app.
Proof.
  intros Hc. unfold handleKeyboardEvent.
  destruct (String.eqb key " ").
  - destruct (isPlaying app);
      [apply handlePause_consistent | apply handlePlay_consistent]; exact Hc.
  - destruct (String.eqb key "Escape"); [|split; [exact Hc | reflexivity]].
    destruct Hc as [[H0 H1] [Hid Hfr]].
    apply handleStop_consistent; [lra|].
    intros E. rewrite E in Hid. destruct (frameRequested app); congruence.
Qed.

Lemma app_event_consistent config app e :
  consistent app -> expected app e ->
  consistent (app_event config app e)
  /\ totalDuration (app_event config app e) = totalDuration app.
Proof.
  intros Hc He. destruct e; cbn [app_event expected] in *.
  - apply handlePlay_consistent, Hc.
  - apply handlePause_consistent, Hc.
  - destruct Hc as [[H0 H1] [Hid Hfr]].
    apply handleStop_consistent; [lra|].
    intros E. rewrite E in Hid. destruct (frameRequested app); congruence.
  - apply handleSeek_consistent; assumption.
  - apply handleKeyboardEvent_consistent, Hc.
  - apply updateUI_consistent; assumption.
Qed.

(** X26: once a file is loaded, whatever the user does with the
    transport, the keys and the seek slider (between 0 and 100) and
    whenever the animation callback runs (the audio clock not running
    backwards): the clock of the page stays between 0 and the duration,
    which does not change; and the animation callback is requested
    exactly while the transport plays, so the displayed time advances
    while playing and only then. *)
Theorem page_clock_consistent (config : Sync.Config) (es : list AppEvent)
    (app : AppState) :
  consistent app -> all_expected config es app ->
  consistent (app_events config es app)
  /\ totalDuration (app_events config es app) = totalDuration app.
Proof.
  revert app; induction es as [|e es IH]; intros app Hc He; [split; [exact Hc | reflexivity]|].
  destruct He as [He Hrest].
  destruct (app_event_consistent config app e Hc He) as [Hc' Et].
  destruct (IH _ Hc' Hrest) as [Hc'' Et'].
  split; [exact Hc''|]. cbn [app_events fold_left] in *. rewrite <- Et. exact Et'.
Qed.

Lemma page_clock_consistent_witness :
  consistent ten_seconds_loaded
  /\ all_expected Sync.default_config
       [Play 0; AnimationFrame 1 0; Seek 50; Pause; Key " " 2;
        AnimationFrame 3 0; Stop] ten_seconds_loaded
  /\ consistent
       (app_events Sync.default_config
          [Play 0; AnimationFrame 1 0; Seek 50; Pause; Key " " 2;
           AnimationFrame 3 0; Stop] ten_seconds_loaded).
Proof.
  assert (A : consistent ten_seconds_loaded).
  { unfold consistent; cbn. repeat split; try reflexivity; discriminate. }
  assert (B : all_expected Sync.default_config
                [Play 0; AnimationFrame 1 0; Seek 50; Pause; Key " " 2;
                 AnimationFrame 3 0; Stop] ten_seconds_loaded).
  { vm_compute. repeat split; discriminate. }
  split; [exact A|]. split; [exact B|].
  exact (proj1 (page_clock_consistent Sync.default_config _ _ A B)).
Defined.

Lemma skipn_posted {A : Type} (l more : list A) :
  skipn (length l) (l ++ more) = more.
Proof.
  rewrite skipn_app, skipn_all, Nat.sub_diag; reflexivity.
Qed.

(** What the stop message does to a worklet that is initialized. *)
Lemma stop_message_rewinds (w : JsWorklet.SamplerProcessor) :
  JsWorklet.initialized w = true -> JsWorklet.rustProcessor w = true ->
  let w' := JsWorklet.handleMessage (JsWorklet.CmdSetPlaybackState false true) w in
  JsWorklet.isPlaying w' = false /\ JsWorklet.playbackPosition w' = 0.
Proof.
  intros Hi Hr. destruct w as [ini rp sb sr pl pos port]; cbn in *; subst.
  split; reflexivity.
Qed.

(** X27: the animation callback that finds the clock at the end of the
    audio stops the transport: the page is not playing, its clock is back
    at 0, no further callback is requested, and exactly one message is
    posted, the stop message with [resetPosition], which leaves an
    initialized sampler stopped at position 0. *)
Theorem playback_stops_at_end_of_audio (config : Sync.Config) (now perfNow lastTime : Q)
    (app : AppState) :
  isPlaying app = true -> frameRequested app = Some lastTime ->
  totalDuration app <= currentTime app + (now - lastTime) ->
  let app' := updateUI config now perfNow app in
  isPlaying app' = false /\ currentTime app' = 0
  /\ frameRequested app' = None /\ animationFrameId app' = false
  /\ posted app' = posted app ++ [JsWorklet.CmdSetPlaybackState false true]
  /\ forall w, JsWorklet.initialized w = true -> JsWorklet.rustProcessor w = true ->
       let w' := JsWorklet.handleMessages
                   (skipn (length (posted app)) (posted app')) w in
       JsWorklet.isPlaying w' = false /\ JsWorklet.playbackPosition w' = 0.
Proof.
  intros Hp Hfr Hend app'.
  assert (E : app' = handleStop
                       (mkApp (audioBuffer app) (videoDecoder app) true
                              (Math_min (currentTime app + (now - lastTime))
                                        (totalDuration app))
                              (totalDuration app) (animationFrameId app) None
                              (posted app) (lastSyncTime app))).
  { unfold app', updateUI. rewrite Hfr. cbn [isPlaying]. rewrite Hp. cbn [negb].
    cbn [set_currentTime currentTime totalDuration audioBuffer videoDecoder isPlaying
         animationFrameId frameRequested posted lastSyncTime].
    assert (T : Qle_bool (totalDuration app)
                  (Math_min (currentTime app + (now - lastTime)) (totalDuration app))
                = true).
    { apply Qle_bool_iff. WaveformProps.clamp_cases; lra. }
    rewrite T. reflexivity. }
  rewrite E. unfold handleStop, stopAnimationLoop.
  cbn [set_isPlaying set_currentTime postMessage currentTime totalDuration audioBuffer
       videoDecoder isPlaying animationFrameId frameRequested posted lastSyncTime].
  destruct (animationFrameId app);
    cbn [set_isPlaying set_currentTime postMessage currentTime totalDuration
         audioBuffer videoDecoder isPlaying animationFrameId frameRequested posted
         lastSyncTime];
    (repeat (split; [reflexivity|]));
    intros w Hi Hr; rewrite skipn_posted; apply stop_message_rewinds; assumption.
Qed.

Lemma playback_stops_at_end_of_audio_witness :
  let app := app_events Sync.default_config [Play 0; Seek 95] ten_seconds_loaded in
  isPlaying app = true /\ frameRequested app = Some 0
  /\ totalDuration app <= currentTime app + (1 - 0)
  /\ isPlaying (updateUI Sync.default_config 1 0 app) = false.
Proof.
  cbv zeta.
  split; [reflexivity|]. split; [reflexivity|]. split; [vm_compute; discriminate|].
  apply (playback_stops_at_end_of_audio Sync.default_config 1 0 0
           (app_events Sync.default_config [Play 0; Seek 95] ten_seconds_loaded));
    [reflexivity | reflexivity | vm_compute; discriminate].
Defined.

(** X28: pause, then play.  The page posts the pause message and the
    play message, neither with a seek, is playing again, and its clock is
    where it was at the pause.  An initialized sampler that receives the
    two messages is playing again too, at position 0: the sample restarts
    from its beginning while the page goes on from the paused time. *)
Theorem resume_after_pause_restarts_sample (now : Q) (app : AppState)
    (w : JsWorklet.SamplerProcessor) :
  audioBuffer app = true -> isPlaying app = true ->
  currentTime app < totalDuration app ->
  JsWorklet.initialized w = true -> JsWorklet.rustProcessor w = true ->
  let app' := handlePlay now (handlePause app) in
  let w' := JsWorklet.handleMessages (skipn (length (posted app)) (posted app')) w in
  posted app' = posted app ++ [JsWorklet.CmdSetPlaybackState false false;
                               JsWorklet.CmdSetPlaybackState true false]
  /\ isPlaying app' = true /\ currentTime app' = currentTime app
  /\ JsWorklet.isPlaying w' = true /\ JsWorklet.playbackPosition w' = 0.
Proof.
  intros Hab Hpl Hct Hi Hr.
  destruct app as [ab vd pl ct td id fr po ls]; cbn in Hab, Hpl, Hct; subst ab pl.
  assert (T : Qle_bool td ct = false).
  { destruct (Qle_bool td ct) eqn:E; [apply Qle_bool_iff in E; lra | reflexivity]. }
  assert (Ep : posted (handlePlay now (handlePause (mkApp true vd true ct td id fr po ls)))
               = po ++ [JsWorklet.CmdSetPlaybackState false false;
                        JsWorklet.CmdSetPlaybackState true false]).
  { unfold handlePlay, handlePause, stopAnimationLoop, startAnimationLoop.
    destruct id; cbn; rewrite T; cbn; rewrite <- app_assoc; reflexivity. }
  cbv zeta. rewrite Ep. cbn [posted]. rewrite skipn_posted.
  split; [reflexivity|].
  split; [unfold handlePlay, handlePause, stopAnimationLoop, startAnimationLoop;
          destruct id; cbn; rewrite T; reflexivity|].
  split; [unfold handlePlay, handlePause, stopAnimationLoop, startAnimationLoop;
          destruct id; cbn; rewrite T; reflexivity|].
  destruct w as [ini rp sb sr wpl pos port]; cbn in Hi, Hr; subst ini rp.
  split; reflexivity.
Qed.

Lemma resume_after_pause_restarts_sample_witness :
  let app := app_events Sync.default_config [Play 0; AnimationFrame 3 0]
                        ten_seconds_loaded in
  let w := JsWorklet.reactions 44100
             [JsWorklet.Render [[JsWorklet.block128; JsWorklet.block128]] 1]
             JsWorklet.two_sample_player in
  audioBuffer app = true /\ isPlaying app = true
  /\ currentTime app < totalDuration app
  /\ JsWorklet.initialized w = true /\ JsWorklet.rustProcessor w = true
  /\ currentTime (handlePlay 4 (handlePause app)) = 3
  /\ JsWorklet.playbackPosition
       (JsWorklet.handleMessages
          (skipn (length (posted app)) (posted (handlePlay 4 (handlePause app)))) w)
     = 0.
Proof.
  cbv zeta.
  assert (A : currentTime (app_events Sync.default_config [Play 0; AnimationFrame 3 0]
                                      ten_seconds_loaded)
              < totalDuration (app_events Sync.default_config
                                          [Play 0; AnimationFrame 3 0]
                                          ten_seconds_loaded))
    by (vm_compute; reflexivity).
  pose proof (resume_after_pause_restarts_sample 4
                (app_events Sync.default_config [Play 0; AnimationFrame 3 0]
                            ten_seconds_loaded)
                (JsWorklet.reactions 44100
                   [JsWorklet.Render [[JsWorklet.block128; JsWorklet.block128]] 1]
                   JsWorklet.two_sample_player)
                eq_refl eq_refl A eq_refl eq_refl) as [_ [_ [Ec [_ Ep]]]].
  do 5 (split; [reflexivity || exact A|]).
  split; [rewrite Ec; vm_compute; reflexivity | exact Ep].
Defined.

(** X29: the callback of the keyboard module is called for the press and
    for the release of a key, and the page toggles the transport at every
    call for the space bar without looking at which it is.  So pressing
    and releasing the space bar (not held before, outside a text field,
    a file being loaded) toggles twice: the transport is left as it was,
    after two messages to the sampler. *)
Theorem space_bar_press_and_release_toggles_twice (now : Q)
    (kb : Keyboard.KeyboardState) (app : AppState) :
  Keyboard.keyboardCallback kb = true ->
  Keyboard.isKeyPressed " " kb = false ->
  audioBuffer app = true ->
  let kb' := Keyboard.key_events [Keyboard.KeyDown " " false; Keyboard.KeyUp " "] kb in
  let calls := skipn (length (Keyboard.callbackCalls kb)) (Keyboard.callbackCalls kb') in
  let app' := keyboard_calls calls now app in
  calls = [(" ", true); (" ", false)]
  /\ isPlaying app' = isPlaying app
  /\ posted app'
     = posted app
       ++ [JsWorklet.CmdSetPlaybackState (negb (isPlaying app)) false;
           JsWorklet.CmdSetPlaybackState (isPlaying app) false].
Proof.
  intros Hcb Hkey Hab.
  assert (Ec : Keyboard.callbackCalls
                 (Keyboard.key_events [Keyboard.KeyDown " " false; Keyboard.KeyUp " "] kb)
               = Keyboard.callbackCalls kb ++ [(" ", true); (" ", false)]).
  { cbn [Keyboard.key_events fold_left Keyboard.key_event].
    unfold Keyboard.handleKeyUp, Keyboard.handleKeyDown. rewrite Hkey.
    unfold Keyboard.call_callback, Keyboard.set_key. cbn [Keyboard.keyboardCallback].
    rewrite Hcb. cbn [Keyboard.keyboardCallback Keyboard.callbackCalls].
    rewrite <- app_assoc; reflexivity. }
  cbv zeta. rewrite Ec, skipn_posted.
  split; [reflexivity|].
  destruct app as [ab vd pl ct td id fr po ls]; cbn in Hab; subst ab.
  unfold keyboard_calls; cbn [fold_left fst].
  unfold handleKeyboardEvent; cbn [String.eqb Ascii.eqb Bool.eqb].
  destruct pl.
  - unfold handlePlay, handlePause, stopAnimationLoop, startAnimationLoop.
    destruct id; cbn; destruct (Qle_bool td ct); cbn; rewrite <- app_assoc;
      split; reflexivity.
  - unfold handlePlay, handlePause, stopAnimationLoop, startAnimationLoop.
    destruct id; cbn; destruct (Qle_bool td ct); cbn; rewrite <- app_assoc;
      split; reflexivity.
Qed.

Lemma space_bar_press_and_release_toggles_twice_witness :
  Keyboard.keyboardCallback (Keyboard.setupKeyboardHandlers Keyboard.loaded) = true
  /\ Keyboard.isKeyPressed " " (Keyboard.setupKeyboardHandlers Keyboard.loaded) = false
  /\ audioBuffer ten_seconds_loaded = true
  /\ isPlaying
       (keyboard_calls
          (Keyboard.callbackCalls
             (Keyboard.key_events [Keyboard.KeyDown " " false; Keyboard.KeyUp " "]
                (Keyboard.setupKeyboardHandlers Keyboard.loaded)))
          0 ten_seconds_loaded)
     = false.
Proof.
  repeat (split; [reflexivity|]).
  exact (proj1 (proj2 (space_bar_press_and_release_toggles_twice 0
                         (Keyboard.setupKeyboardHandlers Keyboard.loaded)
                         ten_seconds_loaded eq_refl eq_refl eq_refl))).
Defined.

End AppProps.
